(** * node-gitlab-2-github: identifier maps and body rewriting

    A shallow embedding of [RepoConverter] (map builders, [convertBody],
    [convertAttachments], the conversions of issues, notes, labels and
    assignees), of the storage helpers, of [pick] and [omit], and of the
    part of the driver ([migrate], [transferMilestones], [transferLabels],
    [transferIssues], [transferMergeRequests]) that builds and consumes the
    identifier maps.

    Conventions of the embedding.
    - A JavaScript [number] holding an integer is a [Z]; the one non-integer
      value the code can produce, [-Infinity] (the result of [Math.max] on
      no argument), is a constructor of its own.  The embedding is exact for
      integers of magnitude below 2^53.
    - A JavaScript string whose code units are all below 256 is a Rocq
      [string], one [ascii] per code unit.
    - A [Map<number, ...>] whose iteration order is never observed is a
      [gmap Z _]; the milestone map, which is searched in insertion order,
      is an association list with the update-in-place behaviour of
      [Map.prototype.set].
    - A settings object used as a dictionary ([usermap], [projectmap]) is an
      association list in [Object.keys] order, with distinct keys.
    - An [async] method is the function from what its requests return to
      what it resolves to; the listings of the two helpers are fields of
      their records.
    - Library functions (hashes, MIME lookup, [path.basename], date
      formatting) are section variables. *)

From Stdlib Require Import ZArith Ascii Lia Bool.
From Stdlib Require String.
From Stdlib Require Import Numbers.DecimalString.
From stdpp Require Import base option list sorting gmap strings.

Local Open Scope Z_scope.

(** ** JavaScript values *)

Module Js.

(** [number]: an integer, or [-Infinity]. *)
Inductive number :=
  | Num (z : Z)
  | NegInfinity.

#[global] Instance number_eq_dec : EqDecision number.
Proof. solve_decision. Defined.

(** [a + b] *)
Definition add (a b : number) : number :=
  match a, b with
  | Num x, Num y => Num (x + y)
  | _, _ => NegInfinity
  end.

(** [Math.max(a, b)] *)
Definition max (a b : number) : number :=
  match a, b with
  | Num x, Num y => Num (Z.max x y)
  | Num x, NegInfinity => Num x
  | NegInfinity, b => b
  end.

(** [Math.max.apply(Math, xs)]: [-Infinity] when [xs] is empty. *)
Definition Math_max (xs : list number) : number :=
  foldr max NegInfinity xs.

(** [a < b] on numbers. *)
Definition lt (a b : number) : Prop :=
  match a, b with
  | Num x, Num y => x < y
  | NegInfinity, Num _ => True
  | _, NegInfinity => False
  end.

Definition le (a b : number) : Prop :=
  match a, b with
  | Num x, Num y => x <= y
  | NegInfinity, _ => True
  | Num _, NegInfinity => False
  end.

(** [String(z)] for an integer. *)
Definition Z_toString (z : Z) : string :=
  NilZero.string_of_int (Z.to_int z).

(** [String(n)], as in ['#' + n]. *)
Definition toString (n : number) : string :=
  match n with
  | Num z => Z_toString z
  | NegInfinity => "-Infinity"
  end.

(** The regular expression class [\d]. *)
Definition is_digit (c : ascii) : bool :=
  let n := nat_of_ascii c in ((48 <=? n) && (n <=? 57))%nat.

(** The regular expression class [\w]: [A-Za-z0-9_]. *)
Definition is_word (c : ascii) : bool :=
  let n := nat_of_ascii c in
  (((48 <=? n) && (n <=? 57)) || ((65 <=? n) && (n <=? 90))
   || ((97 <=? n) && (n <=? 122)) || (n =? 95))%nat.

(** [parseInt(s)] on a string of decimal digits, as the callers below only
    ever pass what [\d+] has matched. *)
Definition parseInt (s : string) : Z :=
  fold_left (fun acc c => 10 * acc + (Z.of_nat (nat_of_ascii c) - 48))
            (String.list_ascii_of_string s) 0.

Definition LF : ascii := ascii_of_nat 10.
Definition CR : ascii := ascii_of_nat 13.
Definition DQUOTE : ascii := ascii_of_nat 34.

(** A code unit the regular expression [.] does not match. *)
Definition is_line_terminator (c : ascii) : bool :=
  bool_decide (c = LF) || bool_decide (c = CR).

End Js.

(** ** Data *)

(** utils.ts, [SimpleItem]. *)
Inductive ItemState := open | closed.

#[global] Instance ItemState_eq_dec : EqDecision ItemState.
Proof. solve_decision. Defined.

Record SimpleItem := mkSimpleItem {
  iid : Z;
  title : string;
  description : option string;
  state : option ItemState;
}.

#[global] Instance SimpleItem_eq_dec : EqDecision SimpleItem.
Proof. solve_decision. Defined.

(** The identity of a destination entity: its number and its title. *)
Definition ident (m : SimpleItem) : Z * string := (iid m, title m).

(** gitlabHelper.ts, [GitLabPosition]: the position of an inline note in a
    diff.  A missing line is [None]; a line of 0 is falsy as well. *)
Record GitLabPosition := mkPosition {
  base_sha : string;
  head_sha : string;
  old_path : string;
  new_path : string;
  old_line : option Z;
  new_line : option Z;
}.

(** The fields of [GitLabIssue | GitLabMergeRequest | GitLabNote |
    GitLabMilestone] that the converter reads.  A missing author, user name
    or creation date is the empty string (all are falsy). *)
Record GitLabItem := mkItem {
  item_iid : Z;
  item_title : string;
  item_description : string;
  author_username : string;
  created_at : string;
  position : option GitLabPosition;
}.

(** An entry of [GitHubHelper.getAllGithubIssues()]. *)
Record GitHubIssue := mkGitHubIssue {
  number : Z;
  issue_title : string;
}.

(** storageHelper.ts, [AttachmentMetadata]. *)
Record AttachmentMetadata := mkAttachment {
  origin : string;
  destination : string;
  mimeType : option string;
}.

#[global] Instance AttachmentMetadata_eq_dec : EqDecision AttachmentMetadata.
Proof. solve_decision. Defined.

(** ** [Map] with observable insertion order *)

Module JsMap.
Section JsMap.
Context {V : Type}.

Definition t := list (Z * V).

Definition empty : t := [].

(** [m.get(k)] *)
Fixpoint get (k : Z) (m : t) : option V :=
  match m with
  | [] => None
  | (k', v) :: m' => if decide (k' = k) then Some v else get k m'
  end.

Definition has (k : Z) (m : t) : bool := bool_decide (is_Some (get k m)).

(** [m.set(k, v)]: an existing key keeps its place, a new one goes last. *)
Fixpoint set (k : Z) (v : V) (m : t) : t :=
  match m with
  | [] => [(k, v)]
  | (k', v') :: m' =>
      if decide (k' = k) then (k, v) :: m' else (k', v') :: set k v m'
  end.

(** [m.keys()], [m.values()] *)
Definition keys (m : t) : list Z := m.*1.
Definition values (m : t) : list V := m.*2.

End JsMap.
Arguments t : clear implicits.
End JsMap.


(** ** Helpers and settings *)

(** githubHelper.ts: the coordinates of the destination repository and what
    the listing calls return. *)
Record GitHubHelper := mkGitHubHelper {
  githubUrl : string;
  githubOwner : string;
  githubRepo : string;
  allGithubMilestones : list SimpleItem;
  allGithubIssues : list GitHubIssue;
  allGithubPullRequests : list GitHubIssue;
}.

(** gitlabHelper.ts: the source host, the registered project path and the
    cached listings. *)
Record GitLabHelper := mkGitLabHelper {
  host : string;
  projectPath : string;
  allMilestones : list GitLabItem;
  allIssues : list GitLabItem;
  allMergeRequests : list GitLabItem;
}.

(** The part of the global [settings] object read by the code below. *)
Record Settings := mkSettings {
  usermap : list (string * string);
  projectmap : list (string * string);
  github_baseUrl : string;
  transfer_description : bool;
  transfer_milestones : bool;
  transfer_labels : bool;
  transfer_releases : bool;
  transfer_issues : bool;
  transfer_mergeRequests : bool;
  transfer_attachments : bool;
  mergeRequests_log : bool;
  usePlaceholderMilestonesForMissingMilestones : bool;
  usePlaceholderIssuesForMissingIssues : bool;
  usePlaceholderIssuesForMissingMergeRequests : bool;
}.

(** storageHelper.ts, [interface StorageHelper]; [migrateAttachment] moves
    bytes and has no part in rewriting. *)
Record StorageHelper := mkStorageHelper {
  preprocessAttachment : string → AttachmentMetadata;
}.

(** [endsWith('/')] *)
Fixpoint endsWith_slash (s : string) : bool :=
  match s with
  | EmptyString => false
  | String c EmptyString => bool_decide (c = "/"%char)
  | String _ s' => endsWith_slash s'
  end.

(** [new PassThroughStorageHelper(gitlabHelper)] *)
Definition PassThroughStorageHelper (gitlabHelper : GitLabHelper)
  : StorageHelper :=
  let host' := if endsWith_slash (host gitlabHelper)
               then host gitlabHelper
               else host gitlabHelper +:+ "/" in
  {| preprocessAttachment url :=
       let attachmentUrl := host' +:+ projectPath gitlabHelper +:+ url in
       {| origin := url; destination := attachmentUrl; mimeType := None |} |}.

Section S3.
(** Library functions: [crypto.createHash('sha256')...digest('hex')],
    [mime.lookup] and [path.basename]. *)
Variable sha256_hex : string → string.
Variable mime_lookup : string → option string.
Variable basename : string → string.

(** [new S3Helper(gitlabHelper, s3settings, prefix)]; an absent or empty
    prefix is the empty string. *)
Definition S3Helper (bucket : string) (prefix : string) : StorageHelper :=
  {| preprocessAttachment url :=
       let base := basename url in
       let newFileName := sha256_hex url +:+ "/" +:+ base in
       let relativePath :=
         if bool_decide (prefix = "") then newFileName
         else prefix +:+ "/" +:+ newFileName in
       let s3url := "https://" +:+ bucket +:+ ".s3.amazonaws.com/"
                    +:+ relativePath in
       {| origin := url; destination := s3url;
          mimeType := mime_lookup base |} |}.
End S3.

(** [class RepoConverter]: the three identifier maps are optional fields,
    absent after construction. *)
Record RepoConverter := mkRepoConverter {
  githubHelper : GitHubHelper;
  gitlabHelper : GitLabHelper;
  storageHelper : StorageHelper;
  milestoneMap : option (JsMap.t SimpleItem);
  issueMap : option (gmap Z Js.number);
  mrMap : option (gmap Z Js.number);
  attachmentMap : gmap string AttachmentMetadata;
}.

(** [new RepoConverter(gitlabHelper, githubHelper, storageHelper)] *)
Definition new_RepoConverter (gl : GitLabHelper) (gh : GitHubHelper)
    (sh : StorageHelper) : RepoConverter :=
  {| githubHelper := gh; gitlabHelper := gl; storageHelper := sh;
     milestoneMap := None; issueMap := None; mrMap := None;
     attachmentMap := ∅ |}.

(** A call either returns or throws [Error(msg)]. *)
Inductive result (A : Type) :=
  | Ok (a : A)
  | Throw (msg : string).
Arguments Ok {A} a.
Arguments Throw {A} msg.

#[global] Instance result_ret : MRet result := fun A a => Ok a.
#[global] Instance result_bind : MBind result := fun A B k r =>
  match r with
  | Ok a => k a
  | Throw msg => Throw msg
  end.

(** ** Identifier map builders (class [RepoConverter]) *)

(** [Array.prototype.sort((a, b) => a.iid - b.iid)]: a stable sort.  The
    source sorts (and, in the driver, splices) the array cached by the
    GitLab helper in place; the functions below return the sorted array and
    leave the listing of the helper as it is, which no statement proved
    here can tell apart, none of them running two of these functions in
    sequence on one helper. *)
Fixpoint insert_by_iid (x : GitLabItem) (l : list GitLabItem)
  : list GitLabItem :=
  match l with
  | [] => [x]
  | y :: l' =>
      if item_iid x <? item_iid y then x :: y :: l'
      else y :: insert_by_iid x l'
  end.

Definition sort_by_iid (l : list GitLabItem) : list GitLabItem :=
  foldl (fun acc x => insert_by_iid x acc) [] l.

(** [githubMilestones.find(m => m.title === milestone.title)] *)
Definition foundMilestone (githubMilestones : list SimpleItem)
    (milestone : GitLabItem) : option SimpleItem :=
  List.find (fun m => String.eqb (title m) (item_title milestone))
            githubMilestones.

(** One turn of the loop of [buildMilestoneMap]; the state is the map and
    [lastMilestoneId]. *)
Definition buildMilestoneMap_step (githubMilestones : list SimpleItem)
    (usePlaceholders : bool) (st : JsMap.t SimpleItem * Z)
    (milestone : GitLabItem) : JsMap.t SimpleItem * Z :=
  let '(milestoneMap, lastMilestoneId) := st in
  match foundMilestone githubMilestones milestone with
  | Some found =>
      (JsMap.set (item_iid milestone) found milestoneMap,
       Z.max lastMilestoneId (iid found))
  | None =>
      let lastMilestoneId :=
        if usePlaceholders
        then Z.max lastMilestoneId (item_iid milestone - 1)
        else lastMilestoneId in
      let lastMilestoneId := lastMilestoneId + 1 in
      (JsMap.set (item_iid milestone)
         {| iid := lastMilestoneId; title := item_title milestone;
            description := None; state := None |} milestoneMap,
       lastMilestoneId)
  end.

(** The body of [buildMilestoneMap] on the two listings. *)
Definition buildMilestoneMap_on (githubMilestones : list SimpleItem)
    (gitlabMilestones : list GitLabItem) (usePlaceholders : bool)
  : JsMap.t SimpleItem :=
  let lastMilestoneId :=
    foldl (fun acc m => Z.max acc (iid m)) 0 githubMilestones in
  fst (foldl (buildMilestoneMap_step githubMilestones usePlaceholders)
             (JsMap.empty, lastMilestoneId) gitlabMilestones).

Definition buildMilestoneMap (c : RepoConverter) (usePlaceholders : bool)
  : JsMap.t SimpleItem :=
  buildMilestoneMap_on (allGithubMilestones (githubHelper c))
                       (allMilestones (gitlabHelper c)) usePlaceholders.

(** [buildIssueMap]: the source issues are fetched and not used, and
    neither is [usePlaceholders]. *)
Definition buildIssueMap (c : RepoConverter) (usePlaceholders : bool)
  : gmap Z Js.number :=
  let githubIssues := allGithubIssues (githubHelper c) in
  let gitlabIssues := allIssues (gitlabHelper c) in
  foldl (fun issueMap issue =>
           <[number issue := Js.Num (number issue)]> issueMap)
        ∅ githubIssues.

(** [Array.from(map.values())] *)
Definition map_values (m : gmap Z Js.number) : list Js.number :=
  (map_to_list m).*2.

(** The [for] loop of [buildMergeRequestMap], from index [i] on. *)
Fixpoint buildMergeRequestMap_loop (usePlaceholders : bool)
    (lastIssueNumber : Js.number) (i : Z) (mergeRequests : list GitLabItem)
    (mrMap : gmap Z Js.number) : gmap Z Js.number :=
  match mergeRequests with
  | [] => mrMap
  | mr :: rest =>
      let expectedIdx := i + 1 in
      let mrMap :=
        if usePlaceholders && negb (item_iid mr =? expectedIdx)
        then <[expectedIdx := Js.add (Js.Num expectedIdx) lastIssueNumber]>
               mrMap
        else <[item_iid mr := Js.add (Js.Num expectedIdx) lastIssueNumber]>
               mrMap in
      buildMergeRequestMap_loop usePlaceholders lastIssueNumber (i + 1)
                                rest mrMap
  end.

Definition buildMergeRequestMap (c : RepoConverter) (usePlaceholders : bool)
  : result (gmap Z Js.number) :=
  match issueMap c with
  | None => Throw "issueMap not initialised"
  | Some issueMap =>
      let pullRequests := allGithubPullRequests (githubHelper c) in
      let mergeRequests := sort_by_iid (allMergeRequests (gitlabHelper c)) in
      let lastIssueNumber := Js.Math_max (map_values issueMap) in
      Ok (buildMergeRequestMap_loop usePlaceholders lastIssueNumber 0
                                    mergeRequests ∅)
  end.

(** [RepoConverter.createPlaceholderData]; [typeof item] is ["object"]. *)
Definition createPlaceholderData (item : GitLabItem) (expectedIdx : Z)
  : GitLabItem :=
  {| item_iid := expectedIdx;
     item_title := "[PLACEHOLDER] - for object #"
                   +:+ Js.Z_toString expectedIdx;
     item_description :=
       "This is to ensure that the numbering in GitHub is consistent. In particular it helps with auto-references in comments using #, %, !, etc.";
     author_username := ""; created_at := ""; position := None |}.

(** ** Map building in the driver

    [transferIssues] and [transferMergeRequests] rebuild the issue and the
    merge request map in a loop that splices a placeholder into the array
    it walks.  The array is the items already passed followed by [rest];
    splicing at the current index and stepping over the new element leaves
    [rest] as it was.  The loop need not end (an [iid] below the expected
    index is never reached), hence the fuel. *)
Fixpoint splice_loop (dest : Z → Js.number) (usePlaceholders : bool)
    (fuel : nat) (i : Z) (passed rest : list GitLabItem)
    (map : gmap Z Js.number)
  : option (list GitLabItem * gmap Z Js.number) :=
  match rest with
  | [] => Some (passed, map)
  | item :: rest' =>
      match fuel with
      | O => None
      | S fuel =>
          let expectedIdx := i + 1 in
          if usePlaceholders && negb (item_iid item =? expectedIdx) then
            let placeholder := createPlaceholderData item expectedIdx in
            splice_loop dest usePlaceholders fuel (i + 1)
                        (passed ++ [placeholder]) rest
                        (<[expectedIdx := dest expectedIdx]> map)
          else
            splice_loop dest usePlaceholders fuel (i + 1)
                        (passed ++ [item]) rest'
                        (<[item_iid item := dest expectedIdx]> map)
      end
  end.

(** Lines 411-433 of the driver: the issue map of [transferIssues]. *)
Definition transferIssues_issueMap (fuel : nat) (gl : GitLabHelper)
    (usePlaceholders : bool)
  : option (list GitLabItem * gmap Z Js.number) :=
  let issues := sort_by_iid (allIssues gl) in
  splice_loop Js.Num usePlaceholders fuel 0 [] issues ∅.

(** Lines 521-553 of the driver: the merge request map of
    [transferMergeRequests]; reading [values()] of an absent issue map
    throws. *)
Definition transferMergeRequests_mrMap (fuel : nat) (c : RepoConverter)
    (usePlaceholders : bool)
  : result (option (list GitLabItem * gmap Z Js.number)) :=
  let mergeRequests := sort_by_iid (allMergeRequests (gitlabHelper c)) in
  match issueMap c with
  | None => Throw "Cannot read properties of undefined (reading 'values')"
  | Some issueMap =>
      let lastIssueNumber := Js.Math_max (map_values issueMap) in
      Ok (splice_loop (fun expectedIdx =>
                         Js.add (Js.Num expectedIdx) lastIssueNumber)
                      usePlaceholders fuel 0 [] mergeRequests ∅)
  end.

(** ** The driver: [migrate]

    What [migrate] does is recorded as a trace.  A transfer phase, which
    creates or updates entities at the destination, is a single event; its
    individual requests are not modelled.  [process.exit] ends the trace. *)
Inductive Phase :=
  | Description | Milestones | Labels | Releases | Issues | MergeRequests
  | Attachments.

Inductive Event :=
  | ConsoleError (msg : string)
  | ProcessExit (code : Z)
  | WriteLogFile
  | Transfer (phase : Phase).

(** Does the event write to the destination? *)
Definition is_destination_write (e : Event) : bool :=
  match e with
  | Transfer _ => true
  | _ => false
  end.

(** Lines 155-164: the chain of the three builders.  Each result is passed
    to a [then] that ignores it; no field of the converter is assigned. *)
Definition buildMaps (settings : Settings) (c : RepoConverter)
  : result (gmap Z Js.number) :=
  _ ← Ok (buildMilestoneMap c
            (usePlaceholderMilestonesForMissingMilestones settings));
  _ ← Ok (buildIssueMap c (usePlaceholderIssuesForMissingIssues settings));
  buildMergeRequestMap c
    (usePlaceholderIssuesForMissingMergeRequests settings).

(** Lines 170-206: the phases, in order, each under its switch. *)
Definition transfers (settings : Settings) : list Event :=
  (if transfer_description settings then [Transfer Description] else [])
  ++ (if transfer_milestones settings then [Transfer Milestones] else [])
  ++ (if transfer_labels settings then [Transfer Labels] else [])
  ++ (if transfer_releases settings then [Transfer Releases] else [])
  ++ (if transfer_issues settings then [Transfer Issues] else [])
  ++ (if transfer_mergeRequests settings then
        if mergeRequests_log settings then [WriteLogFile]
        else [Transfer MergeRequests]
      else [])
  ++ (if transfer_attachments settings then [Transfer Attachments] else []).

(** [registration] is the outcome of [registerProjectPath] followed by
    [registerRepoId], two reads. *)
Definition migrate (settings : Settings) (c : RepoConverter)
    (registration : result unit) : list Event :=
  match registration with
  | Throw err => [ConsoleError err; ProcessExit 1]
  | Ok _ =>
      match buildMaps settings c with
      | Throw err =>
          [ConsoleError ("Error building maps for repository data: Error: "
                         +:+ err);
           ProcessExit 1]
      | Ok _ => transfers settings
      end
  end.

(** ** Regular expressions

    A regular expression is embedded as the function that tries a match at
    one position: it receives the code unit before the position (for the
    lookbehind; none at offset 0) and the text from the position on, and
    returns the matched text and the capture groups, an unset group being
    [None].  Every expression of [convertBody] matches at least one code
    unit. *)
Record RegExpMatch := mkMatch {
  matched : string;
  groups : list (option string);
}.

Definition RegExp := option ascii → string → option RegExpMatch.

(** [str.replace(re, replacer)] for a global [re] and a function
    [replacer], which is given the match and its offset: the text is
    scanned from left to right, a match is replaced by what [replacer]
    returns and the scan goes on behind it.  [replace_from] is the scan
    from the state where [skip] code units of the last match are still to
    be passed; [prev] is the code unit before the position, in the text
    as it was given. *)
Fixpoint replace_from (re : RegExp) (replacer : RegExpMatch → nat → string)
    (prev : option ascii) (skip : nat) (offset : nat) (str : string)
  : string :=
  match str with
  | EmptyString => EmptyString
  | String c str' =>
      match skip with
      | S skip' =>
          replace_from re replacer (Some c) skip' (S offset) str'
      | O =>
          match re prev str with
          | Some m =>
              replacer m offset
              +:+ replace_from re replacer (Some c)
                    (Nat.pred (String.length (matched m))) (S offset) str'
          | None =>
              String c (replace_from re replacer (Some c) 0 (S offset) str')
          end
      end
  end.

Definition replace (re : RegExp) (replacer : RegExpMatch → nat → string)
    (str : string) : string :=
  replace_from re replacer None 0 0 str.

(** [str.matchAll(re)]: the matches with their [index]. *)
Fixpoint matchAll_from (re : RegExp) (prev : option ascii) (skip : nat)
    (offset : nat) (str : string) : list (nat * RegExpMatch) :=
  match str with
  | EmptyString => []
  | String c str' =>
      match skip with
      | S skip' => matchAll_from re (Some c) skip' (S offset) str'
      | O =>
          match re prev str with
          | Some m =>
              (offset, m)
              :: matchAll_from re (Some c)
                   (Nat.pred (String.length (matched m))) (S offset) str'
          | None => matchAll_from re (Some c) 0 (S offset) str'
          end
      end
  end.

Definition matchAll (re : RegExp) (str : string) : list (nat * RegExpMatch) :=
  matchAll_from re None 0 0 str.

(** The longest prefix of code units satisfying [p], and what follows. *)
Fixpoint span (p : ascii → bool) (s : string) : string * string :=
  match s with
  | EmptyString => (EmptyString, EmptyString)
  | String c s' =>
      if p c then let '(a, b) := span p s' in (String c a, b)
      else (EmptyString, s)
  end.

(** [s] without its prefix [pre], when it has that prefix. *)
Fixpoint strip_prefix (pre s : string) : option string :=
  match pre, s with
  | EmptyString, _ => Some s
  | String a pre', String b s' =>
      if bool_decide (a = b) then strip_prefix pre' s' else None
  | String _ _, EmptyString => None
  end.

(** [\d+]: all the digits there are, and the rest.  In the patterns below
    [\d+] comes last, so it never has to give a digit back. *)
Definition digits1 (s : string) : option (string * string) :=
  let '(ds, rest) := span Js.is_digit s in
  if bool_decide (ds = "") then None else Some (ds, rest).

(** [.*?] up to the closing quote of ["(.*?)"]: the text before the first
    double quote, when no line terminator comes before it ([.] matches
    none, and a lazy [.*?] stops at the first quote it can). *)
Fixpoint until_quote (s : string) : option string :=
  match s with
  | EmptyString => None
  | String c s' =>
      if bool_decide (c = Js.DQUOTE) then Some EmptyString
      else if Js.is_line_terminator c then None
      else String c <$> until_quote s'
  end.

(** [".*?"]: the text between the quotes. *)
Definition quoted (s : string) : option string :=
  match s with
  | String c s' => if bool_decide (c = Js.DQUOTE) then until_quote s' else None
  | EmptyString => None
  end.

Definition quote (s : string) : string :=
  String Js.DQUOTE (s +:+ String Js.DQUOTE "").

(** What follows the sigil in a reference: a number, or a quoted title.
    The result is the text consumed and the text captured by [inner]
    parentheses, as in ["(.*?)"], or by outer ones, as in [(".*?")]. *)
Inductive RefTail := Digits | QuotedInner | QuotedOuter.

Definition ref_tail (t : RefTail) (s : string) : option (string * string) :=
  match t with
  | Digits => (fun '(ds, _) => (ds, ds)) <$> digits1 s
  | QuotedInner => (fun x => (quote x, x)) <$> quoted s
  | QuotedOuter => (fun x => (quote x, quote x)) <$> quoted s
  end.

(** [(?<=\W)S(\d+)] and [(?<=\W)S"(.*?)"] for a sigil [S]. *)
Definition localRef (sigil : ascii) (t : RefTail) : RegExp :=
  fun prev s =>
    match prev with
    | Some p =>
        if Js.is_word p then None
        else match s with
             | String c s' =>
                 if bool_decide (c = sigil) then
                   (fun '(consumed, captured) =>
                      {| matched := String sigil consumed;
                         groups := [Some captured] |}) <$> ref_tail t s'
                 else None
             | EmptyString => None
             end
    | None => None
    end.

(** One alternative [(key)S(tail)] of a scoped reference, tried at the
    start of [s].  The key is taken literally, which is what it means as
    a pattern when it holds none of [\ ^ $ . | ? * + ( ) [ ] { }]. *)
Definition scoped_alternative (sigil : ascii) (t : RefTail) (key s : string)
  : option (string * string) :=
  match strip_prefix key s with
  | Some (String c s') =>
      if bool_decide (c = sigil) then
        (fun '(consumed, captured) =>
           (key +:+ String sigil consumed, captured)) <$> ref_tail t s'
      else None
  | _ => None
  end.

(** ['(' + keys.join(')S(tail)|(') + ')S(tail)']: the alternatives are
    tried in order; alternative [j] sets groups [2j+1] and [2j+2] and
    leaves the groups of the others unset. *)
Fixpoint scoped_alternatives (sigil : ascii) (t : RefTail)
    (before after : list string) (s : string) : option RegExpMatch :=
  match after with
  | [] => None
  | key :: after' =>
      match scoped_alternative sigil t key s with
      | Some (whole, captured) =>
          Some {| matched := whole;
                  groups := replicate (2 * length before) None
                            ++ [Some key; Some captured]
                            ++ replicate (2 * length after') None |}
      | None => scoped_alternatives sigil t (before ++ [key]) after' s
      end
  end.

Definition scopedRef (sigil : ascii) (t : RefTail) (keys : list string)
  : RegExp :=
  fun _ s => scoped_alternatives sigil t [] keys s.

(** ['@' + keys.join('|@')]: the first key, in order, that follows the
    [@]; the keys are taken literally. *)
Fixpoint mention_alternatives (keys : list string) (s : string)
  : option RegExpMatch :=
  match keys with
  | [] => None
  | key :: keys' =>
      match strip_prefix (String "@" key) s with
      | Some _ => Some {| matched := String "@" key; groups := [] |}
      | None => mention_alternatives keys' s
      end
  end.

Definition mentionRegExp (keys : list string) : RegExp :=
  fun _ s => mention_alternatives keys s.

(** [/(!?)\[([^\]]+)\]\((\/uploads[^)]+)\)/g].  Each of the two classes
    is followed by the one code unit it excludes, so the longest run is the
    only one that can match; and when the text after a leading [!] does
    not match, the attempt without the [!] starts at the [!] itself and
    fails on [\[]. *)
Definition attachmentRegExp : RegExp :=
  fun _ s =>
    let '(prefix, s1) :=
      match s with
      | String "!" r => ("!", r)
      | _ => ("", s)
      end in
    match s1 with
    | String "[" r =>
        let '(name, r1) :=
          span (fun c => negb (bool_decide (c = "]"%char))) r in
        if bool_decide (name = "") then None
        else match strip_prefix "](/uploads" r1 with
             | Some r2 =>
                 let '(path, r3) :=
                   span (fun c => negb (bool_decide (c = ")"%char))) r2 in
                 if bool_decide (path = "") then None
                 else match r3 with
                      | String ")" _ =>
                          Some {| matched := prefix +:+ "[" +:+ name
                                             +:+ "](/uploads" +:+ path +:+ ")";
                                  groups := [Some prefix; Some name;
                                             Some ("/uploads" +:+ path)] |}
                      | _ => None
                      end
             | None => None
             end
    | _ => None
    end.

(** ** [RepoConverter]: rewriting a body *)

(** [o[k]] on a settings object, [undefined] being [None]. *)
Definition prop (o : list (string * string)) (k : string) : option string :=
  snd <$> List.find (fun kv => String.eqb (fst kv) k) o.

(** A value inside a template literal or a string concatenation. *)
Definition show (v : option string) : string := default "undefined" v.

(** Capture group [i + 1] of a match. *)
Definition group (m : RegExpMatch) (i : nat) : option string :=
  mjoin (groups m !! i).

(** [convertAttachments]: first [matchAll] fills [attachmentMap] and the
    table from offsets to replacement links, then [replace] reads the table
    at the offset of each match. *)
Definition convertAttachments_collect (sh : StorageHelper)
    (st : gmap string AttachmentMetadata * gmap nat string)
    (om : nat * RegExpMatch)
  : gmap string AttachmentMetadata * gmap nat string :=
  let '(attachmentMap, offsetToAttachment) := st in
  let '(index, m) := om in
  let prefix := default "" (group m 0) in
  let name := show (group m 1) in
  let url := show (group m 2) in
  let data := preprocessAttachment sh url in
  (<[origin data := data]> attachmentMap,
   <[index := prefix +:+ "[" +:+ name +:+ "](" +:+ destination data +:+ ")"]>
     offsetToAttachment).

Definition convertAttachments (c : RepoConverter) (body : string)
  : string * RepoConverter :=
  let matches := matchAll attachmentRegExp body in
  let '(attachmentMap', offsetToAttachment) :=
    foldl (convertAttachments_collect (storageHelper c))
          (attachmentMap c, ∅) matches in
  (replace attachmentRegExp
           (fun _ offset => show (offsetToAttachment !! offset)) body,
   {| githubHelper := githubHelper c; gitlabHelper := gitlabHelper c;
      storageHelper := storageHelper c; milestoneMap := milestoneMap c;
      issueMap := issueMap c; mrMap := mrMap c;
      attachmentMap := attachmentMap' |}).

Section Converter.
(** The global [settings]; [md5_hex] is
    [crypto.createHash('md5').update(path).digest('hex')] and
    [toLocaleString] is [new Date(created_at).toLocaleString('en-US',
    dateformatOptions)] in the time zone of the process. *)
Variable settings : Settings.
Variable md5_hex : string → string.
Variable toLocaleString : string → string.

Definition LFLF : string := String Js.LF (String Js.LF "").

Definition truthy_line (l : option Z) : bool :=
  match l with
  | Some z => negb (z =? 0)
  | None => false
  end.

Definition truthy (s : string) : bool := negb (bool_decide (s = "")).

(** A line number inside a template literal; [line] starts as [''] and is
    a number wherever it is printed. *)
Definition show_line (l : option Z) : string :=
  from_option Js.Z_toString "" l.

(** [RepoConverter.createLineRef] *)
Definition createLineRef (position : GitLabPosition) (repoLink : string)
  : string :=
  if negb (truthy repoLink)
     || negb (String.prefix (github_baseUrl settings) repoLink)
     || negb (truthy (head_sha position))
  then ""
  else
    let new_side := truthy_line (new_line position)
                    && truthy (new_path position) in
    let old_side := truthy_line (old_line position)
                    && truthy (old_path position) in
    let '(path, line, slug) :=
      if new_side || old_side then
        let '(side, path, line) :=
          if negb (truthy_line (old_line position))
             || negb (truthy (old_path position))
          then ("R", new_path position, new_line position)
          else ("L", old_path position, old_line position) in
        let hash := md5_hex path in
        (path, line, "#diff-" +:+ hash +:+ side +:+ show_line line)
      else ("", None, "") in
    let ref := if truthy path && truthy_line line
               then path +:+ " line " +:+ show_line line
               else head_sha position in
    "Commented on [" +:+ ref +:+ "](" +:+ repoLink +:+ "/compare/"
    +:+ base_sha position +:+ ".." +:+ head_sha position +:+ slug +:+ ")"
    +:+ LFLF.

(** [RepoConverter.addMigrationLine] *)
Definition addMigrationLine (str : string) (item : GitLabItem)
    (repoLink : string) : string :=
  if negb (truthy (author_username item)) || negb (truthy (created_at item))
  then str
  else
    let formattedDate := toLocaleString (created_at item) in
    let attribution := "In GitLab by @" +:+ author_username item +:+ " on "
                       +:+ formattedDate in
    let lineRef := match position item with
                   | Some p => createLineRef p repoLink
                   | None => ""
                   end in
    let summary := attribution
                   +:+ (if truthy lineRef then LFLF +:+ lineRef else "") in
    summary +:+ LFLF +:+ str.

Definition keys (o : list (string * string)) : list string := o.*1.

Definition hasUsermap : bool :=
  negb (bool_decide (keys (usermap settings) = [])).
Definition hasProjectmap : bool :=
  negb (bool_decide (keys (projectmap settings) = [])).

(** The replacer of user mentions:
    [match => '@' + settings.usermap[match.substring(1)]]. *)
Definition mentionReplacer (m : RegExpMatch) : string :=
  "@" +:+ show (prop (usermap settings)
                     (String.substring 1 (String.length (matched m))
                                       (matched m))).

Definition issueReplacer (c : RepoConverter) (match_ : string) : string :=
  match issueMap c with
  | Some issueMap =>
      match issueMap !! Js.parseInt match_ with
      | Some issue => "#" +:+ Js.toString issue
      | None => "#" +:+ match_
      end
  | None => "#" +:+ match_
  end.

(** The replacer of scoped issue and merge request references:
    [(_, p1, p2) => settings.projectmap[p1] + '#' + p2]. *)
Definition scopedReplacer (m : RegExpMatch) : string :=
  show (prop (projectmap settings) (show (group m 0)))
  +:+ "#" +:+ show (group m 1).

Definition milestoneReplacer (c : RepoConverter) (number_ title_ repo : string)
  : string :=
  let milestone :=
    match milestoneMap c with
    | Some milestoneMap =>
        if truthy number_ then JsMap.get (Js.parseInt number_) milestoneMap
        else if truthy title_ then
          List.find (fun m => String.eqb (title m) title_)
                    (JsMap.values milestoneMap)
        else None
    | None => None
    end in
  match milestone with
  | Some milestone =>
      let repoLink := githubUrl (githubHelper c) +:+ "/"
                      +:+ githubOwner (githubHelper c) +:+ "/"
                      +:+ (if truthy repo then repo
                           else githubRepo (githubHelper c)) in
      "[" +:+ title milestone +:+ "](" +:+ repoLink
      +:+ "/milestone/" +:+ Js.Z_toString (iid milestone) +:+ ")"
  | None =>
      "'Reference to deleted milestone %"
      +:+ (if truthy number_ then number_ else title_) +:+ "'"
  end.

Definition repoMapLink (c : RepoConverter) (repo : option string) : string :=
  githubUrl (githubHelper c) +:+ "/" +:+ githubOwner (githubHelper c)
  +:+ "/" +:+ show (prop (projectmap settings) (show repo)).

(** The replacer of [project%"Milestone"]; the closing brace after
    [milestones] is in the source. *)
Definition scopedMilestoneTitleReplacer (c : RepoConverter) (m : RegExpMatch)
  : string :=
  "[Milestone " +:+ quote (show (group m 1)) +:+ " in "
  +:+ show (prop (projectmap settings) (show (group m 0)))
  +:+ "](" +:+ repoMapLink c (group m 0) +:+ "/milestones})".

(** The replacer of [project%nn]. *)
Definition scopedMilestoneNumberReplacer (c : RepoConverter) (m : RegExpMatch)
  : string :=
  "[Milestone " +:+ show (group m 1) +:+ " in "
  +:+ show (prop (projectmap settings) (show (group m 0)))
  +:+ "](" +:+ repoMapLink c (group m 0) +:+ "/milestone/"
  +:+ show (group m 1) +:+ ")".

Definition mrReplacer (c : RepoConverter) (match_ : string) : string :=
  match mrMap c with
  | Some mrMap =>
      match mrMap !! Js.parseInt match_ with
      | Some pr => "#" +:+ Js.toString pr
      | None => "!" +:+ match_
      end
  | None => "!" +:+ match_
  end.

(** The passes of [convertBody], in source order. *)
Definition convertMentions (str : string) : string :=
  if hasUsermap
  then replace (mentionRegExp (keys (usermap settings)))
               (fun m _ => mentionReplacer m) str
  else str.

Definition convertScopedIssues (str : string) : string :=
  if hasProjectmap
  then replace (scopedRef "#" Digits (keys (projectmap settings)))
               (fun m _ => scopedReplacer m) str
  else str.

Definition convertIssues (c : RepoConverter) (str : string) : string :=
  replace (localRef "#" Digits)
          (fun m _ => issueReplacer c (show (group m 0))) str.

Definition convertScopedMilestones (c : RepoConverter) (str : string)
  : string :=
  if hasProjectmap then
    let str := replace (scopedRef "%" QuotedOuter (keys (projectmap settings)))
                       (fun m _ => scopedMilestoneTitleReplacer c m) str in
    replace (scopedRef "%" Digits (keys (projectmap settings)))
            (fun m _ => scopedMilestoneNumberReplacer c m) str
  else str.

Definition convertMilestoneTitles (c : RepoConverter) (str : string)
  : string :=
  replace (localRef "%" QuotedInner)
          (fun m _ => milestoneReplacer c "" (show (group m 0)) "") str.

Definition convertMilestoneNumbers (c : RepoConverter) (str : string)
  : string :=
  replace (localRef "%" Digits)
          (fun m _ => milestoneReplacer c (show (group m 0)) "" "") str.

Definition convertScopedMergeRequests (str : string) : string :=
  if hasProjectmap
  then replace (scopedRef "!" Digits (keys (projectmap settings)))
               (fun m _ => scopedReplacer m) str
  else str.

Definition convertMergeRequests (c : RepoConverter) (str : string) : string :=
  replace (localRef "!" Digits)
          (fun m _ => mrReplacer c (show (group m 0))) str.

(** The references of [convertBody] (lines 400-568), before attachments. *)
Definition convertReferences (c : RepoConverter) (str : string) : string :=
  let str := convertMentions str in
  let str := convertScopedIssues str in
  let str := convertIssues c str in
  let str := convertScopedMilestones c str in
  let str := convertMilestoneTitles c str in
  let str := convertMilestoneNumbers c str in
  let str := convertScopedMergeRequests str in
  convertMergeRequests c str.

(** [convertBody(str, item, add_line)]: the text, and the converter with
    the attachments the text refers to registered. *)
Definition convertBody (c : RepoConverter) (str : string) (item : GitLabItem)
    (add_line : bool) : string * RepoConverter :=
  let repoLink := githubUrl (githubHelper c) +:+ "/"
                  +:+ githubOwner (githubHelper c) +:+ "/"
                  +:+ githubRepo (githubHelper c) in
  let str := if add_line then addMigrationLine str item repoLink else str in
  let str := convertReferences c str in
  if transfer_attachments settings then convertAttachments c str
  else (str, c).

End Converter.

(** ** Sample data, for the concrete instances below *)

Definition sample_item (iid : Z) (title : string) : GitLabItem :=
  {| item_iid := iid; item_title := title; item_description := "";
     author_username := ""; created_at := ""; position := None |}.

Definition sample_github : GitHubHelper :=
  {| githubUrl := "https://github.com"; githubOwner := "owner";
     githubRepo := "repo"; allGithubMilestones := [];
     allGithubIssues := [{| number := 1; issue_title := "first issue" |}];
     allGithubPullRequests := [] |}.

(** Merge requests 1 and 3; merge request 2 was deleted. *)
Definition sample_gitlab : GitLabHelper :=
  {| host := "https://gitlab.com"; projectPath := "group/project";
     allMilestones := []; allIssues := [];
     allMergeRequests := [sample_item 1 "first"; sample_item 3 "third"] |}.

Definition sample_settings : Settings :=
  {| usermap := [("alice", "alice-gh")];
     projectmap := [("otherorg/repo", "dest/repo");
                    ("thirdorg/repo", "dest3/repo")];
     github_baseUrl := "https://github.com";
     transfer_description := true; transfer_milestones := true;
     transfer_labels := true; transfer_releases := true;
     transfer_issues := true; transfer_mergeRequests := true;
     transfer_attachments := true; mergeRequests_log := false;
     usePlaceholderMilestonesForMissingMilestones := true;
     usePlaceholderIssuesForMissingIssues := true;
     usePlaceholderIssuesForMissingMergeRequests := true |}.

(** The converter as constructed, and with maps in place. *)
Definition fresh_converter : RepoConverter :=
  new_RepoConverter sample_gitlab sample_github
                    (PassThroughStorageHelper sample_gitlab).

Definition with_maps (milestones : JsMap.t SimpleItem)
    (issues mrs : gmap Z Js.number) : RepoConverter :=
  {| githubHelper := sample_github; gitlabHelper := sample_gitlab;
     storageHelper := PassThroughStorageHelper sample_gitlab;
     milestoneMap := Some milestones; issueMap := Some issues;
     mrMap := Some mrs; attachmentMap := ∅ |}.

(** A converter whose issue map holds the one destination issue. *)
Definition sample_converter : RepoConverter :=
  with_maps [] {[1 := Js.Num 1]} ∅.

(** Milestones 1 and 3 with distinct titles; two milestones of one title;
    a destination that already holds the second title. *)
Definition distinct_milestones : list GitLabItem :=
  [sample_item 1 "v1.0"; sample_item 3 "v2.0"].

Definition same_title_milestones : list GitLabItem :=
  [sample_item 1 "v1.0"; sample_item 2 "v1.0"].

Definition destination_milestones : list SimpleItem :=
  [{| iid := 5; title := "v2.0"; description := Some "second";
      state := Some open |}].

(** ** Notions used in the statements *)

(** The last element of a list of numbers, or [i] for the empty list. *)
Definition last_from (i : Z) (ks : list Z) : Z := default i (last ks).

(** The source milestones without a match at the destination. *)
Definition unmatched (githubMilestones : list SimpleItem)
    (gitlabMilestones : list GitLabItem) : list GitLabItem :=
  filter (fun s => foundMilestone githubMilestones s = None) gitlabMilestones.

(** A milestone map up to the identity of the destination milestones: the
    keys in order, each with the number and the title it is sent to. *)
Definition idents (m : JsMap.t SimpleItem) : list (Z * (Z * string)) :=
  (fun kv => (fst kv, ident (snd kv))) <$> m.

(** The destination listing after the milestones of a first map have been
    created under the numbers the map gives them: the earlier listing
    followed by the entries of the source milestones that had no match. *)
Definition destination_after (githubMilestones : list SimpleItem)
    (gitlabMilestones : list GitLabItem) (usePlaceholders : bool)
  : list SimpleItem :=
  githubMilestones
  ++ omap (fun s => JsMap.get (item_iid s)
                      (buildMilestoneMap_on githubMilestones gitlabMilestones
                                            usePlaceholders))
          (unmatched githubMilestones gitlabMilestones).

(** Does the code unit [c] occur in [s]? *)
Fixpoint has_char (c : ascii) (s : string) : bool :=
  match s with
  | EmptyString => false
  | String c' s' => bool_decide (c' = c) || has_char c s'
  end.

Fixpoint all_chars (p : ascii → bool) (s : string) : bool :=
  match s with
  | EmptyString => true
  | String c s' => p c && all_chars p s'
  end.

(** Does [s] begin with a code unit satisfying [p]? *)
Definition starts_with (p : ascii → bool) (s : string) : bool :=
  match s with
  | EmptyString => false
  | String c _ => p c
  end.

(** The code unit before the position reached after [a], when the one
    before [a] is [prev]. *)
Fixpoint prev_after (prev : option ascii) (a : string) : option ascii :=
  match a with
  | EmptyString => prev
  | String c a' => prev_after (Some c) a'
  end.

(** The expression [re] does not look past [a] into [b]: tried at the start
    of [a], it matches within [a] or not at all, whatever [b] is appended. *)
Definition local_at (re : RegExp) (prev : option ascii) (a b : string)
  : Prop :=
  match re prev (a +:+ b) with
  | Some m =>
      re prev a = Some m
      ∧ (String.length (matched m) ≤ String.length a)%nat
  | None => re prev a = None
  end.

(** [local_at] at every position of [a]. *)
Fixpoint local_all (re : RegExp) (prev : option ascii) (a b : string)
  : Prop :=
  match a with
  | EmptyString => True
  | String c a' => local_at re prev a b ∧ local_all re (Some c) a' b
  end.

(** Every match of [re] contains the code unit [c]. *)
Definition needs (c : ascii) (re : RegExp) : Prop :=
  ∀ prev s m, re prev s = Some m → has_char c s = true.

(** A pass resumed in the middle of a text: after the code unit [prev],
    with no match under way. *)
Definition resume (re : RegExp) (replacer : RegExpMatch → string)
    (prev : option ascii) (s : string) : string :=
  replace_from re (fun m _ => replacer m) prev 0 0 s.

(** The code units that begin or scope a reference, a mention or an
    attachment link. *)
Definition is_special (c : ascii) : bool :=
  bool_decide (c = "@"%char) || bool_decide (c = "#"%char)
  || bool_decide (c = "%"%char) || bool_decide (c = "!"%char)
  || bool_decide (c = "["%char) || bool_decide (c = "/"%char).

(** A text without any of them. *)
Definition plain (s : string) : bool :=
  all_chars (fun c => negb (is_special c)) s.

(** A code unit with a meaning of its own in a regular expression. *)
Definition is_regex_meta (c : ascii) : bool :=
  bool_decide (c ∈ [ "\"; "^"; "$"; "."; "|"; "?"; "*"; "+"; "("; ")"; "[";
                     "]"; "{"; "}" ]%char).

(** The keys of [usermap] and [projectmap] are pasted into the expressions;
    the embedding takes them literally, which is what they mean when they
    hold no such code unit. *)
Definition literal_keys (settings : Settings) : Prop :=
  Forall (fun key => all_chars (fun c => negb (is_regex_meta c)) key = true)
         (keys (usermap settings) ++ keys (projectmap settings)).

(** The keys of the project map have the form [group/project]. *)
Definition project_paths (settings : Settings) : Prop :=
  Forall (fun key => has_char "/" key = true) (keys (projectmap settings)).

(** Does [convertBody] prepend the attribution line? *)
Definition attribution_added (add_line : bool) (item : GitLabItem) : bool :=
  add_line && truthy (author_username item) && truthy (created_at item).

(** Two converters that differ at most in their attachment registry. *)
Definition same_configuration (c c' : RepoConverter) : Prop :=
  githubHelper c = githubHelper c'
  ∧ gitlabHelper c = gitlabHelper c'
  ∧ storageHelper c = storageHelper c'
  ∧ milestoneMap c = milestoneMap c'
  ∧ issueMap c = issueMap c'
  ∧ mrMap c = mrMap c'.

(** The link that replaces an attachment link: the prefix and the name are
    kept, the target is the destination the storage helper computes for the
    matched URL. *)
Definition attachment_link (sh : StorageHelper) (m : RegExpMatch) : string :=
  default "" (group m 0) +:+ "[" +:+ show (group m 1) +:+ "]("
  +:+ destination (preprocessAttachment sh (show (group m 2))) +:+ ")".

(** The attachment URLs a body refers to, in order of occurrence. *)
Definition attachment_urls (body : string) : list string :=
  (fun om => show (group (snd om) 2)) <$> matchAll attachmentRegExp body.

(** [convertAttachments] on one body after the other, within one run. *)
Fixpoint convertAttachments_all (c : RepoConverter) (bodies : list string)
  : list string * RepoConverter :=
  match bodies with
  | [] => ([], c)
  | body :: bodies' =>
      let '(text, c1) := convertAttachments c body in
      let '(texts, c2) := convertAttachments_all c1 bodies' in
      (text :: texts, c2)
  end.

(** ** More sample data *)

(** A project whose issue 2 and merge request 2 were deleted, the listings
    not in [iid] order; milestones 2 and 4. *)
Definition sample_gitlab_gaps : GitLabHelper :=
  {| host := "https://gitlab.com"; projectPath := "group/project";
     allMilestones := [sample_item 2 "v1.0"; sample_item 4 "v2.0"];
     allIssues := [sample_item 3 "third"; sample_item 1 "first"];
     allMergeRequests := [sample_item 3 "third"; sample_item 1 "first"] |}.

(** The converter on that project, its issue map holding issues 1 to 3. *)
Definition sample_converter_gaps : RepoConverter :=
  {| githubHelper := sample_github; gitlabHelper := sample_gitlab_gaps;
     storageHelper := PassThroughStorageHelper sample_gitlab_gaps;
     milestoneMap := None;
     issueMap := Some {[1 := Js.Num 1; 2 := Js.Num 2; 3 := Js.Num 3]};
     mrMap := None; attachmentMap := ∅ |}.

(** ** More of [String.prototype] and of regular expressions *)

Module JsString.

(** [toLowerCase] on a code unit below 256: [A-Z] and the capital letters
    of Latin-1 ([À] to [Þ] without [×]) move up by 32. *)
Definition toLowerCase_unit (c : ascii) : ascii :=
  let n := nat_of_ascii c in
  if (((65 <=? n) && (n <=? 90))
      || ((192 <=? n) && (n <=? 222) && negb (n =? 215)))%nat
  then ascii_of_nat (n + 32) else c.

Fixpoint toLowerCase (s : string) : string :=
  match s with
  | EmptyString => EmptyString
  | String c s' => String (toLowerCase_unit c) (toLowerCase s')
  end.

(** White space and line terminators below 256, as [trim] removes them. *)
Definition is_space (c : ascii) : bool :=
  let n := nat_of_ascii c in
  (((9 <=? n) && (n <=? 13)) || (n =? 32) || (n =? 160))%nat.

Fixpoint trimStart (s : string) : string :=
  match s with
  | EmptyString => EmptyString
  | String c s' => if is_space c then trimStart s' else s
  end.

Fixpoint trimEnd (s : string) : string :=
  match s with
  | EmptyString => EmptyString
  | String c s' =>
      match trimEnd s' with
      | EmptyString => if is_space c then EmptyString
                       else String c EmptyString
      | r => String c r
      end
  end.

Definition trim (s : string) : string := trimEnd (trimStart s).

(** [s.indexOf(sub) > -1] *)
Fixpoint includes (sub s : string) : bool :=
  String.prefix sub s
  || match s with
     | EmptyString => false
     | String _ s' => includes sub s'
     end.

End JsString.

(** Expressions with the flag [i] (and without [u]) whose literals are
    ASCII: a code unit of the text equals one of the pattern when both are
    the same after [a-z] has been raised to [A-Z]; a code unit above 127
    never equals an ASCII one. *)
Module RegExpI.

Definition canonicalize (c : ascii) : ascii :=
  let n := nat_of_ascii c in
  if ((97 <=? n) && (n <=? 122))%nat then ascii_of_nat (n - 32) else c.

(** The literal [lit] at the start of [s]: what follows it. *)
Fixpoint literal (lit s : string) : option string :=
  match lit, s with
  | EmptyString, _ => Some s
  | String a lit', String b s' =>
      if bool_decide (canonicalize a = canonicalize b) then literal lit' s'
      else None
  | String _ _, EmptyString => None
  end.

(** [lit] followed by the expression [k]. *)
Definition then_ (lit : string) (k : string → bool) (s : string) : bool :=
  match literal lit s with
  | Some r => k r
  | None => false
  end.

(** The end of an expression: nothing more to match. *)
Definition done_ (s : string) : bool := true.

(** [.*] followed by [k]: [k] at the start, or behind any run of code
    units that are no line terminators. *)
Fixpoint dot_star (k : string → bool) (s : string) : bool :=
  k s
  || match s with
     | EmptyString => false
     | String c s' => negb (Js.is_line_terminator c) && dot_star k s'
     end.

(** [\d+] followed by anything. *)
Definition digits_ (s : string) : bool :=
  match s with
  | EmptyString => false
  | String c _ => Js.is_digit c
  end.

(** [test] of an expression that does not begin with [^]: a match
    somewhere in [s]. *)
Fixpoint search (k : string → bool) (s : string) : bool :=
  k s
  || match s with
     | EmptyString => false
     | String _ s' => search k s'
     end.

(** [(Re)*] followed by [k]. *)
Fixpoint re_star (k : string → bool) (s : string) : bool :=
  k s
  || match s with
     | String a (String b s') =>
         bool_decide (canonicalize a = "R"%char)
         && bool_decide (canonicalize b = "E"%char)
         && re_star k s'
     | _ => false
     end.

End RegExpI.

(** ** Issues, labels and notes (class [RepoConverter]) *)

(** More of the global [settings].  [github_username] is
    [settings.github.username], absent from the sample settings; [s3]
    tells whether [settings.s3] is set; an entry of [skipMatchingComments]
    is given by what [new RegExp(b, 'i').test] computes for it. *)
Record ConversionSettings := mkConversionSettings {
  github_username : option string;
  github_token_owner : string;
  useLowerCaseLabels : bool;
  s3 : bool;
  skipMatchingComments : list (string → bool);
}.

(** [GitLabIssue | GitLabMergeRequest]: the item and the further fields the
    conversions read.  An assignee is given by its [username], the
    milestone by its [title]; absent fields are [None]. *)
Record GitLabIssue := mkIssue {
  issue_item : GitLabItem;
  issue_state : string;
  issue_labels : option (list string);
  issue_assignees : option (list string);
  issue_milestone : option string;
  issue_updated_at : string;
}.

(** [GitLabNote]: [note_item] holds the author, the date and the position. *)
Record GitLabNote := mkNote {
  note_id : Z;
  note_body : string;
  note_item : GitLabItem;
}.

(** [GitLabLabel] and [GitHubLabelData] have the same three fields. *)
Record LabelData := mkLabel {
  label_name : string;
  label_color : string;
  label_description : string;
}.

(** githubHelper.ts, [GitHubIssueData] and [GitHubCommentData]. *)
Record GitHubIssueData := mkIssueData {
  data_title : string;
  data_body : string;
  data_assignees : list string;
  data_assignee : option string;
  data_milestone : option Z;
  data_labels : list string;
  data_created_at : string;
  data_updated_at : string;
  data_state : ItemState;
}.

Record GitHubCommentData := mkComment {
  comment_issue_number : option Z;
  comment_created_at : string;
  comment_body : string;
}.

(** [item.author]: absent when the item has no user name. *)
Definition item_author (item : GitLabItem) : option string :=
  if bool_decide (author_username item = "") then None
  else Some (author_username item).

(** [Array.prototype.sort((a, b) => a.id - b.id)], a stable sort. *)
Fixpoint insert_by_id (x : GitLabNote) (l : list GitLabNote)
  : list GitLabNote :=
  match l with
  | [] => [x]
  | y :: l' =>
      if note_id x <? note_id y then x :: y :: l'
      else y :: insert_by_id x l'
  end.

Definition sort_by_id (l : list GitLabNote) : list GitLabNote :=
  foldl (fun acc x => insert_by_id x acc) [] l.

(** [mapMilestone] *)
Definition mapMilestone (c : RepoConverter) (item : GitLabIssue)
  : result (option Z) :=
  match milestoneMap c with
  | None => Throw "milestoneMap not initialised"
  | Some milestoneMap =>
      match issue_milestone item with
      | None => Ok None
      | Some title_ =>
          Ok (iid <$> List.find (fun m => String.eqb (title m) title_)
                                (JsMap.values milestoneMap))
      end
  end.

(** [mergeRequestIsDraft]:
    [^(draft:|wip:|\((draft|wip)\))|\[(draft|wip)\]] with the flag [i]. *)
Definition mergeRequestIsDraft (title_ : string) : bool :=
  RegExpI.then_ "draft:" RegExpI.done_ title_
  || RegExpI.then_ "wip:" RegExpI.done_ title_
  || RegExpI.then_ "(draft)" RegExpI.done_ title_
  || RegExpI.then_ "(wip)" RegExpI.done_ title_
  || RegExpI.search (RegExpI.then_ "[draft]" RegExpI.done_) title_
  || RegExpI.search (RegExpI.then_ "[wip]" RegExpI.done_) title_.

(** The property names of [Object.prototype]: what [object[name]] finds
    on every plain object, whether or not the object has an entry of that
    name. *)
Definition Object_prototype_names : list string :=
  [ "constructor"; "__defineGetter__"; "__defineSetter__"; "hasOwnProperty";
    "__lookupGetter__"; "__lookupSetter__"; "isPrototypeOf";
    "propertyIsEnumerable"; "toString"; "valueOf"; "__proto__";
    "toLocaleString" ].

Definition inherited_name (name : string) : bool :=
  bool_decide (name ∈ Object_prototype_names).

Section Conversion.
Variable settings : Settings.
Variable conversion : ConversionSettings.
Variable md5_hex : string → string.
Variable toLocaleString : string → string.

(** One turn of the loop of [convertAssignees]: what is pushed.  The
    entry [settings.usermap[username]] is read among the entries of the
    map itself, which is what the code reads for a user name that
    [Object.prototype] has no property for ([inherited_name]); for the
    name of such a property, as ["constructor"], the code finds the
    inherited function or object instead. *)
Definition convertAssignee (username : string) : option string :=
  if bool_decide (Some username = github_username conversion)
  then github_username conversion
  else match prop (usermap settings) username with
       | Some mapped => if truthy mapped then Some mapped else None
       | None => None
       end.

(** [convertAssignees] *)
Definition convertAssignees (item : GitLabIssue) : list string :=
  match issue_assignees item with
  | None => []
  | Some assignees => omap convertAssignee assignees
  end.

(** [convertLabel] *)
Definition convertLabel (label : LabelData) (useLowerCase : bool)
  : LabelData :=
  {| label_name := if useLowerCase
                   then JsString.toLowerCase (label_name label)
                   else label_name label;
     label_color := match label_color label with
                    | String "#" rest => rest
                    | color => color
                    end;
     label_description := String.substring 0 100 (label_description label) |}.

(** [convertState] *)
Definition convertState (state_ : string) : ItemState :=
  let lower := JsString.toLowerCase state_ in
  if String.eqb lower "open" then open
  else if String.eqb lower "closed" then closed
  else open.

(** [convertLabelNames] *)
Definition convertLabelNames (item : GitLabIssue) : list string :=
  let labels :=
    match issue_labels item with
    | Some labels =>
        let labels :=
          List.filter
            (fun l =>
               if negb (String.eqb (issue_state item) "closed") then true
               else
                 let lower := JsString.toLowerCase l in
                 negb (String.eqb lower "doing")
                 && negb (String.eqb lower "to do"))
            labels in
        if useLowerCaseLabels conversion
        then JsString.toLowerCase <$> labels
        else labels
    | None => []
    end in
  if truthy (item_description (issue_item item))
     && JsString.includes "/uploads/" (item_description (issue_item item))
     && negb (s3 conversion)
  then labels ++ ["has attachment"]
  else labels.

(** [userIsCreator] *)
Definition userIsCreator (author : option string) : bool :=
  match author with
  | None => false
  | Some username =>
      bool_decide (prop (usermap settings) username
                   = Some (github_token_owner conversion))
      || String.eqb username (github_token_owner conversion)
  end.

(** [convertIssue]: the data, and the converter with the attachments of the
    description registered; [mapMilestone] may throw. *)
Definition convertIssue (c : RepoConverter) (issue : GitLabIssue)
  : result (GitHubIssueData * RepoConverter) :=
  let item := issue_item issue in
  let '(bodyConverted, c') :=
    convertBody settings md5_hex toLocaleString c (item_description item)
                item
                (negb (userIsCreator (item_author item))
                 || negb (truthy (item_description item))) in
  let assignees := convertAssignees issue in
  milestone ← mapMilestone c' issue;
  mret ({| data_title := if truthy (item_title item)
                         then JsString.trim (item_title item) else "";
           data_body := bodyConverted;
           data_assignees := assignees;
           data_assignee := match assignees with
                            | [assignee] => Some assignee
                            | _ => None
                            end;
           data_milestone := milestone;
           data_labels := convertLabelNames issue;
           data_created_at := created_at item;
           data_updated_at := issue_updated_at issue;
           data_state := convertState (issue_state issue) |}, c').

(** [checkIfNoteCanBeSkipped].  A trailing [.*] matches the empty text
    and is left out. *)
Definition stateChange (body : string) : bool :=
  (RegExpI.search (RegExpI.then_ "Status changed to " RegExpI.done_) body
   && negb (RegExpI.search
              (RegExpI.then_ "Status changed to closed by commit"
                             RegExpI.done_) body))
  || RegExpI.then_ "changed milestone to " RegExpI.done_ body
  || RegExpI.then_ "Milestone changed to " RegExpI.done_ body
  || RegExpI.re_star (RegExpI.then_ "assigned to " RegExpI.done_) body
  || RegExpI.then_ "added "
       (RegExpI.dot_star (RegExpI.then_ " labels" RegExpI.done_)) body
  || RegExpI.then_ "Added ~"
       (RegExpI.dot_star (RegExpI.then_ " label" RegExpI.done_)) body
  || RegExpI.then_ "removed ~"
       (RegExpI.dot_star (RegExpI.then_ " label" RegExpI.done_)) body
  || RegExpI.then_ "mentioned in issue #" RegExpI.digits_ body
  || RegExpI.then_ "mentioned in merge request !" RegExpI.digits_ body
  || RegExpI.then_ "changed the description" RegExpI.done_ body
  || RegExpI.then_ "changed title from"
       (RegExpI.dot_star (RegExpI.then_ "to" RegExpI.done_)) body.

Definition checkIfNoteCanBeSkipped (note : GitLabNote) : bool :=
  let body := note_body note in
  let matchingComment :=
    foldl (fun a b => a || b body) false (skipMatchingComments conversion) in
  stateChange body || matchingComment.

(** The [map] of [convertNotes], the converter threaded through the calls
    of [convertBody]. *)
Fixpoint convertNotes_map (c : RepoConverter) (notes : list GitLabNote)
    (issue_number : option Z) : list GitHubCommentData * RepoConverter :=
  match notes with
  | [] => ([], c)
  | note :: notes' =>
      let '(body, c1) :=
        convertBody settings md5_hex toLocaleString c (note_body note)
                    (note_item note)
                    (negb (userIsCreator (item_author (note_item note)))
                     || negb (truthy (note_body note))) in
      let '(comments, c2) := convertNotes_map c1 notes' issue_number in
      ({| comment_issue_number := issue_number;
          comment_created_at := created_at (note_item note);
          comment_body := body |} :: comments, c2)
  end.

(** [convertNotes]: [filter] keeps the notes for which
    [checkIfNoteCanBeSkipped] returns [true]. *)
Definition convertNotes (c : RepoConverter) (notes : list GitLabNote)
    (issue_number : option Z) : list GitHubCommentData * RepoConverter :=
  convertNotes_map c
    (List.filter checkIfNoteCanBeSkipped (sort_by_id notes)) issue_number.

End Conversion.

(** ** The milestone map of the driver *)






(** ** The source host and the labels of the driver *)

(** gitlabHelper.ts, the constructor: [host] is [settings.gitlab.url], or
    the default when there is none, without one trailing slash. *)
Definition GitLabHelper_host (url : string) : string :=
  let host := if truthy url then url else "http://gitlab.com" in
  if endsWith_slash host
  then String.substring 0 (String.length host - 1) host
  else host.

(** gitlabHelper.ts, [getAttachment]: the URL that is requested. *)
Definition getAttachment_url (gl : GitLabHelper) (relurl : string) : string :=
  host gl +:+ "/" +:+ projectPath gl +:+ relurl.

(** The two labels [transferLabels] adds to the labels of the project. *)
Definition hasAttachmentLabel : LabelData :=
  {| label_name := "has attachment"; label_color := "#fbca04";
     label_description := "The issue has an attachment" |}.

Definition gitlabMergeRequestLabel : LabelData :=
  {| label_name := "gitlab merge request"; label_color := "#b36b00";
     label_description :=
       "The issue is a placeholder for a merge request that could not be migrated" |}.

(** [transferLabels]: the labels [createLabel] is called with, in order.
    [gitlabLabels] is what [gitlabApi.Labels.all] returns and
    [githubLabels] what [getAllGithubLabelNames] returns; a failing
    [createLabel] is logged and the loop goes on. *)
Definition transferLabels (gitlabLabels : list LabelData)
    (githubLabels : list string) (attachmentLabel useLowerCase : bool)
  : list LabelData :=
  let labels := (fun l => convertLabel l useLowerCase) <$> gitlabLabels in
  let labels := if attachmentLabel then labels ++ [hasAttachmentLabel]
                else labels in
  let labels := labels ++ [gitlabMergeRequestLabel] in
  List.filter
    (fun label =>
       match List.find (fun l => String.eqb l (label_name label))
                       githubLabels with
       | Some found => negb (truthy found)
       | None => true
       end)
    labels.

(** ** utils.ts: [pick] and [omit]

    An object is the map of its own properties; a property that holds
    [undefined] is [Some None], and reading a property that is not there
    gives [undefined] as well.  [omit] deletes from the object it is given
    and returns that object; the function below returns its new state. *)
Section Utils.
Context {V : Type}.




End Utils.

(** ** More sample data: an issue, its notes, the conversion settings *)

Definition sample_conversion : ConversionSettings :=
  {| github_username := None; github_token_owner := "alice-gh";
     useLowerCaseLabels := true; s3 := false; skipMatchingComments := [] |}.

Definition sample_author (username : string) : GitLabItem :=
  {| item_iid := 7; item_title := " Crash on start ";
     item_description := "It crashes.";
     author_username := username; created_at := "2021-01-05T14:03:00Z";
     position := None |}.

(** A closed issue by alice, attached to milestone v1.0. *)
Definition sample_issue : GitLabIssue :=
  {| issue_item := sample_author "alice"; issue_state := "closed";
     issue_labels := Some ["Bug"; "Doing"];
     issue_assignees := Some ["alice"; "bob"];
     issue_milestone := Some "v1.0";
     issue_updated_at := "2021-01-06T09:00:00Z" |}.

(** The converter whose milestone map has been built from the sample
    milestones. *)
Definition sample_converter_milestones : RepoConverter :=
  with_maps (buildMilestoneMap_on destination_milestones distinct_milestones
                                  true)
            ∅ ∅.

(** Settings without a user map. *)
Definition sample_settings_no_usermap : Settings :=
  {| usermap := [];
     projectmap := [("otherorg/repo", "dest/repo")];
     github_baseUrl := "https://github.com";
     transfer_description := true; transfer_milestones := true;
     transfer_labels := true; transfer_releases := true;
     transfer_issues := true; transfer_mergeRequests := true;
     transfer_attachments := true; mergeRequests_log := false;
     usePlaceholderMilestonesForMissingMilestones := true;
     usePlaceholderIssuesForMissingIssues := true;
     usePlaceholderIssuesForMissingMergeRequests := true |}.

(** The date of a note as [toLocaleString] prints it. *)
Definition sample_date (created_at : string) : string := "Jan 5, 2021, 14:03".


(** ** Further notions used in the statements *)

(** A text with its letters [a-z] raised to [A-Z]. *)
Fixpoint fold_case (s : string) : string :=
  match s with
  | EmptyString => EmptyString
  | String c s' => String (RegExpI.canonicalize c) (fold_case s')
  end.

(** Every match of [re] begins with the code unit [c]. *)
Definition begins_with (c : ascii) (re : RegExp) : Prop :=
  ∀ prev s m, re prev s = Some m → ∃ s', s = String c s'.



(** * Properties *)

(** ** [Map] with insertion order *)

Lemma JsMap_get_set_eq {V} k (v : V) m : JsMap.get k (JsMap.set k v m) = Some v.
Proof.
  induction m as [|[k' v'] m IH]; simpl.
  - by rewrite decide_True.
  - destruct (decide (k' = k)) as [->|Hne]; simpl.
    + by rewrite decide_True.
    + by rewrite decide_False.
Qed.

Lemma JsMap_get_set_ne {V} k k' (v : V) m :
  k ≠ k' → JsMap.get k' (JsMap.set k v m) = JsMap.get k' m.
Proof.
  intros Hne. induction m as [|[k0 v0] m IH]; simpl.
  - by rewrite decide_False.
  - destruct (decide (k0 = k)) as [->|Hne0]; simpl.
    + by rewrite !decide_False.
    + destruct (decide (k0 = k')); [done | exact IH].
Qed.

Lemma JsMap_get_set {V} k k' (v : V) m :
  JsMap.get k' (JsMap.set k v m)
  = if decide (k = k') then Some v else JsMap.get k' m.
Proof.
  destruct (decide (k = k')) as [->|Hne].
  - apply JsMap_get_set_eq.
  - by apply JsMap_get_set_ne.
Qed.

Lemma JsMap_get_set_is_Some {V} k k' (v : V) m :
  is_Some (JsMap.get k' (JsMap.set k v m))
  ↔ k = k' ∨ is_Some (JsMap.get k' m).
Proof.
  rewrite JsMap_get_set. case_decide; [|tauto]. split; [by left | eauto].
Qed.

(** ** Numbers *)

Lemma Math_max_upper (xs : list Js.number) (x : Js.number) :
  x ∈ xs → Js.le x (Js.Math_max xs).
Proof.
  induction xs as [|y xs IH]; [by intros ?%elem_of_nil|].
  intros [->|Hin]%elem_of_cons; simpl.
  - destruct y, (Js.Math_max xs); simpl; lia.
  - specialize (IH Hin). destruct x, y, (Js.Math_max xs); simpl in *; lia.
Qed.

Lemma Math_max_integer (xs : list Js.number) :
  xs ≠ [] → Forall (fun x => ∃ z, x = Js.Num z) xs →
  ∃ z, Js.Math_max xs = Js.Num z.
Proof.
  destruct xs as [|x xs]; [done|]. intros _ Hall.
  apply Forall_cons in Hall as [[z ->] _]. simpl.
  destruct (Js.Math_max xs); simpl; eauto.
Qed.

Lemma elem_of_map_values (m : gmap Z Js.number) (v : Js.number) :
  v ∈ map_values m ↔ ∃ k, m !! k = Some v.
Proof.
  unfold map_values. rewrite list_elem_of_fmap. split.
  - intros [[k v'] [-> Hin]]. exists k. by apply elem_of_map_to_list.
  - intros [k Hk]. exists (k, v). split; [done|]. by apply elem_of_map_to_list.
Qed.

(** ** The merge request map lies above the issue numbers *)

Lemma buildMergeRequestMap_loop_values usePlaceholders last mrs :
  ∀ i (m : gmap Z Js.number),
    0 ≤ i →
    (∀ k v, m !! k = Some v → ∃ e, 1 ≤ e ∧ v = Js.add (Js.Num e) last) →
    ∀ k v,
      buildMergeRequestMap_loop usePlaceholders last i mrs m !! k = Some v →
      ∃ e, 1 ≤ e ∧ v = Js.add (Js.Num e) last.
Proof.
  induction mrs as [|mr mrs IH]; intros i m Hi Hm k v; simpl.
  - apply Hm.
  - apply IH; [lia|]. intros k' v'.
    destruct (usePlaceholders && negb (item_iid mr =? i + 1));
      rewrite lookup_insert; case_decide; try apply Hm;
      intros [= <-]; exists (i + 1); split; [lia|done| lia | done].
Qed.

(** With a non-empty issue map of integers, every destination number of the
    merge request map exceeds every destination number of the issue map. *)
Lemma buildMergeRequestMap_above_issues (c : RepoConverter)
    (usePlaceholders : bool) (im mrMap : gmap Z Js.number) :
  issueMap c = Some im →
  im ≠ ∅ →
  (∀ k v, im !! k = Some v → ∃ z, v = Js.Num z) →
  buildMergeRequestMap c usePlaceholders = Ok mrMap →
  ∀ k v, mrMap !! k = Some v →
    Js.lt (Js.Math_max (map_values im)) v
    ∧ ∀ k' v', im !! k' = Some v' → Js.lt v' v.
Proof.
  intros Him Hne Hint. unfold buildMergeRequestMap. rewrite Him.
  intros [= <-] k v Hk.
  apply buildMergeRequestMap_loop_values in Hk as (e & He & ->);
    [|lia|by intros ?? ?%lookup_empty_Some].
  destruct (Math_max_integer (map_values im)) as [L HL].
  - unfold map_values. intros Hnil%fmap_nil_inv.
    by apply map_to_list_empty_iff in Hnil.
  - apply Forall_forall. intros x [k' Hk']%elem_of_map_values. eauto.
  - rewrite HL. simpl. split; [lia|]. intros k' v' Hk'.
    assert (Js.le v' (Js.Math_max (map_values im))) as Hle.
    { apply Math_max_upper, elem_of_map_values. eauto. }
    rewrite HL in Hle. destruct v'; simpl in *; [lia|done].
Qed.

(** C2 (the code departs from the specification). With an empty issue
    map [Math.max.apply(Math, [])] is [-Infinity], and so is every
    destination number of the merge request map: the numbering does not
    start at 1. *)
Theorem C2_empty_issue_map_numbers_from_minus_infinity :
  ∀ usePlaceholders,
    ∃ mrMap,
      buildMergeRequestMap (with_maps [] ∅ ∅) usePlaceholders = Ok mrMap
      ∧ mrMap !! 1 = Some Js.NegInfinity
      ∧ mrMap !! 1 ≠ Some (Js.Num 1)
      ∧ Js.toString Js.NegInfinity = "-Infinity".
Proof.
  intros usePlaceholders. eexists. split; [reflexivity|].
  by destruct usePlaceholders; vm_compute.
Qed.

(** ** The builder precondition *)

(** C6. Called on a converter whose issue map is absent,
    [buildMergeRequestMap] throws [Error('issueMap not initialised')]; in
    [migrate] the error is caught once, reported, and the process exits
    with status 1 before any transfer phase: the trace holds no write to
    the destination and no second attempt. *)
Theorem C6_merge_request_map_before_issue_map (settings : Settings)
    (c : RepoConverter) (usePlaceholders : bool) :
  issueMap c = None →
  buildMergeRequestMap c usePlaceholders = Throw "issueMap not initialised"
  ∧ migrate settings c (Ok ())
    = [ConsoleError "Error building maps for repository data: Error: issueMap not initialised";
       ProcessExit 1]
  ∧ ∀ registration,
      Forall (fun e => is_destination_write e = false)
             (migrate settings c registration).
Proof.
  intros Hnone. unfold migrate, buildMaps, buildMergeRequestMap.
  rewrite Hnone. split; [done|]. split; [done|].
  intros [[]|err]; simpl; repeat constructor.
Qed.

Lemma C6_merge_request_map_before_issue_map_witness :
  issueMap fresh_converter = None
  ∧ buildMergeRequestMap fresh_converter true
    = Throw "issueMap not initialised"
  ∧ Forall (fun e => is_destination_write e = false)
           (migrate sample_settings fresh_converter (Ok ())).
Proof.
  split; [reflexivity|].
  destruct (C6_merge_request_map_before_issue_map
              sample_settings fresh_converter true)
    as (H1 & _ & H3); [reflexivity|].
  split; [exact H1 | exact (H3 (Ok ()))].
Defined.

(** In [migrate] the converter is the freshly constructed one and none of
    the builders assigns [issueMap], so the chain of builders always ends
    in the error above. *)
Lemma migrate_fresh_converter_aborts (settings : Settings)
    (gl : GitLabHelper) (gh : GitHubHelper) (sh : StorageHelper) :
  migrate settings (new_RepoConverter gl gh sh) (Ok ())
  = [ConsoleError "Error building maps for repository data: Error: issueMap not initialised";
     ProcessExit 1].
Proof. reflexivity. Qed.

(** With the issue map present the transfer phases do run, so the absence
    of writes above is not a property of every trace. *)
Lemma migrate_transfers_when_built (settings : Settings) (c : RepoConverter)
    (im : gmap Z Js.number) :
  issueMap c = Some im →
  migrate settings c (Ok ()) = transfers settings.
Proof.
  intros Him. unfold migrate, buildMaps, buildMergeRequestMap.
  by rewrite Him.
Qed.

(** ** Sorting by [iid] *)

Lemma insert_by_iid_Permutation x l : insert_by_iid x l ≡ₚ x :: l.
Proof.
  induction l as [|y l IH]; simpl; [done|].
  destruct (item_iid x <? item_iid y); [done|].
  rewrite IH. apply Permutation_swap.
Qed.

Lemma foldl_insert_by_iid_Permutation l acc :
  foldl (fun acc x => insert_by_iid x acc) acc l ≡ₚ acc ++ l.
Proof.
  revert acc. induction l as [|x l IH]; intros acc; simpl.
  - by rewrite app_nil_r.
  - rewrite IH, insert_by_iid_Permutation. simpl.
    by rewrite Permutation_middle.
Qed.

Lemma sort_by_iid_Permutation l : sort_by_iid l ≡ₚ l.
Proof. apply (foldl_insert_by_iid_Permutation l []). Qed.

Lemma insert_by_iid_sorted x l :
  StronglySorted Z.le (item_iid <$> l) →
  StronglySorted Z.le (item_iid <$> insert_by_iid x l).
Proof.
  induction l as [|y l IH]; intros Hs; simpl.
  - repeat constructor.
  - rewrite fmap_cons in Hs.
    destruct (Z.ltb_spec (item_iid x) (item_iid y)); simpl.
    + constructor; [done|]. apply StronglySorted_inv in Hs as [_ Hall].
      constructor; [lia|]. eapply Forall_impl; [exact Hall|]. simpl. lia.
    + apply StronglySorted_inv in Hs as [Hs Hall].
      constructor; [by apply IH|].
      apply Forall_fmap. rewrite insert_by_iid_Permutation.
      constructor; simpl; [lia|].
      rewrite Forall_fmap in Hall.
      eapply Forall_impl; [exact Hall|]. intros z Hz. exact Hz.
Qed.

Lemma sort_by_iid_sorted l : StronglySorted Z.le (item_iid <$> sort_by_iid l).
Proof.
  unfold sort_by_iid.
  assert (StronglySorted Z.le (item_iid <$> @nil GitLabItem)) as Hnil
    by constructor.
  revert Hnil. generalize (@nil GitLabItem).
  induction l as [|x l IH]; intros acc Hacc; simpl; [done|].
  by apply IH, insert_by_iid_sorted.
Qed.

(** Distinct [iid]s, all positive, come out of the sort strictly
    increasing above 0. *)
Lemma sort_by_iid_increasing l :
  NoDup (item_iid <$> l) →
  Forall (fun x => 1 ≤ item_iid x) l →
  StronglySorted Z.lt (0 :: (item_iid <$> sort_by_iid l)).
Proof.
  intros Hnd Hpos.
  assert (NoDup (item_iid <$> sort_by_iid l)) as Hnd'
    by by rewrite sort_by_iid_Permutation.
  assert (Forall (fun x => 1 ≤ item_iid x) (sort_by_iid l)) as Hpos'
    by by rewrite sort_by_iid_Permutation.
  constructor.
  - pose proof (sort_by_iid_sorted l) as Hs.
    induction (item_iid <$> sort_by_iid l) as [|a ks IH]; [constructor|].
    apply StronglySorted_inv in Hs as [Hs Hall].
    apply NoDup_cons in Hnd' as [Hnotin Hnd'].
    constructor; [by apply IH|].
    apply Forall_forall. intros b Hb.
    pose proof (proj1 (Forall_forall _ _) Hall b Hb).
    assert (a ≠ b) by (intros ->; done). lia.
  - apply Forall_fmap. eapply Forall_impl; [exact Hpos'|]. simpl. lia.
Qed.

(** ** Keys of the identifier maps *)

Lemma last_from_cons i k ks :
  last_from i (k :: ks) = last_from k ks.
Proof. unfold last_from. rewrite last_cons. by destruct (last ks). Qed.

Lemma last_from_upper i ks :
  StronglySorted Z.lt (i :: ks) → Forall (fun k => k ≤ last_from i ks) ks.
Proof.
  revert i. induction ks as [|k ks IH]; intros i Hs; [constructor|].
  apply StronglySorted_inv in Hs as [Hs _].
  rewrite last_from_cons. specialize (IH k Hs). constructor.
  - destruct ks as [|k' ks]; [done|].
    apply Forall_cons in IH as [IH _].
    apply StronglySorted_inv in Hs as [_ [Hlt _]%Forall_cons]. lia.
  - done.
Qed.

(** The loop of [transferIssues] and [transferMergeRequests] with
    placeholders: on a strictly increasing sequence starting above the
    current index it ends, and its map gains exactly the numbers from the
    current index to the last [iid], each sent to the destination number of
    its own index. *)
Lemma splice_loop_placeholders (dest : Z → Js.number) :
  ∀ fuel rest i passed (map : gmap Z Js.number),
    StronglySorted Z.lt (i :: (item_iid <$> rest)) →
    last_from i (item_iid <$> rest) - i ≤ Z.of_nat fuel →
    ∃ passed' map',
      splice_loop dest true fuel i passed rest map = Some (passed', map')
      ∧ ∀ k, map' !! k
             = if bool_decide (i < k ≤ last_from i (item_iid <$> rest))
               then Some (dest k) else map !! k.
Proof.
  induction fuel as [|fuel IH]; intros rest i passed map Hs Hfuel.
  - destruct rest as [|item rest].
    + do 2 eexists. split; [done|]. intros k. unfold last_from. simpl.
      by rewrite bool_decide_eq_false_2 by lia.
    + exfalso. pose proof (last_from_upper _ _ Hs) as Hup.
      apply Forall_cons in Hup as [Hup _].
      apply StronglySorted_inv in Hs as [_ [Hlt _]%Forall_cons]. lia.
  - destruct rest as [|item rest].
    + do 2 eexists. split; [done|]. intros k. unfold last_from. simpl.
      by rewrite bool_decide_eq_false_2 by lia.
    + pose proof (last_from_upper _ _ Hs) as Hup.
      apply Forall_cons in Hup as [Hup _].
      pose proof Hs as Hs'.
      apply StronglySorted_inv in Hs' as [Hs' [Hlt Hall]%Forall_cons].
      cbn [splice_loop andb]. rewrite fmap_cons, last_from_cons in *.
      destruct (Z.eqb_spec (item_iid item) (i + 1)) as [Heq|Hne]; simpl.
      * rewrite Heq in *.
        destruct (IH rest (i + 1) (passed ++ [item])
                    (<[i + 1 := dest (i + 1)]> map)) as (p' & m' & -> & Hm');
          [done | lia |].
        do 2 eexists. split; [done|]. intros k. rewrite Hm'.
        pose proof (last_from_upper _ _ Hs') as Hup'.
        assert (i + 1 ≤ last_from (i + 1) (item_iid <$> rest)).
        { destruct rest; [unfold last_from; simpl; lia|].
          apply Forall_cons in Hup' as [? _].
          apply StronglySorted_inv in Hs' as [_ [? _]%Forall_cons].
          rewrite fmap_cons, last_from_cons in *. lia. }
        repeat case_bool_decide; try done; try lia;
          rewrite lookup_insert; case_decide; subst; try done; exfalso; lia.
      * destruct (IH (item :: rest) (i + 1)
                    (passed ++ [createPlaceholderData item (i + 1)])
                    (<[i + 1 := dest (i + 1)]> map)) as (p' & m' & -> & Hm').
        { constructor; [done|]. constructor; [lia|].
          apply StronglySorted_inv in Hs' as [_ Hall'].
          eapply Forall_impl; [exact Hall'|]. simpl. lia. }
        { rewrite fmap_cons, last_from_cons. lia. }
        do 2 eexists. split; [done|]. intros k. rewrite Hm'.
        rewrite fmap_cons, last_from_cons.
        repeat case_bool_decide; try done; try lia;
          rewrite lookup_insert; case_decide; subst; try done; exfalso; lia.
Qed.

(** The same loop without placeholders: it ends within as many turns as
    there are items, and its map gains exactly their [iid]s. *)
Lemma splice_loop_plain (dest : Z → Js.number) :
  ∀ rest fuel i passed (map : gmap Z Js.number),
    (length rest ≤ fuel)%nat →
    ∃ passed' map',
      splice_loop dest false fuel i passed rest map = Some (passed', map')
      ∧ ∀ k, is_Some (map' !! k)
             ↔ is_Some (map !! k) ∨ k ∈ item_iid <$> rest.
Proof.
  induction rest as [|item rest IH]; intros fuel i passed map Hfuel.
  - do 2 eexists. split; [by destruct fuel|]. intros k.
    rewrite fmap_nil, elem_of_nil. tauto.
  - destruct fuel as [|fuel]; [simpl in Hfuel; lia|].
    destruct (IH fuel (i + 1) (passed ++ [item])
                (<[item_iid item := dest (i + 1)]> map))
      as (p' & m' & Heq & Hm'); [simpl in Hfuel; lia|].
    do 2 eexists. split; [exact Heq|]. intros k.
    rewrite Hm', fmap_cons, elem_of_cons, lookup_insert_is_Some'.
    intuition congruence.
Qed.

(** The loop with placeholders on a sorted listing of distinct positive
    [iid]s: it ends, and the keys of its map are the numbers from 1 to the
    largest [iid], each sent to the destination number of its own index. *)
Lemma splice_loop_sorted_placeholders (dest : Z → Js.number)
    (l : list GitLabItem) (fuel : nat) :
  NoDup (item_iid <$> l) →
  Forall (fun x => 1 ≤ item_iid x ≤ Z.of_nat fuel) l →
  ∃ passed map,
    splice_loop dest true fuel 0 [] (sort_by_iid l) ∅ = Some (passed, map)
    ∧ (∀ k, is_Some (map !! k) ↔ 1 ≤ k ∧ ∃ x, x ∈ l ∧ k ≤ item_iid x)
    ∧ (∀ k v, map !! k = Some v → v = dest k).
Proof.
  intros Hnd Hpos.
  assert (Forall (fun x => 1 ≤ item_iid x) l) as Hpos1.
  { eapply Forall_impl; [exact Hpos|]. simpl. lia. }
  pose proof (sort_by_iid_increasing l Hnd Hpos1) as Hs.
  pose proof (last_from_upper _ _ Hs) as Hup.
  set (sorted := sort_by_iid l) in *.
  assert (last_from 0 (item_iid <$> sorted) ≤ Z.of_nat fuel) as Hfuel.
  { unfold last_from. destruct (last (item_iid <$> sorted)) as [k|] eqn:Hl;
      simpl; [|lia].
    apply last_Some_elem_of, list_elem_of_fmap in Hl as (x & -> & Hx).
    unfold sorted in Hx. rewrite sort_by_iid_Permutation in Hx.
    pose proof (proj1 (Forall_forall _ _) Hpos x Hx). simpl in *. lia. }
  destruct (splice_loop_placeholders dest fuel sorted 0 [] ∅ Hs)
    as (p' & m' & -> & Hm'); [lia|].
  do 2 eexists. split; [done|]. split.
  - intros k. rewrite Hm', lookup_empty. case_bool_decide as Hk.
    + split; [intros _|by eauto]. split; [lia|].
      unfold last_from in Hk.
      destruct (last (item_iid <$> sorted)) as [k'|] eqn:Hl;
        simpl in Hk; [|lia].
      apply last_Some_elem_of, list_elem_of_fmap in Hl as (x & -> & Hx).
      exists x. split; [|lia].
      unfold sorted in Hx. by rewrite sort_by_iid_Permutation in Hx.
    + split; [by intros [? ?]|]. intros [Hk1 (x & Hx & Hkx)]. exfalso.
      apply Hk. split; [lia|].
      assert (item_iid x ∈ item_iid <$> sorted) as Hin.
      { apply list_elem_of_fmap_2. unfold sorted.
        by rewrite sort_by_iid_Permutation. }
      pose proof (proj1 (Forall_forall _ _) Hup _ Hin). simpl in *. lia.
  - intros k v. rewrite Hm', lookup_empty. by case_bool_decide; intros [= <-].
Qed.

(** The issue map of [transferIssues], placeholders on: every number from
    1 to the largest [iid] is a key, sent to itself. *)
Lemma transferIssues_issueMap_placeholders (gl : GitLabHelper) (fuel : nat) :
  NoDup (item_iid <$> allIssues gl) →
  Forall (fun x => 1 ≤ item_iid x ≤ Z.of_nat fuel) (allIssues gl) →
  ∃ issues issueMap,
    transferIssues_issueMap fuel gl true = Some (issues, issueMap)
    ∧ (∀ k, is_Some (issueMap !! k)
            ↔ 1 ≤ k ∧ ∃ x, x ∈ allIssues gl ∧ k ≤ item_iid x)
    ∧ (∀ k v, issueMap !! k = Some v → v = Js.Num k).
Proof. apply splice_loop_sorted_placeholders. Qed.

(** The merge request map of [transferMergeRequests], placeholders on:
    every number from 1 to the largest [iid] is a key. *)
Lemma transferMergeRequests_mrMap_placeholders (c : RepoConverter)
    (im : gmap Z Js.number) (fuel : nat) :
  issueMap c = Some im →
  NoDup (item_iid <$> allMergeRequests (gitlabHelper c)) →
  Forall (fun x => 1 ≤ item_iid x ≤ Z.of_nat fuel)
         (allMergeRequests (gitlabHelper c)) →
  ∃ mergeRequests mrMap,
    transferMergeRequests_mrMap fuel c true = Ok (Some (mergeRequests, mrMap))
    ∧ (∀ k, is_Some (mrMap !! k)
            ↔ 1 ≤ k ∧ ∃ x, x ∈ allMergeRequests (gitlabHelper c)
                            ∧ k ≤ item_iid x)
    ∧ (∀ k v, mrMap !! k = Some v
              → v = Js.add (Js.Num k) (Js.Math_max (map_values im))).
Proof.
  intros Him Hnd Hpos. unfold transferMergeRequests_mrMap. rewrite Him.
  destruct (splice_loop_sorted_placeholders
              (fun e => Js.add (Js.Num e) (Js.Math_max (map_values im)))
              (allMergeRequests (gitlabHelper c)) fuel Hnd Hpos)
    as (p & m & -> & Hm). by do 2 eexists.
Qed.

(** The issue map of [transferIssues], placeholders off: the keys are the
    source [iid]s. *)
Lemma transferIssues_issueMap_plain (gl : GitLabHelper) (fuel : nat) :
  (length (allIssues gl) ≤ fuel)%nat →
  ∃ issues issueMap,
    transferIssues_issueMap fuel gl false = Some (issues, issueMap)
    ∧ ∀ k, is_Some (issueMap !! k) ↔ k ∈ item_iid <$> allIssues gl.
Proof.
  intros Hfuel. unfold transferIssues_issueMap.
  destruct (splice_loop_plain Js.Num (sort_by_iid (allIssues gl)) fuel 0 [] ∅)
    as (p' & m' & -> & Hm').
  { by rewrite sort_by_iid_Permutation. }
  do 2 eexists. split; [done|]. intros k.
  rewrite Hm', lookup_empty, sort_by_iid_Permutation.
  split; [intros [[? ?]|?]; done | by right].
Qed.

(** [buildIssueMap]: the keys are the numbers of the destination issues,
    whatever the source issues and the placeholder switch. *)
Lemma buildIssueMap_keys (c : RepoConverter) (usePlaceholders : bool) (k : Z) :
  is_Some (buildIssueMap c usePlaceholders !! k)
  ↔ k ∈ number <$> allGithubIssues (githubHelper c).
Proof.
  unfold buildIssueMap.
  assert (∀ l (m : gmap Z Js.number),
            is_Some (foldl (fun issueMap issue =>
                              <[number issue := Js.Num (number issue)]>
                                issueMap) m l !! k)
            ↔ is_Some (m !! k) ∨ k ∈ number <$> l) as Hgen.
  { induction l as [|x l IH]; intros m; simpl.
    - rewrite elem_of_nil. tauto.
    - rewrite IH, elem_of_cons, lookup_insert_is_Some'. intuition congruence. }
  rewrite Hgen, lookup_empty. split; [intros [[? ?]|?]; done | by right].
Qed.

(** [buildMilestoneMap]: the keys are the source [iid]s, with or without
    placeholders. *)
Lemma buildMilestoneMap_keys (githubMilestones : list SimpleItem)
    (gitlabMilestones : list GitLabItem) (usePlaceholders : bool) (k : Z) :
  is_Some (JsMap.get k (buildMilestoneMap_on githubMilestones
                          gitlabMilestones usePlaceholders))
  ↔ k ∈ item_iid <$> gitlabMilestones.
Proof.
  unfold buildMilestoneMap_on.
  generalize (foldl (fun acc m => Z.max acc (iid m)) 0 githubMilestones).
  assert (∀ l st,
            is_Some (JsMap.get k (fst (foldl (buildMilestoneMap_step
                       githubMilestones usePlaceholders) st l)))
            ↔ is_Some (JsMap.get k (fst st)) ∨ k ∈ item_iid <$> l) as Hgen.
  { induction l as [|x l IH]; intros [m last]; simpl.
    - rewrite elem_of_nil. tauto.
    - rewrite IH, elem_of_cons.
      unfold buildMilestoneMap_step.
      destruct (foundMilestone githubMilestones x); simpl;
        rewrite JsMap_get_set_is_Some; intuition congruence. }
  intros last. rewrite Hgen. simpl.
  split; [intros [[? ?]|?]; done | by right].
Qed.

(** [buildMergeRequestMap] without placeholders: the keys are the source
    [iid]s. *)
Lemma buildMergeRequestMap_plain_keys (c : RepoConverter)
    (mrMap : gmap Z Js.number) (k : Z) :
  buildMergeRequestMap c false = Ok mrMap →
  is_Some (mrMap !! k) ↔ k ∈ item_iid <$> allMergeRequests (gitlabHelper c).
Proof.
  unfold buildMergeRequestMap. destruct (issueMap c) as [im|]; [|done].
  intros [= <-].
  assert (∀ l last i (m : gmap Z Js.number),
            is_Some (buildMergeRequestMap_loop false last i l m !! k)
            ↔ is_Some (m !! k) ∨ k ∈ item_iid <$> l) as Hgen.
  { induction l as [|x l IH]; intros last i m; simpl.
    - rewrite elem_of_nil. tauto.
    - rewrite IH, elem_of_cons, lookup_insert_is_Some'. intuition congruence. }
  rewrite Hgen, lookup_empty, sort_by_iid_Permutation.
  split; [intros [[? ?]|?]; done | by right].
Qed.

(** C1 (the code departs from the specification). Merge requests 1 and
    3, merge request 2 deleted, placeholders on: [buildMergeRequestMap]
    registers the placeholder 2 in place of merge request 3, whose [iid],
    the largest, is no key of the map; the loop of [transferMergeRequests],
    which splices the placeholder into the array, registers 1, 2 and 3 on
    the same input. *)
Theorem C1_buildMergeRequestMap_misses_largest_iid :
  item_iid <$> allMergeRequests (gitlabHelper sample_converter) = [1; 3]
  ∧ (∃ mrMap, buildMergeRequestMap sample_converter true = Ok mrMap
              ∧ mrMap !! 1 = Some (Js.Num 2)
              ∧ mrMap !! 2 = Some (Js.Num 3)
              ∧ mrMap !! 3 = None)
  ∧ (∃ mergeRequests mrMap,
       transferMergeRequests_mrMap 3 sample_converter true
       = Ok (Some (mergeRequests, mrMap))
       ∧ mrMap !! 1 = Some (Js.Num 2)
       ∧ mrMap !! 2 = Some (Js.Num 3)
       ∧ mrMap !! 3 = Some (Js.Num 4)).
Proof.
  split; [reflexivity|]. split.
  - eexists. split; [reflexivity|]. by vm_compute.
  - do 2 eexists. split; [reflexivity|]. by vm_compute.
Qed.

(** ** Building the milestone map again *)

#[local] Arguments buildMilestoneMap_step : simpl never.

Lemma find_app {A} (p : A → bool) (l1 l2 : list A) :
  List.find p (l1 ++ l2)
  = match List.find p l1 with Some x => Some x | None => List.find p l2 end.
Proof. induction l1 as [|x l1 IH]; simpl; [done|]. by destruct (p x). Qed.

Lemma foundMilestone_title D s f :
  foundMilestone D s = Some f → title f = item_title s.
Proof.
  unfold foundMilestone. intros [_ Heq]%List.find_some.
  by apply String.eqb_eq.
Qed.

Lemma buildMilestoneMap_step_fst D up m last s :
  ∃ v, fst (buildMilestoneMap_step D up (m, last) s)
       = JsMap.set (item_iid s) v m
       ∧ title v = item_title s
       ∧ ∀ f, foundMilestone D s = Some f → v = f.
Proof.
  unfold buildMilestoneMap_step.
  destruct (foundMilestone D s) as [f|] eqn:Hf; simpl.
  - exists f. split; [done|]. split; [by eapply foundMilestone_title|].
    by intros ? [= <-].
  - eexists. split; [done|]. by split.
Qed.

Lemma buildMilestoneMap_fold_get_other D up l :
  ∀ st k, k ∉ item_iid <$> l →
    JsMap.get k (fst (foldl (buildMilestoneMap_step D up) st l))
    = JsMap.get k (fst st).
Proof.
  induction l as [|x l IH]; intros [m last] k Hk; simpl; [done|].
  rewrite fmap_cons, not_elem_of_cons in Hk. destruct Hk as [Hne Hk].
  rewrite IH by done.
  destruct (buildMilestoneMap_step_fst D up m last x) as (v & -> & _).
  by rewrite JsMap_get_set_ne.
Qed.

(** With distinct [iid]s, each source milestone keeps the entry written in
    its own turn of the loop: its title, and the destination milestone of
    that title when there is one. *)
Lemma buildMilestoneMap_fold_get D up l :
  ∀ st s, NoDup (item_iid <$> l) → s ∈ l →
    ∃ v, JsMap.get (item_iid s)
           (fst (foldl (buildMilestoneMap_step D up) st l)) = Some v
         ∧ title v = item_title s
         ∧ ∀ f, foundMilestone D s = Some f → v = f.
Proof.
  induction l as [|x l IH]; intros [m last] s Hnd Hs;
    [by apply elem_of_nil in Hs|].
  rewrite fmap_cons in Hnd. apply NoDup_cons in Hnd as [Hx Hnd].
  simpl. apply elem_of_cons in Hs as [->|Hs].
  - rewrite buildMilestoneMap_fold_get_other by done.
    destruct (buildMilestoneMap_step_fst D up m last x) as (v & -> & Hv).
    exists v. by rewrite JsMap_get_set_eq.
  - destruct (buildMilestoneMap_step D up (m, last) x) as [m' last'].
    by apply IH.
Qed.

Lemma idents_set k v v' (m m' : JsMap.t SimpleItem) :
  idents m = idents m' → ident v = ident v' →
  idents (JsMap.set k v m) = idents (JsMap.set k v' m').
Proof.
  unfold idents. intros Hm Hv. revert m' Hm.
  induction m as [|[k0 v0] m IH]; intros [|[k1 v1] m'] Hm;
    try discriminate; simpl in *.
  - by rewrite Hv.
  - injection Hm as -> Hi Ht Hm.
    destruct (decide (k1 = k)); simpl.
    + by rewrite Hv, Hm.
    + unfold ident at 1 3. rewrite Hi, Ht. f_equal. by apply IH.
Qed.

(** The second build follows the first turn for turn when each source
    milestone finds, in the second destination listing, the number and the
    title the first map gave it. *)
Lemma buildMilestoneMap_fold_again D up D2 up2 l :
  ∀ st1 m2 last2,
    NoDup (item_iid <$> l) →
    (∀ s, s ∈ l →
       ∃ x, foundMilestone D2 s = Some x
            ∧ Some (ident x)
              = ident <$> JsMap.get (item_iid s)
                  (fst (foldl (buildMilestoneMap_step D up) st1 l))) →
    idents (fst st1) = idents m2 →
    idents (fst (foldl (buildMilestoneMap_step D up) st1 l))
    = idents (fst (foldl (buildMilestoneMap_step D2 up2) (m2, last2) l)).
Proof.
  induction l as [|s l IH]; intros [m1 last1] m2 last2 Hnd Hfound Hm;
    [done|].
  rewrite fmap_cons in Hnd. apply NoDup_cons in Hnd as [Hs Hnd].
  destruct (Hfound s) as (x & Hx & Hid); [by left|].
  simpl in *. rewrite buildMilestoneMap_fold_get_other in Hid by done.
  destruct (buildMilestoneMap_step_fst D up m1 last1 s) as (v & Hstep & _).
  rewrite Hstep, JsMap_get_set_eq in Hid. simpl in Hid.
  injection Hid as Hi Ht.
  destruct (buildMilestoneMap_step D up (m1, last1) s) as [m1' last1'] eqn:E1.
  simpl in Hstep. subst m1'.
  assert (buildMilestoneMap_step D2 up2 (m2, last2) s
          = (JsMap.set (item_iid s) x m2, Z.max last2 (iid x))) as ->.
  { unfold buildMilestoneMap_step. by rewrite Hx. }
  apply IH; [done| |apply idents_set; [done | unfold ident; congruence]].
  intros s' Hs'. apply Hfound. by right.
Qed.


(** In a listing of created milestones that follows the unmatched source
    milestones one for one, a source milestone finds its own. *)
Lemma foundMilestone_created (M1 : JsMap.t SimpleItem)
    (created extra : list SimpleItem) (U : list GitLabItem) s :
  Forall2 (fun x s' =>
             Some (ident x) = ident <$> JsMap.get (item_iid s') M1)
          created U →
  (∀ s', s' ∈ U → ∃ v, JsMap.get (item_iid s') M1 = Some v
                       ∧ title v = item_title s') →
  NoDup (item_title <$> U) →
  s ∈ U →
  ∃ x, foundMilestone (created ++ extra) s = Some x
       ∧ Some (ident x) = ident <$> JsMap.get (item_iid s) M1.
Proof.
  intros HF. induction HF as [|x1 s1 C U H1 HF IH]; intros Htitle Hnd Hs;
    [by apply elem_of_nil in Hs|].
  rewrite fmap_cons in Hnd. apply NoDup_cons in Hnd as [Hs1 Hnd].
  destruct (Htitle s1) as (v1 & Hv1 & Ht1); [by left|].
  assert (title x1 = item_title s1) as Hx1.
  { rewrite Hv1 in H1. simpl in H1. injection H1 as _ Ht. congruence. }
  unfold foundMilestone. simpl. apply elem_of_cons in Hs as [->|Hs].
  - rewrite Hx1, String.eqb_refl. eauto.
  - destruct (String.eqb_spec (title x1) (item_title s)) as [Heq|_].
    + exfalso. apply Hs1. rewrite <-Hx1, Heq. by apply list_elem_of_fmap_2.
    + apply IH; [|done|done]. intros s' Hs'. apply Htitle. by right.
Qed.

Lemma unmatched_NoDup_titles D src :
  NoDup (item_title <$> src) → NoDup (item_title <$> unmatched D src).
Proof.
  intros Hnd. eapply sublist_NoDup; [exact Hnd|].
  apply fmap_sublist. unfold unmatched. apply sublist_filter.
Qed.

Lemma foundMilestone_titles_only (D D' : list SimpleItem) (s s' : GitLabItem) :
  title <$> D = title <$> D' → item_title s = item_title s' →
  is_Some (foundMilestone D s) ↔ is_Some (foundMilestone D' s').
Proof.
  intros HD Hs. unfold foundMilestone. rewrite <-Hs. clear Hs s'.
  revert D' HD. induction D as [|x D IH]; intros [|x' D'] HD;
    try discriminate; simpl; [done|].
  injection HD as Hx HD. rewrite <-Hx.
  destruct (String.eqb (title x) (item_title s)); [by split; eauto|].
  by apply IH.
Qed.

(** C8 (amended). When the source milestones have pairwise distinct titles
    (and distinct [iid]s), and the destination listing of the second build
    is the first listing followed by the milestones the first map created,
    under the numbers that map gave them, and by anything else, then the
    second build yields the map of the first: the same keys in the same
    order, each sent to the same destination number and title, whatever
    the placeholder switch of either build.  Whether a source milestone
    counts as already migrated depends on titles only, not on the [iid]s
    of either side. *)
Theorem C8_rebuild_with_distinct_titles
    (githubMilestones created extra : list SimpleItem)
    (gitlabMilestones : list GitLabItem)
    (usePlaceholders usePlaceholders2 : bool) :
  NoDup (item_iid <$> gitlabMilestones) →
  NoDup (item_title <$> gitlabMilestones) →
  Forall2 (fun x s =>
             Some (ident x)
             = ident <$> JsMap.get (item_iid s)
                 (buildMilestoneMap_on githubMilestones gitlabMilestones
                                       usePlaceholders))
          created (unmatched githubMilestones gitlabMilestones) →
  idents (buildMilestoneMap_on (githubMilestones ++ created ++ extra)
                               gitlabMilestones usePlaceholders2)
  = idents (buildMilestoneMap_on githubMilestones gitlabMilestones
                                 usePlaceholders)
  ∧ ∀ (D D' : list SimpleItem) (s s' : GitLabItem),
      title <$> D = title <$> D' → item_title s = item_title s' →
      (is_Some (foundMilestone D s) ↔ is_Some (foundMilestone D' s')).
Proof.
  intros Hiid Htitle Hcreated.
  split; [|apply foundMilestone_titles_only].
  symmetry. unfold buildMilestoneMap_on in *.
  set (last1 := foldl (fun acc m => Z.max acc (iid m)) 0 githubMilestones)
    in *.
  apply buildMilestoneMap_fold_again; [done| |done].
  intros s Hs.
  destruct (buildMilestoneMap_fold_get githubMilestones usePlaceholders
              gitlabMilestones (JsMap.empty, last1) s Hiid Hs)
    as (v & Hv & Hvt & Hvf).
  destruct (foundMilestone githubMilestones s) as [f|] eqn:Hf.
  - exists f. split.
    + unfold foundMilestone in *. by rewrite find_app, Hf.
    + rewrite Hv. simpl. by rewrite (Hvf f).
  - unfold foundMilestone at 1. rewrite find_app.
    unfold foundMilestone in Hf. rewrite Hf.
    apply (foundMilestone_created _ created extra
             (unmatched githubMilestones gitlabMilestones)).
    + exact Hcreated.
    + intros s' [_ Hs']%list_elem_of_filter.
      destruct (buildMilestoneMap_fold_get githubMilestones usePlaceholders
                  gitlabMilestones (JsMap.empty, last1) s' Hiid Hs')
        as (v' & Hv' & Hvt' & _). eauto.
    + by apply unmatched_NoDup_titles.
    + apply list_elem_of_filter. split; [exact Hf | done].
Qed.

Lemma C8_rebuild_with_distinct_titles_witness :
  NoDup (item_iid <$> distinct_milestones)
  ∧ NoDup (item_title <$> distinct_milestones)
  ∧ idents (buildMilestoneMap_on destination_milestones distinct_milestones
                                 true)
    = [(1, (6, "v1.0")); (3, (5, "v2.0"))]
  ∧ idents (buildMilestoneMap_on
              (destination_milestones
               ++ [mkSimpleItem 6 "v1.0" None (Some open)] ++ [])
              distinct_milestones true)
    = idents (buildMilestoneMap_on destination_milestones
                                   distinct_milestones true).
Proof.
  assert (NoDup (item_iid <$> distinct_milestones)) as H1
    by (refine (bool_decide_unpack _ _); vm_compute; exact I).
  assert (NoDup (item_title <$> distinct_milestones)) as H2
    by (refine (bool_decide_unpack _ _); vm_compute; exact I).
  split; [exact H1|]. split; [exact H2|]. split; [reflexivity|].
  refine (proj1 (C8_rebuild_with_distinct_titles destination_milestones
                   [mkSimpleItem 6 "v1.0" None (Some open)] []
                   distinct_milestones true true H1 H2 _)).
  repeat constructor.
Defined.

(** C8 (counterexample). Two source milestones with the same title and an
    empty destination: the first build sends them to 1 and 2; the second
    build, against the destination that now lists both, sends both to 1. *)
Lemma C8_same_title_counterexample :
  destination_after [] same_title_milestones false
  = [mkSimpleItem 1 "v1.0" None None; mkSimpleItem 2 "v1.0" None None]
  ∧ idents (buildMilestoneMap_on [] same_title_milestones false)
    = [(1, (1, "v1.0")); (2, (2, "v1.0"))]
  ∧ idents (buildMilestoneMap_on
              (destination_after [] same_title_milestones false)
              same_title_milestones false)
    = [(1, (1, "v1.0")); (2, (1, "v1.0"))]
  ∧ buildMilestoneMap_on (destination_after [] same_title_milestones false)
                         same_title_milestones false
    ≠ buildMilestoneMap_on [] same_title_milestones false.
Proof. by vm_compute. Qed.

(** ** Strings *)

#[local] Arguments String.append !s1 s2 : simpl nomatch.

Lemma string_app_nil_r s : s +:+ "" = s.
Proof. induction s as [|c s IH]; [done|]. cbn [String.append]. by f_equal. Qed.

Lemma string_app_assoc a b c : (a +:+ b) +:+ c = a +:+ (b +:+ c).
Proof. induction a as [|x a IH]; [done|]. cbn [String.append]. by f_equal. Qed.

Lemma string_length_app a b :
  String.length (a +:+ b) = (String.length a + String.length b)%nat.
Proof. induction a as [|x a IH]; simpl; [done|]. by rewrite IH. Qed.

Lemma has_char_app c a b : has_char c (a +:+ b) = has_char c a || has_char c b.
Proof.
  induction a as [|x a IH]; [done|].
  cbn [String.append has_char]. by rewrite IH, orb_assoc.
Qed.

Lemma strip_prefix_has_char c pre s r :
  strip_prefix pre s = Some r → has_char c pre = true → has_char c s = true.
Proof.
  revert s. induction pre as [|a pre IH]; intros [|b s]; simpl; try done.
  case_bool_decide as Hab; [|done]. subst b. intros Hs.
  destruct (bool_decide (a = c)); simpl; [done|]. by apply IH.
Qed.

Lemma strip_prefix_app pre s r :
  strip_prefix pre s = Some r → s = pre +:+ r.
Proof.
  revert s. induction pre as [|a pre IH]; intros [|b s]; simpl; try done.
  - by intros [= <-].
  - by intros [= <-].
  - case_bool_decide; [|done]. subst b. intros Hs. by rewrite (IH _ Hs).
Qed.

Lemma strip_prefix_app_eq pre r : strip_prefix pre (pre +:+ r) = Some r.
Proof.
  induction pre as [|a pre IH]; simpl; [by destruct r|].
  by rewrite bool_decide_eq_true_2.
Qed.

(** ** Global replacement *)

(** Where no match is possible the text is copied. *)
Lemma replace_from_absent c re replacer :
  needs c re →
  ∀ s prev offset,
    has_char c s = false → replace_from re replacer prev 0 offset s = s.
Proof.
  intros Hneeds. induction s as [|x s IH]; intros prev offset Hs; [done|].
  cbn [replace_from]. destruct (re prev (String x s)) as [m|] eqn:Hre.
  - apply Hneeds in Hre. congruence.
  - simpl in Hs. apply orb_false_iff in Hs as [_ Hs]. by rewrite IH.
Qed.

Lemma matchAll_from_absent c re :
  needs c re →
  ∀ s prev offset, has_char c s = false → matchAll_from re prev 0 offset s = [].
Proof.
  intros Hneeds. induction s as [|x s IH]; intros prev offset Hs; [done|].
  cbn [matchAll_from]. destruct (re prev (String x s)) as [m|] eqn:Hre.
  - apply Hneeds in Hre. congruence.
  - simpl in Hs. apply orb_false_iff in Hs as [_ Hs]. by rewrite IH.
Qed.

(** Passing over the rest of a match. *)
Lemma replace_from_skip re replacer a :
  ∀ b prev offset,
    replace_from re replacer prev (String.length a) offset (a +:+ b)
    = replace_from re replacer (prev_after prev a) 0
        (offset + String.length a) b.
Proof.
  induction a as [|x a IH]; intros b prev offset; simpl.
  - by rewrite Nat.add_0_r.
  - rewrite IH. f_equal. lia.
Qed.

(** A text splits where no match of its first part reaches into the
    second. *)
Lemma replace_from_app re replacer b a :
  ∀ prev skip offset,
    (skip ≤ String.length a)%nat →
    (∀ a1 a2, a = a1 +:+ a2 → String.length a1 = skip →
              local_all re (prev_after prev a1) a2 b) →
    replace_from re replacer prev skip offset (a +:+ b)
    = replace_from re replacer prev skip offset a
      +:+ replace_from re replacer (prev_after prev a) 0
            (offset + String.length a) b.
Proof.
  induction a as [|x a IH]; intros prev skip offset Hskip Hlocal.
  - simpl in *. assert (skip = 0)%nat as -> by lia.
    by rewrite Nat.add_0_r.
  - cbn [String.append replace_from prev_after String.length].
    replace (offset + S (String.length a))%nat
      with (S offset + String.length a)%nat by lia.
    destruct skip as [|skip].
    + specialize (Hlocal "" (String x a) eq_refl eq_refl) as Hl.
      cbn [local_all prev_after] in Hl. destruct Hl as [Hat Hall].
      unfold local_at in Hat. cbn [String.append] in Hat.
      destruct (re prev (String x (a +:+ b))) as [m|].
      * destruct Hat as [-> Hlen]. cbn [String.length] in Hlen.
        rewrite IH, string_app_assoc; [done|lia|].
        intros a1 a2 -> Hlen1.
        clear -Hall. revert Hall. generalize (Some x).
        induction a1 as [|y a1 IH1]; intros p Hall; [done|].
        cbn [String.append local_all prev_after] in *.
        apply IH1. by destruct Hall.
      * rewrite Hat, IH; [done|lia|].
        intros a1 a2 Ha Hlen1. destruct a1; [|discriminate].
        simpl in *. by subst.
    + simpl in Hskip. apply IH; [lia|].
      intros a1 a2 -> Hlen1.
      apply (Hlocal (String x a1) a2); [done|]. simpl. by rewrite Hlen1.
Qed.

(** ** What each expression needs in order to match *)

Lemma has_char_here c s : has_char c (String c s) = true.
Proof. simpl. by rewrite bool_decide_eq_true_2. Qed.

Lemma has_char_later c x s :
  has_char c s = true → has_char c (String x s) = true.
Proof. simpl. intros ->. by rewrite orb_true_r. Qed.

Lemma has_char_app_r c a b :
  has_char c b = true → has_char c (a +:+ b) = true.
Proof. rewrite has_char_app. intros ->. by rewrite orb_true_r. Qed.

Lemma localRef_starts sigil t prev s m :
  localRef sigil t prev s = Some m →
  ∃ p s', prev = Some p ∧ Js.is_word p = false ∧ s = String sigil s'.
Proof.
  unfold localRef. destruct prev as [p|]; [|done].
  destruct (Js.is_word p) eqn:Hp; [done|].
  destruct s as [|c s']; [done|]. case_bool_decide; [|done]. subst c.
  intros _. eauto.
Qed.

Lemma localRef_needs sigil t : needs sigil (localRef sigil t).
Proof.
  intros prev s m (p & s' & _ & _ & ->)%localRef_starts. simpl.
  by rewrite bool_decide_eq_true_2.
Qed.

Lemma scoped_alternative_prefix sigil t key s whole captured :
  scoped_alternative sigil t key s = Some (whole, captured) →
  ∃ s', s = key +:+ String sigil s'.
Proof.
  unfold scoped_alternative.
  destruct (strip_prefix key s) as [[|c s']|] eqn:Hs; [done| |done].
  case_bool_decide; [|done]. subst c. intros _.
  exists s'. by apply strip_prefix_app.
Qed.

Lemma scoped_alternatives_key sigil t after :
  ∀ before s m,
    scoped_alternatives sigil t before after s = Some m →
    ∃ key s', key ∈ after ∧ s = key +:+ String sigil s'.
Proof.
  induction after as [|key after IH]; intros before s m; simpl; [done|].
  destruct (scoped_alternative sigil t key s) as [[whole captured]|] eqn:Ha.
  - intros _. apply scoped_alternative_prefix in Ha as [s' ->].
    exists key, s'. split; [by left | done].
  - intros (key' & s' & Hin & ->)%IH. exists key', s'.
    split; [by right | done].
Qed.

Lemma scopedRef_needs_sigil sigil t keys : needs sigil (scopedRef sigil t keys).
Proof.
  intros prev s m (key & s' & _ & ->)%scoped_alternatives_key.
  apply has_char_app_r, has_char_here.
Qed.

Lemma scopedRef_needs_slash sigil t keys :
  Forall (fun key => has_char "/" key = true) keys →
  needs "/" (scopedRef sigil t keys).
Proof.
  intros Hkeys prev s m (key & s' & Hin & ->)%scoped_alternatives_key.
  rewrite has_char_app.
  by rewrite (proj1 (Forall_forall _ _) Hkeys key Hin).
Qed.

Lemma scopedRef_quoted_needs_quote sigil keys :
  needs Js.DQUOTE (scopedRef sigil QuotedOuter keys).
Proof.
  intros prev s m. unfold scopedRef. generalize (@nil string).
  induction keys as [|key keys IH]; intros before; simpl; [done|].
  destruct (scoped_alternative sigil QuotedOuter key s)
    as [[whole captured]|] eqn:Ha; [intros _|by apply IH].
  unfold scoped_alternative in Ha.
  destruct (strip_prefix key s) as [[|c s']|] eqn:Hs; [done| |done].
  apply strip_prefix_app in Hs as ->.
  case_bool_decide; [|done]. simpl in Ha. unfold quoted in Ha.
  destruct s' as [|q s']; [done|]. case_bool_decide; [|done]. subst q.
  apply has_char_app_r, has_char_later, has_char_here.
Qed.

Lemma localRef_quoted_needs_quote sigil :
  needs Js.DQUOTE (localRef sigil QuotedInner).
Proof.
  intros prev s m. unfold localRef. destruct prev as [p|]; [|done].
  destruct (Js.is_word p); [done|]. destruct s as [|c s']; [done|].
  case_bool_decide; [|done]. simpl. unfold quoted.
  destruct s' as [|q s']; [done|]. case_bool_decide; [|done]. subst q.
  intros _. apply has_char_later, has_char_here.
Qed.

Lemma mentionRegExp_needs keys : needs "@" (mentionRegExp keys).
Proof.
  intros prev s m. unfold mentionRegExp.
  induction keys as [|key keys IH]; simpl; [done|].
  destruct s as [|c s']; [by destruct keys|].
  case_bool_decide as Hc.
  - intros _. simpl. subst c. by rewrite bool_decide_eq_true_2.
  - exact IH.
Qed.

Lemma attachmentRegExp_needs : needs "[" attachmentRegExp.
Proof.
  intros prev s m. unfold attachmentRegExp.
  destruct s as [|c s']; [done|].
  destruct (decide (c = "!"%char)) as [->|Hne].
  - destruct s' as [|c' s'']; [done|].
    destruct (decide (c' = "["%char)) as [->|Hne']; [done|].
    destruct c' as [[] [] [] [] [] [] [] []]; try done.
  - destruct (decide (c = "["%char)) as [->|Hne'].
    + intros _. simpl. done.
    + destruct c as [[] [] [] [] [] [] [] []]; try done.
Qed.

(** ** Numbers as text *)

Lemma plain_string_of_uint d : plain (NilEmpty.string_of_uint d) = true.
Proof. induction d; simpl; [done|..]; exact IHd. Qed.

Lemma plain_Z_toString z : plain (Js.Z_toString z) = true.
Proof.
  unfold Js.Z_toString, NilZero.string_of_int, NilZero.string_of_uint.
  destruct (Z.to_int z) as [d|d]; destruct d;
    try reflexivity; try exact (plain_string_of_uint _);
    change (plain (String "-" ?s)) with (plain s);
    exact (plain_string_of_uint _).
Qed.

Lemma plain_toString n : plain (Js.toString n) = true.
Proof. destruct n; [apply plain_Z_toString | reflexivity]. Qed.

Lemma plain_has_char c s :
  plain s = true → is_special c = true → has_char c s = false.
Proof.
  intros Hs Hc. induction s as [|x s IH]; [done|].
  simpl in *. apply andb_true_iff in Hs as [Hx Hs].
  rewrite IH by done. case_bool_decide; [|done]. subst x.
  by rewrite Hc in Hx.
Qed.

Lemma plain_app a b : plain (a +:+ b) = plain a && plain b.
Proof.
  unfold plain. induction a as [|x a IH]; simpl; [done|].
  by rewrite IH, andb_assoc.
Qed.

Lemma digits_plain n : all_chars Js.is_digit n = true → plain n = true.
Proof.
  unfold plain. induction n as [|x n IH]; simpl; [done|].
  intros [Hx Hn]%andb_true_iff. rewrite (IH Hn), andb_true_r.
  destruct x as [[] [] [] [] [] [] [] []]; done.
Qed.


Lemma is_digit_is_word c : Js.is_digit c = true → Js.is_word c = true.
Proof. unfold Js.is_digit, Js.is_word. intros ->. done. Qed.

(** ** Scanning digits *)

Lemma span_digits_app n rest :
  all_chars Js.is_digit n = true → starts_with Js.is_digit rest = false →
  span Js.is_digit (n +:+ rest) = (n, rest).
Proof.
  intros Hn Hrest. induction n as [|x n IH]; simpl in *.
  - destruct rest as [|y rest]; [done|]. simpl in *. by rewrite Hrest.
  - apply andb_true_iff in Hn as [-> Hn]. by rewrite IH.
Qed.

Lemma span_digits_stop p x :
  Js.is_digit p = false →
  ∀ y, fst (span Js.is_digit (x +:+ String p y))
       = fst (span Js.is_digit (x +:+ String p ""))
       ∧ (String.length (fst (span Js.is_digit (x +:+ String p y)))
          ≤ String.length x)%nat.
Proof.
  intros Hp y. induction x as [|c x [IH1 IH2]]; simpl.
  - rewrite Hp. simpl. split; [done|lia].
  - destruct (Js.is_digit c); simpl; [|split; [done|lia]].
    destruct (span Js.is_digit (x +:+ String p y)) as [d1 r1].
    destruct (span Js.is_digit (x +:+ String p "")) as [d2 r2].
    simpl in *. subst d2. split; [done|lia].
Qed.

Lemma prev_after_app prev a b :
  prev_after prev (a +:+ b) = prev_after (prev_after prev a) b.
Proof.
  revert prev. induction a as [|x a IH]; intros prev; simpl; [done|].
  apply IH.
Qed.

Lemma replace_from_offset re replacer s :
  ∀ prev skip offset offset',
    replace_from re (fun m _ => replacer m) prev skip offset s
    = replace_from re (fun m _ => replacer m) prev skip offset' s.
Proof.
  induction s as [|x s IH]; intros prev skip offset offset'; [done|].
  cbn [replace_from]. destruct skip as [|skip]; [|apply IH].
  destruct (re prev (String x s)); f_equal; apply IH.
Qed.

(** A numeric reference does not look past a code unit that is no word
    character, unless digits follow directly. *)
Lemma localRef_digits_local sigil p b :
  Js.is_word p = false → starts_with Js.is_digit b = false →
  ∀ pre prev, local_all (localRef sigil Digits) prev (pre +:+ String p "") b.
Proof.
  intros Hp Hb.
  assert (Js.is_digit p = false) as Hpd.
  { destruct (Js.is_digit p) eqn:E; [|done].
    apply is_digit_is_word in E. congruence. }
  assert (digits1 b = None) as Hdb.
  { unfold digits1. destruct b as [|y b]; [done|]. simpl in *.
    by rewrite Hb. }
  induction pre as [|c pre IH]; intros prev; simpl.
  - split; [|done]. unfold local_at, localRef. simpl.
    destruct prev as [q|]; [|done]. destruct (Js.is_word q); [done|].
    case_bool_decide; [|done]. by rewrite Hdb.
  - split; [|apply IH]. unfold local_at, localRef. simpl.
    destruct prev as [q|]; [|done]. destruct (Js.is_word q); [done|].
    case_bool_decide; [|done]. unfold digits1.
    rewrite string_app_assoc. simpl.
    destruct (span_digits_stop p pre Hpd b) as [Heq Hlen].
    destruct (span Js.is_digit (pre +:+ String p b)) as [d1 r1].
    destruct (span Js.is_digit (pre +:+ String p "")) as [d2 r2].
    simpl in *. subst d2. case_bool_decide; simpl; [done|].
    split; [done|]. rewrite string_length_app. simpl. lia.
Qed.

(** The pass of a numeric reference on a text that holds one after a code
    unit that is no word character: what comes before is rewritten on its
    own, the reference is replaced, and the pass resumes after it. *)
Lemma localRef_digits_pass sigil replacer pre p n rest prev :
  Js.is_word p = false → Js.is_digit sigil = false →
  all_chars Js.is_digit n = true → n ≠ "" →
  starts_with Js.is_digit rest = false →
  resume (localRef sigil Digits) replacer prev
         (pre +:+ String p (String sigil (n +:+ rest)))
  = resume (localRef sigil Digits) replacer prev (pre +:+ String p "")
    +:+ replacer {| matched := String sigil n; groups := [Some n] |}
    +:+ resume (localRef sigil Digits) replacer
               (prev_after (Some sigil) n) rest.
Proof.
  intros Hp Hsigil Hn Hne Hrest. unfold resume.
  replace (pre +:+ String p (String sigil (n +:+ rest)))
    with ((pre +:+ String p "") +:+ String sigil (n +:+ rest))
    by by rewrite string_app_assoc.
  rewrite replace_from_app; [|lia|].
  - f_equal. rewrite prev_after_app. cbn [prev_after replace_from].
    unfold localRef at 1. rewrite Hp, bool_decide_eq_true_2 by done.
    cbn [ref_tail]. unfold digits1. rewrite span_digits_app by done.
    rewrite bool_decide_eq_false_2 by done.
    cbn [fmap option_fmap option_map matched].
    f_equal. cbn [String.length Nat.pred].
    rewrite replace_from_skip. apply replace_from_offset.
  - intros a1 a2 Ha Hlen. destruct a1; [|discriminate]. simpl in Ha. subst a2.
    apply localRef_digits_local; [done|]. simpl. exact Hsigil.
Qed.

(** ** Passes that find nothing *)

Lemma replace_absent c re replacer s :
  needs c re → has_char c s = false → replace re replacer s = s.
Proof. intros Hneeds Hs. unfold replace. by eapply replace_from_absent. Qed.



Lemma convertMentions_absent settings s :
  has_char "@" s = false → convertMentions settings s = s.
Proof.
  intros Hs. unfold convertMentions. destruct (hasUsermap settings); [|done].
  by eapply replace_absent; [apply mentionRegExp_needs|].
Qed.

Lemma convertScopedIssues_absent settings s :
  has_char "#" s = false ∨ (project_paths settings ∧ has_char "/" s = false) →
  convertScopedIssues settings s = s.
Proof.
  intros Hs. unfold convertScopedIssues.
  destruct (hasProjectmap settings); [|done]. destruct Hs as [Hs|[Hp Hs]].
  - by eapply replace_absent; [apply scopedRef_needs_sigil|].
  - by eapply replace_absent; [apply scopedRef_needs_slash|].
Qed.

Lemma convertScopedMergeRequests_absent settings s :
  has_char "!" s = false ∨ (project_paths settings ∧ has_char "/" s = false) →
  convertScopedMergeRequests settings s = s.
Proof.
  intros Hs. unfold convertScopedMergeRequests.
  destruct (hasProjectmap settings); [|done]. destruct Hs as [Hs|[Hp Hs]].
  - by eapply replace_absent; [apply scopedRef_needs_sigil|].
  - by eapply replace_absent; [apply scopedRef_needs_slash|].
Qed.

Lemma convertScopedMilestones_absent settings c s :
  has_char "%" s = false ∨ (project_paths settings ∧ has_char "/" s = false) →
  convertScopedMilestones settings c s = s.
Proof.
  intros Hs. unfold convertScopedMilestones.
  destruct (hasProjectmap settings); [|done]. destruct Hs as [Hs|[Hp Hs]].
  - rewrite (replace_absent "%" _ _ s); [|apply scopedRef_needs_sigil|done].
    by eapply replace_absent; [apply scopedRef_needs_sigil|].
  - rewrite (replace_absent "/" _ _ s); [|by apply scopedRef_needs_slash|done].
    by eapply replace_absent; [apply scopedRef_needs_slash|].
Qed.

Lemma convertIssues_absent c s :
  has_char "#" s = false → convertIssues c s = s.
Proof. intros Hs. by eapply replace_absent; [apply localRef_needs|]. Qed.

Lemma convertMilestoneTitles_absent c s :
  has_char "%" s = false ∨ has_char Js.DQUOTE s = false →
  convertMilestoneTitles c s = s.
Proof.
  intros [Hs|Hs].
  - by eapply replace_absent; [apply localRef_needs|].
  - by eapply replace_absent; [apply localRef_quoted_needs_quote|].
Qed.

Lemma convertMilestoneNumbers_absent c s :
  has_char "%" s = false → convertMilestoneNumbers c s = s.
Proof. intros Hs. by eapply replace_absent; [apply localRef_needs|]. Qed.

Lemma convertMergeRequests_absent c s :
  has_char "!" s = false → convertMergeRequests c s = s.
Proof. intros Hs. by eapply replace_absent; [apply localRef_needs|]. Qed.

Lemma convertAttachments_absent c s :
  has_char "[" s = false → convertAttachments c s = (s, c).
Proof.
  intros Hs. unfold convertAttachments, matchAll.
  rewrite (matchAll_from_absent "[") by (exact attachmentRegExp_needs || done).
  simpl. rewrite (replace_absent "[") by (exact attachmentRegExp_needs || done).
  by destruct c.
Qed.

Lemma addMigrationLine_not_added settings md5_hex toLocaleString
    str item add_line repoLink :
  attribution_added add_line item = false →
  (if add_line
   then addMigrationLine settings md5_hex toLocaleString str item repoLink
   else str) = str.
Proof.
  unfold attribution_added, addMigrationLine. destruct add_line; [|done].
  simpl. destruct (truthy (author_username item)); simpl; [|done].
  by intros ->.
Qed.

(** After the attribution step, [convertBody] is the reference passes
    followed by the attachment pass. *)
Lemma convertBody_not_added settings md5_hex toLocaleString c str item
    add_line :
  attribution_added add_line item = false →
  convertBody settings md5_hex toLocaleString c str item add_line
  = if transfer_attachments settings
    then convertAttachments c (convertReferences settings c str)
    else (convertReferences settings c str, c).
Proof.
  intros Hadd. unfold convertBody.
  by rewrite (addMigrationLine_not_added _ _ _ _ _ _ _ Hadd).
Qed.

(** ** A reference at the very start of the text *)






(** ** Issue references *)

Lemma issueReplacer_found c im n m :
  issueMap c = Some im → im !! Js.parseInt n = Some m →
  issueReplacer c n = "#" +:+ Js.toString m.
Proof. intros Him Hm. unfold issueReplacer. by rewrite Him, Hm. Qed.

Lemma issueReplacer_absent c n :
  issueMap c = None
  ∨ (∃ im, issueMap c = Some im ∧ im !! Js.parseInt n = None) →
  issueReplacer c n = "#" +:+ n.
Proof.
  unfold issueReplacer. intros [->|(im & -> & ->)]; done.
Qed.

Lemma issueReplacer_form c n :
  plain n = true → ∃ x, issueReplacer c n = String "#" x ∧ plain x = true.
Proof.
  intros Hn. unfold issueReplacer.
  destruct (issueMap c) as [im|]; [|by eauto].
  destruct (im !! Js.parseInt n) as [m|]; [|by eauto].
  exists (Js.toString m). split; [done|]. apply plain_toString.
Qed.

Lemma has_char_around c pre p sigil mid rest :
  plain (pre +:+ String p rest) = true → plain mid = true →
  is_special c = true → c ≠ sigil →
  has_char c (pre +:+ String p (String sigil (mid +:+ rest))) = false.
Proof.
  intros Hplain Hmid Hc Hne.
  rewrite plain_app in Hplain. apply andb_true_iff in Hplain as [Hpre Hrest].
  change (plain (String p rest)) with (negb (is_special p) && plain rest)
    in Hrest.
  apply andb_true_iff in Hrest as [Hp Hrest].
  rewrite has_char_app, (plain_has_char c pre) by done. simpl.
  rewrite has_char_app, (plain_has_char c mid), (plain_has_char c rest)
    by done.
  rewrite (bool_decide_eq_false_2 (sigil = c)) by done.
  case_bool_decide; [|done]. subst p. by rewrite Hc in Hp.
Qed.


(** C3. An issue reference [#n] that follows a code unit which is no word
    character is replaced by the issue pass with what [issueReplacer]
    returns for [n]: [#m] when the issue map sends [n] to [m], and [#n]
    itself when the map has no entry for [n] or is absent; what precedes
    the reference is rewritten on its own and the pass resumes after it.
    When the text around the reference holds no other reference syntax,
    the project map has keys of the form [group/project] and no
    attribution line is added, this is the whole effect of [convertBody]:
    ["see #3"] becomes ["see #42"] under a map sending 3 to 42, and
    ["see #99"] stays as it is when 99 has no entry. *)
Theorem C3_issue_reference_rewritten (settings : Settings)
    (md5_hex toLocaleString : string → string) (c : RepoConverter)
    (item : GitLabItem) (add_line : bool) (pre : string) (p : ascii)
    (n rest : string) :
  Js.is_word p = false →
  all_chars Js.is_digit n = true → n ≠ "" →
  starts_with Js.is_digit rest = false →
  convertIssues c (pre +:+ String p (String "#" (n +:+ rest)))
  = convertIssues c (pre +:+ String p "")
    +:+ issueReplacer c n
    +:+ resume (localRef "#" Digits)
               (fun m => issueReplacer c (show (group m 0)))
               (prev_after (Some "#"%char) n) rest
  ∧ (∀ im m, issueMap c = Some im → im !! Js.parseInt n = Some m →
             issueReplacer c n = "#" +:+ Js.toString m)
  ∧ (issueMap c = None
     ∨ (∃ im, issueMap c = Some im ∧ im !! Js.parseInt n = None) →
     issueReplacer c n = "#" +:+ n)
  ∧ (plain (pre +:+ String p rest) = true →
     literal_keys settings → project_paths settings →
     attribution_added add_line item = false →
     fst (convertBody settings md5_hex toLocaleString c
            (pre +:+ String p (String "#" (n +:+ rest))) item add_line)
     = pre +:+ String p (issueReplacer c n +:+ rest)).
Proof.
  intros Hp Hn Hne Hrest.
  assert (convertIssues c (pre +:+ String p (String "#" (n +:+ rest)))
          = convertIssues c (pre +:+ String p "")
            +:+ issueReplacer c n
            +:+ resume (localRef "#" Digits)
                       (fun m => issueReplacer c (show (group m 0)))
                       (prev_after (Some "#"%char) n) rest) as Hpass.
  { unfold convertIssues, replace.
    apply (localRef_digits_pass "#"
             (fun m => issueReplacer c (show (group m 0)))); done. }
  split; [exact Hpass|].
  split; [intros im m; apply issueReplacer_found|].
  split; [apply issueReplacer_absent|].
  intros Hplain _ Hpaths Hadd.
  rewrite convertBody_not_added by done.
  pose proof (digits_plain n Hn) as Hnplain.
  destruct (issueReplacer_form c n Hnplain) as (x & Hx & Hxplain).
  assert (convertReferences settings c
            (pre +:+ String p (String "#" (n +:+ rest)))
          = pre +:+ String p (issueReplacer c n +:+ rest)) as ->.
  { unfold convertReferences.
    rewrite convertMentions_absent by (by apply has_char_around).
    rewrite convertScopedIssues_absent
      by (right; split; [done|by apply has_char_around]).
    rewrite Hpass.
    assert (plain pre = true ∧ negb (is_special p) = true
            ∧ plain rest = true) as (Hpre & Hpp & Hrestp).
    { rewrite plain_app in Hplain.
      apply andb_true_iff in Hplain as [? [? ?]%andb_true_iff]. done. }
    rewrite convertIssues_absent.
    2:{ apply plain_has_char; [|done]. rewrite plain_app, Hpre.
        change (plain (String p "")) with (negb (is_special p) && true).
        by rewrite Hpp. }
    unfold resume. rewrite (replace_from_absent "#")
      by (apply localRef_needs || by apply plain_has_char).
    rewrite string_app_assoc. simpl. rewrite Hx.
    rewrite convertScopedMilestones_absent
      by (left; by apply has_char_around).
    rewrite convertMilestoneTitles_absent
      by (left; by apply has_char_around).
    rewrite convertMilestoneNumbers_absent by (by apply has_char_around).
    rewrite convertScopedMergeRequests_absent
      by (left; by apply has_char_around).
    by rewrite convertMergeRequests_absent by (by apply has_char_around). }
  destruct (transfer_attachments settings); [|done].
  rewrite convertAttachments_absent; [done|].
  rewrite Hx. by apply has_char_around.
Qed.

Lemma C3_issue_reference_rewritten_witness :
  fst (convertBody sample_settings (fun x => x) (fun x => x)
         (with_maps [] {[3 := Js.Num 42]} ∅) "see #3"
         (sample_item 1 "first") false)
  = "see #42"
  ∧ fst (convertBody sample_settings (fun x => x) (fun x => x)
           (with_maps [] {[3 := Js.Num 42]} ∅) "see #99"
           (sample_item 1 "first") false)
    = "see #99".
Proof.
  split.
  - refine (proj2 (proj2 (proj2
      (C3_issue_reference_rewritten sample_settings (fun x => x)
         (fun x => x) (with_maps [] {[3 := Js.Num 42]} ∅)
         (sample_item 1 "first") false "see" " " "3" "" _ _ _ _))) _ _ _ _);
      try reflexivity; try done.
    + unfold literal_keys. simpl. repeat constructor.
    + unfold project_paths. simpl. repeat constructor.
  - refine (proj2 (proj2 (proj2
      (C3_issue_reference_rewritten sample_settings (fun x => x)
         (fun x => x) (with_maps [] {[3 := Js.Num 42]} ∅)
         (sample_item 1 "first") false "see" " " "99" "" _ _ _ _))) _ _ _ _);
      try reflexivity; try done.
    + unfold literal_keys. simpl. repeat constructor.
    + unfold project_paths. simpl. repeat constructor.
Defined.

(** ** Milestone references *)


Lemma milestoneReplacer_unresolved_title c title_ repo :
  milestoneMap c = None
  ∨ (∃ mm, milestoneMap c = Some mm
           ∧ List.find (fun m => String.eqb (title m) title_)
                       (JsMap.values mm) = None) →
  milestoneReplacer c "" title_ repo
  = "'Reference to deleted milestone %" +:+ title_ +:+ "'".
Proof.
  unfold milestoneReplacer, truthy. simpl.
  intros [->|(mm & -> & Hfind)]; [done|].
  rewrite Hfind. by destruct (negb (bool_decide (title_ = ""))).
Qed.


(** ** Scoped references *)

(** An alternative other than the first leaves the first two capture
    groups unset, and these are the groups the replacer reads. *)
Lemma scoped_alternatives_later sigil t after :
  ∀ before s m,
    before ≠ [] →
    scoped_alternatives sigil t before after s = Some m →
    group m 0 = None ∧ group m 1 = None.
Proof.
  induction after as [|key after IH]; intros before s m Hne; simpl; [done|].
  destruct (scoped_alternative sigil t key s) as [[whole captured]|].
  - intros [= <-]. unfold group. simpl.
    destruct before as [|b before]; [done|]. simpl.
    replace (length before + S (length before + 0))%nat
      with (S (length before + (length before + 0)))%nat by lia.
    done.
  - apply IH. by destruct before.
Qed.

Lemma scopedReplacer_later_alternative settings sigil t before after s m :
  before ≠ [] →
  scoped_alternatives sigil t before after s = Some m →
  prop (projectmap settings) "undefined" = None →
  scopedReplacer settings m = "undefined#undefined".
Proof.
  intros Hne Hm Hundef.
  destruct (scoped_alternatives_later _ _ _ _ _ _ Hne Hm) as [H0 H1].
  unfold scopedReplacer. rewrite H0, H1.
  change (show None) with "undefined". by rewrite Hundef.
Qed.

(** C4 (the code departs from the specification). With two projects in
    the project map, a reference into the second comes out as
    ["undefined#undefined"]: neither the destination project nor the
    number survives.  A reference into the first project is rewritten as
    specified. *)
Theorem C4_second_project_reference_undefined :
  keys (projectmap sample_settings) = ["otherorg/repo"; "thirdorg/repo"]
  ∧ fst (convertBody sample_settings (fun x => x) (fun x => x)
           sample_converter "otherorg/repo#5" (sample_item 1 "first") false)
    = "dest/repo#5"
  ∧ fst (convertBody sample_settings (fun x => x) (fun x => x)
           sample_converter "thirdorg/repo#5" (sample_item 1 "first") false)
    = "undefined#undefined".
Proof. by vm_compute. Qed.

(** ** Determinism of [convertBody] *)

Lemma convertAttachments_collect_table sh l :
  ∀ am am' (o2a : gmap nat string),
    snd (foldl (convertAttachments_collect sh) (am, o2a) l)
    = snd (foldl (convertAttachments_collect sh) (am', o2a) l).
Proof.
  induction l as [|[index m] l IH]; intros am am' o2a; [done|].
  simpl. apply IH.
Qed.

Lemma convertAttachments_text c c' body :
  storageHelper c = storageHelper c' →
  fst (convertAttachments c body) = fst (convertAttachments c' body).
Proof.
  intros Hsh. unfold convertAttachments. rewrite Hsh.
  pose proof (convertAttachments_collect_table (storageHelper c')
                (matchAll attachmentRegExp body)
                (attachmentMap c) (attachmentMap c') ∅) as Htable.
  destruct (foldl _ (attachmentMap c, ∅) _) as [am1 t1].
  destruct (foldl _ (attachmentMap c', ∅) _) as [am2 t2].
  simpl in *. by subst.
Qed.

Lemma convertReferences_same settings c c' str :
  same_configuration c c' →
  convertReferences settings c str = convertReferences settings c' str.
Proof.
  intros (Hgh & Hgl & Hsh & Hmm & Him & Hmr).
  destruct c, c'. simpl in *. by subst.
Qed.

(** C9. The text [convertBody] returns is a function of the text, the
    entity and the switch it is given, of the settings, of the two helpers
    with the storage helper and of the three identifier maps.  The one
    field of the converter a call writes, the attachment registry, has no
    part in it: two converters that differ in the registry only return the
    same text. *)
Theorem C9_convertBody_deterministic (settings : Settings)
    (md5_hex toLocaleString : string → string) (c c' : RepoConverter)
    (str : string) (item : GitLabItem) (add_line : bool) :
  same_configuration c c' →
  fst (convertBody settings md5_hex toLocaleString c str item add_line)
  = fst (convertBody settings md5_hex toLocaleString c' str item add_line).
Proof.
  intros Hsame. unfold convertBody.
  rewrite (convertReferences_same settings c c') by done.
  destruct Hsame as (-> & _ & Hsh & _).
  destruct (transfer_attachments settings); [|done].
  by apply convertAttachments_text.
Qed.

Lemma C9_convertBody_deterministic_witness :
  same_configuration
    sample_converter
    (snd (convertBody sample_settings (fun x => x) (fun x => x)
            sample_converter "![x](/uploads/a.png) and #1"
            (sample_item 1 "first") false))
  ∧ fst (convertBody sample_settings (fun x => x) (fun x => x)
           sample_converter "![x](/uploads/a.png) and #1"
           (sample_item 1 "first") false)
    = fst (convertBody sample_settings (fun x => x) (fun x => x)
             (snd (convertBody sample_settings (fun x => x) (fun x => x)
                     sample_converter "![x](/uploads/a.png) and #1"
                     (sample_item 1 "first") false))
             "![x](/uploads/a.png) and #1" (sample_item 1 "first") false).
Proof.
  assert (same_configuration
            sample_converter
            (snd (convertBody sample_settings (fun x => x) (fun x => x)
                    sample_converter "![x](/uploads/a.png) and #1"
                    (sample_item 1 "first") false))) as Hsame
    by (repeat split; reflexivity).
  split; [exact Hsame|].
  exact (C9_convertBody_deterministic sample_settings (fun x => x)
           (fun x => x) _ _ _ _ _ Hsame).
Defined.

(** A call leaves everything but the registry as it was, so a second call
    with the same arguments returns the text of the first. *)
Lemma convertBody_keeps_configuration settings md5_hex toLocaleString c str
    item add_line :
  same_configuration
    c (snd (convertBody settings md5_hex toLocaleString c str item add_line)).
Proof.
  unfold convertBody. destruct (transfer_attachments settings);
    [|by repeat split].
  unfold convertAttachments. destruct (foldl _ _ _). by repeat split.
Qed.

Lemma convertBody_twice settings md5_hex toLocaleString c str item add_line :
  fst (convertBody settings md5_hex toLocaleString
         (snd (convertBody settings md5_hex toLocaleString c str item
                           add_line))
         str item add_line)
  = fst (convertBody settings md5_hex toLocaleString c str item add_line).
Proof.
  destruct (convertBody_keeps_configuration settings md5_hex toLocaleString
              c str item add_line) as (Hgh & Hgl & Hsh & Hmm & Him & Hmr).
  set (c1 := snd (convertBody settings md5_hex toLocaleString c str item
                              add_line)) in *.
  unfold convertBody. rewrite <-Hgh.
  rewrite (convertReferences_same settings c1 c) by (by repeat split).
  destruct (transfer_attachments settings); [|done].
  by apply convertAttachments_text.
Qed.

(** ** The attachment registry *)

Lemma PassThroughStorageHelper_origin gl url :
  origin (preprocessAttachment (PassThroughStorageHelper gl) url) = url.
Proof. reflexivity. Qed.

Lemma S3Helper_origin sha256_hex mime_lookup basename bucket prefix url :
  origin (preprocessAttachment
            (S3Helper sha256_hex mime_lookup basename bucket prefix) url)
  = url.
Proof. reflexivity. Qed.

Lemma matchAll_from_offsets re s :
  ∀ prev skip offset om,
    om ∈ matchAll_from re prev skip offset s → (offset ≤ fst om)%nat.
Proof.
  induction s as [|x s IH]; intros prev skip offset om;
    [by intros ?%elem_of_nil|].
  cbn [matchAll_from]. destruct skip as [|skip].
  - destruct (re prev (String x s)) as [m|].
    + intros [->|Hin%IH]%elem_of_cons; simpl; lia.
    + intros Hin%IH. lia.
  - intros Hin%IH. lia.
Qed.

Lemma matchAll_from_NoDup re s :
  ∀ prev skip offset, NoDup (matchAll_from re prev skip offset s).*1.
Proof.
  induction s as [|x s IH]; intros prev skip offset; [constructor|].
  cbn [matchAll_from]. destruct skip as [|skip]; [|apply IH].
  destruct (re prev (String x s)) as [m|]; [|apply IH].
  rewrite fmap_cons. constructor; [|apply IH].
  intros ([o m'] & Heq & Hin%matchAll_from_offsets)%list_elem_of_fmap.
  simpl in *. lia.
Qed.

Lemma convertAttachments_collect_other sh l :
  ∀ am (o2a : gmap nat string) index,
    index ∉ l.*1 →
    snd (foldl (convertAttachments_collect sh) (am, o2a) l) !! index
    = o2a !! index.
Proof.
  induction l as [|[o m] l IH]; intros am o2a index Hnotin; [done|].
  rewrite fmap_cons, not_elem_of_cons in Hnotin.
  destruct Hnotin as [Hne Hnotin].
  simpl in *. rewrite IH by done. by rewrite lookup_insert_ne.
Qed.

(** The table from offsets to links holds, at the offset of each match,
    the link for that match. *)
Lemma convertAttachments_collect_lookup sh l :
  ∀ am (o2a : gmap nat string) index m,
    NoDup l.*1 → (index, m) ∈ l →
    snd (foldl (convertAttachments_collect sh) (am, o2a) l) !! index
    = Some (attachment_link sh m).
Proof.
  induction l as [|[o m0] l IH]; intros am o2a index m Hnd Hin;
    [by apply elem_of_nil in Hin|].
  rewrite fmap_cons in Hnd. apply NoDup_cons in Hnd as [Ho Hnd].
  apply elem_of_cons in Hin as [[= -> ->]|Hin]; simpl in *.
  - rewrite convertAttachments_collect_other by done.
    by rewrite lookup_insert_eq.
  - by apply IH.
Qed.

(** Replacing by a table of offsets that holds the right text at the offset
    of every match is replacing by that text. *)
Lemma replace_from_table re (table : gmap nat string)
    (link : RegExpMatch → string) s :
  ∀ prev skip offset,
    (∀ index m, (index, m) ∈ matchAll_from re prev skip offset s →
                table !! index = Some (link m)) →
    replace_from re (fun _ index => show (table !! index)) prev skip offset s
    = replace_from re (fun m _ => link m) prev skip offset s.
Proof.
  induction s as [|x s IH]; intros prev skip offset Htable; [done|].
  cbn [replace_from matchAll_from] in *. destruct skip as [|skip].
  - destruct (re prev (String x s)) as [m|].
    + rewrite (Htable offset m) by by left. simpl. f_equal.
      apply IH. intros index m' Hin. apply Htable. by right.
    + f_equal. by apply IH.
  - by apply IH.
Qed.

(** The text [convertAttachments] returns: each attachment link with its
    target replaced by the destination of its URL. *)
Lemma convertAttachments_links c body :
  fst (convertAttachments c body)
  = replace attachmentRegExp
            (fun m _ => attachment_link (storageHelper c) m) body.
Proof.
  unfold convertAttachments.
  pose proof (convertAttachments_collect_lookup (storageHelper c)
                (matchAll attachmentRegExp body) (attachmentMap c) ∅)
    as Hlookup.
  destruct (foldl _ (attachmentMap c, ∅) _) as [am table]. simpl in *.
  unfold replace. apply replace_from_table. intros index m Hin.
  apply Hlookup; [apply matchAll_from_NoDup | done].
Qed.

Lemma convertAttachments_collect_registry sh l :
  (∀ url, origin (preprocessAttachment sh url) = url) →
  ∀ am (o2a : gmap nat string) k,
    fst (foldl (convertAttachments_collect sh) (am, o2a) l) !! k
    = if decide (k ∈ (fun om => show (group (snd om) 2)) <$> l)
      then Some (preprocessAttachment sh k)
      else am !! k.
Proof.
  intros Horigin. induction l as [|[o m] l IH]; intros am o2a k; [done|].
  simpl. rewrite IH, Horigin. rewrite lookup_insert.
  repeat case_decide; try done; subst;
    rewrite ?elem_of_cons in *; simpl in *; intuition congruence.
Qed.

(** The registry after [convertAttachments]: an entry for each URL of the
    body, holding what the storage helper computes for it, and the entries
    it had for other keys. *)
Lemma convertAttachments_registry c body k :
  (∀ url, origin (preprocessAttachment (storageHelper c) url) = url) →
  storageHelper (snd (convertAttachments c body)) = storageHelper c
  ∧ attachmentMap (snd (convertAttachments c body)) !! k
    = if decide (k ∈ attachment_urls body)
      then Some (preprocessAttachment (storageHelper c) k)
      else attachmentMap c !! k.
Proof.
  intros Horigin. unfold convertAttachments, attachment_urls.
  pose proof (convertAttachments_collect_registry (storageHelper c)
                (matchAll attachmentRegExp body) Horigin (attachmentMap c)
                ∅ k) as Hreg.
  destruct (foldl _ (attachmentMap c, ∅) _) as [am table]. by simpl in *.
Qed.

Lemma convertAttachments_all_spec bodies :
  ∀ c,
    (∀ url, origin (preprocessAttachment (storageHelper c) url) = url) →
    fst (convertAttachments_all c bodies)
    = (fun body => replace attachmentRegExp
                           (fun m _ => attachment_link (storageHelper c) m)
                           body) <$> bodies
    ∧ storageHelper (snd (convertAttachments_all c bodies)) = storageHelper c
    ∧ ∀ k, attachmentMap (snd (convertAttachments_all c bodies)) !! k
           = if decide (k ∈ concat (attachment_urls <$> bodies))
             then Some (preprocessAttachment (storageHelper c) k)
             else attachmentMap c !! k.
Proof.
  induction bodies as [|body bodies IH]; intros c Horigin; [done|].
  cbn [convertAttachments_all].
  pose proof (convertAttachments_links c body) as Htext.
  pose proof (fun k => convertAttachments_registry c body k Horigin) as Hreg.
  destruct (convertAttachments c body) as [text c1]. simpl in Htext, Hreg.
  destruct (Hreg "") as [Hsh _].
  destruct (IH c1) as (IH1 & IH2 & IH3); [by rewrite Hsh|].
  destruct (convertAttachments_all c1 bodies) as [texts c2]. simpl in *.
  rewrite IH1, IH2, Htext, Hsh. split; [done|]. split; [done|].
  intros k. rewrite IH3, Hsh. destruct (Hreg k) as [_ ->].
  repeat case_decide; try done; rewrite ?elem_of_app in *; tauto.
Qed.

(** C7. Bodies pass through [convertAttachments] one after the other, the
    storage helper reporting each URL as the origin of its own metadata (as
    both helpers do).  Then, for every URL referred to in any of the
    bodies, the registry ends with the entry of that key, holding what the
    helper computes for the URL; every attachment link is rewritten to the
    destination the helper computes for its URL, a function of the URL
    alone, so all occurrences of one URL get one destination; entries for
    other keys are as before; and however the run goes on, the entry of a
    URL already seen stays what it is. *)
Theorem C7_attachment_registry (c : RepoConverter) (bodies : list string) :
  (∀ url, origin (preprocessAttachment (storageHelper c) url) = url) →
  (∀ url, url ∈ concat (attachment_urls <$> bodies) →
     attachmentMap (snd (convertAttachments_all c bodies)) !! url
     = Some (preprocessAttachment (storageHelper c) url))
  ∧ fst (convertAttachments_all c bodies)
    = (fun body => replace attachmentRegExp
                           (fun m _ => attachment_link (storageHelper c) m)
                           body) <$> bodies
  ∧ (∀ key, key ∉ concat (attachment_urls <$> bodies) →
       attachmentMap (snd (convertAttachments_all c bodies)) !! key
       = attachmentMap c !! key)
  ∧ (∀ more url, url ∈ concat (attachment_urls <$> bodies) →
       attachmentMap (snd (convertAttachments_all c (bodies ++ more))) !! url
       = attachmentMap (snd (convertAttachments_all c bodies)) !! url).
Proof.
  intros Horigin.
  destruct (convertAttachments_all_spec bodies c Horigin) as (H1 & _ & H3).
  split; [|split; [exact H1|split]].
  - intros url Hin. rewrite H3. by rewrite decide_True.
  - intros key Hnotin. rewrite H3. by rewrite decide_False.
  - intros more url Hin.
    destruct (convertAttachments_all_spec (bodies ++ more) c Horigin)
      as (_ & _ & H3').
    rewrite H3, H3', fmap_app, concat_app.
    rewrite (decide_True _ _ Hin).
    by rewrite decide_True by (apply elem_of_app; by left).
Qed.

Lemma C7_attachment_registry_witness :
  fst (convertAttachments_all fresh_converter
         ["![x](/uploads/a.png)"; "see ![x](/uploads/a.png)"])
  = ["![x](https://gitlab.com/group/project/uploads/a.png)";
     "see ![x](https://gitlab.com/group/project/uploads/a.png)"]
  ∧ map_to_list (attachmentMap (snd (convertAttachments_all fresh_converter
         ["![x](/uploads/a.png)"; "see ![x](/uploads/a.png)"])))
    = [("/uploads/a.png",
        {| origin := "/uploads/a.png";
           destination := "https://gitlab.com/group/project/uploads/a.png";
           mimeType := None |})]
  ∧ attachmentMap (snd (convertAttachments_all fresh_converter
         ["![x](/uploads/a.png)"; "see ![x](/uploads/a.png)"]))
    !! "/uploads/a.png"
    = Some (preprocessAttachment (storageHelper fresh_converter)
                                 "/uploads/a.png").
Proof.
  split; [by vm_compute|]. split; [by vm_compute|].
  refine (proj1 (C7_attachment_registry fresh_converter
                   ["![x](/uploads/a.png)"; "see ![x](/uploads/a.png)"] _)
                "/uploads/a.png" _).
  - intros url. reflexivity.
  - refine (bool_decide_unpack _ _). vm_compute. exact I.
Defined.

(** * Further properties of the code *)

(** ** The loops of the driver, in full *)

(** The loop with placeholders also fills the array: behind the items
    already passed come the numbers from the current index to the last
    [iid], without a gap, and no item is lost. *)
Lemma splice_loop_array (dest : Z → Js.number) :
  ∀ fuel rest i passed (map : gmap Z Js.number),
    StronglySorted Z.lt (i :: (item_iid <$> rest)) →
    last_from i (item_iid <$> rest) - i ≤ Z.of_nat fuel →
    ∃ passed' map',
      splice_loop dest true fuel i passed rest map = Some (passed', map')
      ∧ item_iid <$> passed'
        = (item_iid <$> passed)
          ++ seqZ (i + 1) (last_from i (item_iid <$> rest) - i)
      ∧ ∀ x, x ∈ passed ∨ x ∈ rest → x ∈ passed'.
Proof.
  induction fuel as [|fuel IH]; intros rest i passed map Hs Hfuel.
  - destruct rest as [|item rest].
    + do 2 eexists. split; [done|]. unfold last_from. simpl.
      rewrite seqZ_nil by lia. rewrite app_nil_r. split; [done|].
      intros x [?|Hx]; [done|]. by apply elem_of_nil in Hx.
    + exfalso. pose proof (last_from_upper _ _ Hs) as Hup.
      apply Forall_cons in Hup as [Hup _].
      apply StronglySorted_inv in Hs as [_ [Hlt _]%Forall_cons]. lia.
  - destruct rest as [|item rest].
    + do 2 eexists. split; [done|]. unfold last_from. simpl.
      rewrite seqZ_nil by lia. rewrite app_nil_r. split; [done|].
      intros x [?|Hx]; [done|]. by apply elem_of_nil in Hx.
    + pose proof (last_from_upper _ _ Hs) as Hup.
      apply Forall_cons in Hup as [Hup _].
      pose proof Hs as Hs'.
      apply StronglySorted_inv in Hs' as [Hs' [Hlt Hall]%Forall_cons].
      cbn [splice_loop andb]. rewrite fmap_cons, last_from_cons in *.
      destruct (Z.eqb_spec (item_iid item) (i + 1)) as [Heq|Hne]; simpl.
      * rewrite Heq in *.
        destruct (IH rest (i + 1) (passed ++ [item])
                    (<[i + 1 := dest (i + 1)]> map))
          as (p' & m' & -> & Hp' & Hin); [done | lia |].
        do 2 eexists. split; [done|]. split.
        -- rewrite Hp', fmap_app, <- app_assoc. simpl. rewrite Heq.
           f_equal.
           set (L := last_from (i + 1) (item_iid <$> rest)) in *.
           rewrite (seqZ_cons (i + 1)) by lia.
           replace (Z.succ (i + 1)) with (i + 1 + 1) by lia.
           by replace (Z.pred (L - i)) with (L - (i + 1)) by lia.
        -- intros x [Hx|Hx]; apply Hin.
           ++ left. apply elem_of_app. by left.
           ++ apply elem_of_cons in Hx as [->|Hx]; [|by right].
              left. apply elem_of_app. right. by apply list_elem_of_singleton.
      * destruct (IH (item :: rest) (i + 1)
                    (passed ++ [createPlaceholderData item (i + 1)])
                    (<[i + 1 := dest (i + 1)]> map))
          as (p' & m' & -> & Hp' & Hin).
        { constructor; [done|]. constructor; [lia|].
          apply StronglySorted_inv in Hs' as [_ Hall'].
          eapply Forall_impl; [exact Hall'|]. simpl. lia. }
        { rewrite fmap_cons, last_from_cons. lia. }
        do 2 eexists. split; [done|]. split.
        -- rewrite Hp', fmap_app, <- app_assoc. simpl.
           f_equal. rewrite last_from_cons.
           set (L := last_from (item_iid item) (item_iid <$> rest)) in *.
           rewrite (seqZ_cons (i + 1)) by lia.
           replace (Z.succ (i + 1)) with (i + 1 + 1) by lia.
           by replace (Z.pred (L - i)) with (L - (i + 1)) by lia.
        -- intros x [Hx|Hx]; apply Hin; [|by right].
           left. apply elem_of_app. by left.
Qed.

(** On a listing of distinct positive [iid]s the loop with placeholders
    ends; the array it leaves holds the numbers 1 to [n] in order, [n] the
    largest [iid], every source item among them, and the map sends each of
    these numbers to the destination number of its own index. *)
Lemma splice_loop_sorted_full (dest : Z → Js.number)
    (l : list GitLabItem) (fuel : nat) :
  NoDup (item_iid <$> l) →
  Forall (fun x => 1 ≤ item_iid x ≤ Z.of_nat fuel) l →
  ∃ passed map n,
    splice_loop dest true fuel 0 [] (sort_by_iid l) ∅ = Some (passed, map)
    ∧ item_iid <$> passed = seqZ 1 n
    ∧ (∀ x, x ∈ l → x ∈ passed)
    ∧ (∀ k, map !! k = if bool_decide (1 ≤ k ≤ n) then Some (dest k)
                       else None)
    ∧ Forall (fun x => item_iid x ≤ n) l
    ∧ (l = [] ∧ n = 0 ∨ ∃ x, x ∈ l ∧ item_iid x = n).
Proof.
  intros Hnd Hpos.
  assert (Forall (fun x => 1 ≤ item_iid x) l) as Hpos1.
  { eapply Forall_impl; [exact Hpos|]. simpl. lia. }
  pose proof (sort_by_iid_increasing l Hnd Hpos1) as Hs.
  pose proof (last_from_upper _ _ Hs) as Hup.
  set (sorted := sort_by_iid l) in *.
  set (n := last_from 0 (item_iid <$> sorted)) in *.
  assert (l = [] ∧ n = 0 ∨ ∃ x, x ∈ l ∧ item_iid x = n) as Hn.
  { unfold n, last_from.
    destruct (last (item_iid <$> sorted)) as [k|] eqn:Hl; simpl.
    - right.
      apply last_Some_elem_of, list_elem_of_fmap in Hl as (x & -> & Hx).
      exists x. split; [|done].
      unfold sorted in Hx. by rewrite sort_by_iid_Permutation in Hx.
    - left. split; [|done]. apply last_None in Hl.
      apply fmap_nil_inv in Hl. apply Permutation_nil_r.
      rewrite <- Hl. unfold sorted. by rewrite sort_by_iid_Permutation. }
  assert (n ≤ Z.of_nat fuel) as Hfuel.
  { destruct Hn as [[_ ->]|(x & Hx & <-)]; [lia|].
    pose proof (proj1 (Forall_forall _ _) Hpos x Hx). simpl in *. lia. }
  destruct (splice_loop_placeholders dest fuel sorted 0 [] ∅ Hs)
    as (p' & m' & Hrun & Hm'); [fold n; lia|].
  destruct (splice_loop_array dest fuel sorted 0 [] ∅ Hs)
    as (p'' & m'' & Hrun' & Hp'' & Hin); [fold n; lia|].
  rewrite Hrun in Hrun'. injection Hrun' as <- <-.
  exists p', m', n. split; [done|]. split.
  { rewrite Hp''. simpl. fold n. by rewrite Z.sub_0_r. }
  split.
  { intros x Hx. apply Hin. right. unfold sorted.
    by rewrite sort_by_iid_Permutation. }
  split.
  { intros k. rewrite Hm', lookup_empty. fold n.
    by repeat case_bool_decide; try lia. }
  split; [|done].
  apply Forall_forall. intros x Hx.
  assert (item_iid x ∈ item_iid <$> sorted) as Hin'.
  { apply list_elem_of_fmap_2. unfold sorted.
    by rewrite sort_by_iid_Permutation. }
  exact (proj1 (Forall_forall _ _) Hup _ Hin').
Qed.

(** X1. [transferIssues] with placeholders, on source issues with distinct
    positive [iid]s: the loop ends; the array of issues then holds one
    item for every number from 1 to the largest [iid], in order, all the
    source issues among them, and the issue map sends each of these
    numbers to itself and holds nothing else. *)
Theorem X1_transferIssues_fills_gaps (gl : GitLabHelper) (fuel : nat) :
  NoDup (item_iid <$> allIssues gl) →
  Forall (fun x => 1 ≤ item_iid x ≤ Z.of_nat fuel) (allIssues gl) →
  ∃ issues issueMap n,
    transferIssues_issueMap fuel gl true = Some (issues, issueMap)
    ∧ item_iid <$> issues = seqZ 1 n
    ∧ (∀ x, x ∈ allIssues gl → x ∈ issues)
    ∧ (∀ k, issueMap !! k = if bool_decide (1 ≤ k ≤ n) then Some (Js.Num k)
                            else None)
    ∧ Forall (fun x => item_iid x ≤ n) (allIssues gl)
    ∧ (allIssues gl = [] ∧ n = 0 ∨ ∃ x, x ∈ allIssues gl ∧ item_iid x = n).
Proof. apply splice_loop_sorted_full. Qed.

Lemma X1_transferIssues_fills_gaps_witness :
  ∃ issues issueMap n,
    transferIssues_issueMap 3 sample_gitlab_gaps true
    = Some (issues, issueMap)
    ∧ item_iid <$> issues = seqZ 1 n
    ∧ (∀ x, x ∈ allIssues sample_gitlab_gaps → x ∈ issues)
    ∧ (∀ k, issueMap !! k = if bool_decide (1 ≤ k ≤ n) then Some (Js.Num k)
                            else None)
    ∧ Forall (fun x => item_iid x ≤ n) (allIssues sample_gitlab_gaps)
    ∧ (allIssues sample_gitlab_gaps = [] ∧ n = 0
       ∨ ∃ x, x ∈ allIssues sample_gitlab_gaps ∧ item_iid x = n).
Proof.
  apply (X1_transferIssues_fills_gaps sample_gitlab_gaps 3).
  - refine (bool_decide_unpack _ _). vm_compute. exact I.
  - repeat constructor; simpl; lia.
Defined.

(** X2. [transferMergeRequests] with placeholders, on source merge
    requests with distinct positive [iid]s and a converter whose issue map
    is set: the loop ends; the array holds one item for every number from
    1 to the largest [iid], and the map sends each number [k] to [k] plus
    the largest value of the issue map.  Without an issue map the read of
    its values throws. *)
Theorem X2_transferMergeRequests_fills_gaps (c : RepoConverter)
    (im : gmap Z Js.number) (fuel : nat) :
  issueMap c = Some im →
  NoDup (item_iid <$> allMergeRequests (gitlabHelper c)) →
  Forall (fun x => 1 ≤ item_iid x ≤ Z.of_nat fuel)
         (allMergeRequests (gitlabHelper c)) →
  (∃ mergeRequests mrMap n,
     transferMergeRequests_mrMap fuel c true
     = Ok (Some (mergeRequests, mrMap))
     ∧ item_iid <$> mergeRequests = seqZ 1 n
     ∧ (∀ x, x ∈ allMergeRequests (gitlabHelper c) → x ∈ mergeRequests)
     ∧ (∀ k, mrMap !! k
             = if bool_decide (1 ≤ k ≤ n)
               then Some (Js.add (Js.Num k) (Js.Math_max (map_values im)))
               else None)
     ∧ Forall (fun x => item_iid x ≤ n) (allMergeRequests (gitlabHelper c)))
  ∧ ∀ c' usePlaceholders,
      issueMap c' = None →
      transferMergeRequests_mrMap fuel c' usePlaceholders
      = Throw "Cannot read properties of undefined (reading 'values')".
Proof.
  intros Him Hnd Hpos. split.
  - unfold transferMergeRequests_mrMap. rewrite Him.
    destruct (splice_loop_sorted_full
                (fun e => Js.add (Js.Num e) (Js.Math_max (map_values im)))
                (allMergeRequests (gitlabHelper c)) fuel Hnd Hpos)
      as (p & m & n & -> & H1 & H2 & H3 & H4 & _).
    by exists p, m, n.
  - intros c' up Hnone. unfold transferMergeRequests_mrMap. by rewrite Hnone.
Qed.

Lemma X2_transferMergeRequests_fills_gaps_witness :
  ∃ mergeRequests mrMap n,
    transferMergeRequests_mrMap 3 sample_converter_gaps true
    = Ok (Some (mergeRequests, mrMap))
    ∧ item_iid <$> mergeRequests = seqZ 1 n
    ∧ (∀ x, x ∈ allMergeRequests (gitlabHelper sample_converter_gaps)
            → x ∈ mergeRequests)
    ∧ (∀ k, mrMap !! k
            = if bool_decide (1 ≤ k ≤ n)
              then Some (Js.add (Js.Num k)
                           (Js.Math_max (map_values
                              {[1 := Js.Num 1; 2 := Js.Num 2;
                                3 := Js.Num 3]})))
              else None)
    ∧ Forall (fun x => item_iid x ≤ n)
             (allMergeRequests (gitlabHelper sample_converter_gaps)).
Proof.
  refine (proj1 (X2_transferMergeRequests_fills_gaps sample_converter_gaps
                   {[1 := Js.Num 1; 2 := Js.Num 2; 3 := Js.Num 3]} 3 _ _ _)).
  - reflexivity.
  - refine (bool_decide_unpack _ _). vm_compute. exact I.
  - repeat constructor; simpl; lia.
Defined.

(** The loop when no placeholder is called for (the switch is off, or every
    [iid] is the expected index): the array stays as it is, and the item at
    index [j] of what is left is sent to the destination number of index
    [i + j + 1]. *)
Lemma splice_loop_no_placeholder (dest : Z → Js.number) (up : bool) :
  ∀ rest fuel i passed (map : gmap Z Js.number),
    (length rest ≤ fuel)%nat →
    (up = true →
     ∀ j x, rest !! j = Some x → item_iid x = i + Z.of_nat j + 1) →
    NoDup (item_iid <$> rest) →
    ∃ map',
      splice_loop dest up fuel i passed rest map = Some (passed ++ rest, map')
      ∧ (∀ j x, rest !! j = Some x
                → map' !! item_iid x = Some (dest (i + Z.of_nat j + 1)))
      ∧ (∀ k, k ∉ item_iid <$> rest → map' !! k = map !! k).
Proof.
  induction rest as [|item rest IH]; intros fuel i passed map Hfuel Hup Hnd.
  - exists map. split; [by destruct fuel; rewrite app_nil_r|].
    split; [intros j x Hx; by rewrite lookup_nil in Hx | done].
  - destruct fuel as [|fuel]; [simpl in Hfuel; lia|].
    rewrite fmap_cons in Hnd. apply NoDup_cons in Hnd as [Hnotin Hnd].
    cbn [splice_loop].
    assert (up && negb (item_iid item =? i + 1) = false) as ->.
    { destruct up; [|done]. simpl.
      rewrite (Hup eq_refl 0%nat item eq_refl).
      apply negb_false_iff, Z.eqb_eq. lia. }
    destruct (IH fuel (i + 1) (passed ++ [item])
                (<[item_iid item := dest (i + 1)]> map))
      as (m' & -> & Hm' & Hother); [simpl in Hfuel; lia | | done |].
    { intros Hu j x Hx. rewrite (Hup Hu (S j) x Hx). lia. }
    exists m'. split; [by rewrite <- app_assoc|]. split.
    + intros [|j] x Hx; simpl in Hx.
      * injection Hx as <-. rewrite Hother by done.
        rewrite lookup_insert_eq. do 2 f_equal. lia.
      * rewrite (Hm' j x Hx). do 2 f_equal. lia.
    + intros k Hk. rewrite fmap_cons, not_elem_of_cons in Hk.
      destruct Hk as [Hne Hk]. rewrite Hother by done.
      by rewrite lookup_insert_ne.
Qed.

(** X3. [transferIssues] without placeholders, on source issues with
    distinct [iid]s: the loop ends within as many turns as there are
    issues, leaves the sorted array as it is and numbers the issues
    consecutively, the issue with the [j]-th smallest [iid] being sent to
    [j]; no other number is a key. *)
Theorem X3_transferIssues_renumbers (gl : GitLabHelper) (fuel : nat) :
  NoDup (item_iid <$> allIssues gl) →
  (length (allIssues gl) ≤ fuel)%nat →
  ∃ issueMap,
    transferIssues_issueMap fuel gl false
    = Some (sort_by_iid (allIssues gl), issueMap)
    ∧ (∀ j x, sort_by_iid (allIssues gl) !! j = Some x
              → issueMap !! item_iid x = Some (Js.Num (Z.of_nat j + 1)))
    ∧ (∀ k, k ∉ item_iid <$> allIssues gl → issueMap !! k = None).
Proof.
  intros Hnd Hfuel. unfold transferIssues_issueMap.
  destruct (splice_loop_no_placeholder Js.Num false
              (sort_by_iid (allIssues gl)) fuel 0 [] ∅)
    as (m' & -> & Hm' & Hother).
  - by rewrite sort_by_iid_Permutation.
  - done.
  - by rewrite sort_by_iid_Permutation.
  - exists m'. split; [done|]. split.
    + intros j x Hx. by rewrite (Hm' j x Hx).
    + intros k Hk. rewrite Hother; [done|].
      by rewrite sort_by_iid_Permutation.
Qed.

Lemma X3_transferIssues_renumbers_witness :
  ∃ issueMap,
    transferIssues_issueMap 2 sample_gitlab_gaps false
    = Some (sort_by_iid (allIssues sample_gitlab_gaps), issueMap)
    ∧ (∀ j x, sort_by_iid (allIssues sample_gitlab_gaps) !! j = Some x
              → issueMap !! item_iid x = Some (Js.Num (Z.of_nat j + 1)))
    ∧ (∀ k, k ∉ item_iid <$> allIssues sample_gitlab_gaps
            → issueMap !! k = None).
Proof.
  apply (X3_transferIssues_renumbers sample_gitlab_gaps 2).
  - refine (bool_decide_unpack _ _). vm_compute. exact I.
  - simpl. lia.
Defined.

(** The loop of [buildMergeRequestMap] computes what the loop of the
    driver computes as long as no placeholder is called for. *)
Lemma buildMergeRequestMap_loop_splice (last : Js.number) (up : bool) :
  ∀ rest fuel i passed (map : gmap Z Js.number),
    (length rest ≤ fuel)%nat →
    (up = true →
     ∀ j x, rest !! j = Some x → item_iid x = i + Z.of_nat j + 1) →
    splice_loop (fun e => Js.add (Js.Num e) last) up fuel i passed rest map
    = Some (passed ++ rest, buildMergeRequestMap_loop up last i rest map).
Proof.
  induction rest as [|item rest IH]; intros fuel i passed map Hfuel Hup.
  - by destruct fuel; rewrite app_nil_r.
  - destruct fuel as [|fuel]; [simpl in Hfuel; lia|].
    cbn [splice_loop buildMergeRequestMap_loop].
    assert (up && negb (item_iid item =? i + 1) = false) as ->.
    { destruct up; [|done]. simpl.
      rewrite (Hup eq_refl 0%nat item eq_refl).
      apply negb_false_iff, Z.eqb_eq. lia. }
    rewrite IH; [by rewrite <- app_assoc | simpl in Hfuel; lia |].
    intros Hu j x Hx. rewrite (Hup Hu (S j) x Hx). lia.
Qed.

(** X4. The two builders of the merge request map, the one of the
    converter and the one of the driver, build the same map when
    placeholders are off, and also when they are on and the sorted [iid]s
    are 1, 2, ... without a gap. *)
Theorem X4_merge_request_builders_agree (c : RepoConverter)
    (im : gmap Z Js.number) (usePlaceholders : bool) (fuel : nat) :
  issueMap c = Some im →
  (length (allMergeRequests (gitlabHelper c)) ≤ fuel)%nat →
  (usePlaceholders = true →
   item_iid <$> sort_by_iid (allMergeRequests (gitlabHelper c))
   = seqZ 1 (Z.of_nat (length (allMergeRequests (gitlabHelper c))))) →
  ∃ mrMap,
    buildMergeRequestMap c usePlaceholders = Ok mrMap
    ∧ transferMergeRequests_mrMap fuel c usePlaceholders
      = Ok (Some (sort_by_iid (allMergeRequests (gitlabHelper c)), mrMap)).
Proof.
  intros Him Hfuel Hseq.
  unfold buildMergeRequestMap, transferMergeRequests_mrMap. rewrite Him.
  eexists. split; [done|].
  rewrite (buildMergeRequestMap_loop_splice _ usePlaceholders _ fuel 0 [] ∅);
    [done | by rewrite sort_by_iid_Permutation |].
  intros Hu j x Hx. specialize (Hseq Hu).
  assert ((item_iid <$> sort_by_iid (allMergeRequests (gitlabHelper c))) !! j
          = Some (item_iid x)) as Hj by by rewrite list_lookup_fmap, Hx.
  rewrite Hseq in Hj. apply lookup_seqZ in Hj as [-> _]. lia.
Qed.

Lemma X4_merge_request_builders_agree_witness :
  ∃ mrMap,
    buildMergeRequestMap sample_converter_gaps false = Ok mrMap
    ∧ transferMergeRequests_mrMap 2 sample_converter_gaps false
      = Ok (Some (sort_by_iid
                    (allMergeRequests (gitlabHelper sample_converter_gaps)),
                  mrMap)).
Proof.
  apply (X4_merge_request_builders_agree sample_converter_gaps
           {[1 := Js.Num 1; 2 := Js.Num 2; 3 := Js.Num 3]} false 2).
  - reflexivity.
  - simpl. lia.
  - intros H. discriminate H.
Defined.

(** X5. [buildIssueMap] returns the identity on the numbers of the issues
    the destination already holds: a number is a key exactly when a
    destination issue bears it, and it is sent to itself.  Neither the
    source issues nor the placeholder switch have a part in it. *)
Theorem X5_buildIssueMap_identity (c : RepoConverter)
    (usePlaceholders : bool) :
  (∀ k, buildIssueMap c usePlaceholders !! k
        = if decide (k ∈ number <$> allGithubIssues (githubHelper c))
          then Some (Js.Num k) else None)
  ∧ ∀ c' usePlaceholders',
      allGithubIssues (githubHelper c') = allGithubIssues (githubHelper c) →
      buildIssueMap c' usePlaceholders' = buildIssueMap c usePlaceholders.
Proof.
  split.
  - intros k. unfold buildIssueMap.
    assert (∀ l (m : gmap Z Js.number),
              foldl (fun issueMap issue =>
                       <[number issue := Js.Num (number issue)]> issueMap)
                    m l !! k
              = if decide (k ∈ number <$> l) then Some (Js.Num k)
                else m !! k) as Hgen.
    { induction l as [|x l IH]; intros m.
      - cbn [foldl]. case_decide as Hin; [|done]. by apply elem_of_nil in Hin.
      - cbn [foldl]. rewrite IH, fmap_cons.
        destruct (decide (k ∈ number <$> l)) as [Hin|Hnotin].
        + rewrite decide_True; [done|]. by apply elem_of_cons; right.
        + destruct (decide (number x = k)) as [<-|Hne].
          * rewrite lookup_insert_eq, decide_True; [done|].
            by apply elem_of_cons; left.
          * rewrite lookup_insert_ne by done.
            rewrite decide_False; [done|].
            rewrite not_elem_of_cons. split; [congruence | done]. }
    rewrite Hgen. by rewrite lookup_empty.
  - intros c' up' Heq. unfold buildIssueMap. by rewrite Heq.
Qed.

(** ** Numbers given by [buildMilestoneMap] *)

Lemma lastMilestoneId_upper (D : list SimpleItem) :
  ∀ acc, acc ≤ foldl (fun acc m => Z.max acc (iid m)) acc D
         ∧ ∀ d, d ∈ D → iid d ≤ foldl (fun acc m => Z.max acc (iid m)) acc D.
Proof.
  induction D as [|x D IH]; intros acc; simpl.
  - split; [lia|]. intros d Hd. by apply elem_of_nil in Hd.
  - destruct (IH (Z.max acc (iid x))) as [H1 H2]. split; [lia|].
    intros d [->|Hd]%elem_of_cons; [lia | by apply H2].
Qed.

(** The loop of [buildMilestoneMap]: the counter never goes down; a source
    milestone without a match is given a number above the counter as it
    stood before the loop, and above the number given to every unmatched
    milestone before it. *)
Lemma buildMilestoneMap_fold_fresh D up l :
  ∀ st, NoDup (item_iid <$> l) →
    snd st ≤ snd (foldl (buildMilestoneMap_step D up) st l)
    ∧ (∀ s, s ∈ l → foundMilestone D s = None →
         ∃ v, JsMap.get (item_iid s)
                (fst (foldl (buildMilestoneMap_step D up) st l)) = Some v
              ∧ title v = item_title s
              ∧ snd st < iid v
              ∧ (up = true → item_iid s ≤ iid v))
    ∧ (∀ (j j' : nat) s s' v v',
         (j < j')%nat → l !! j = Some s → l !! j' = Some s' →
         foundMilestone D s = None → foundMilestone D s' = None →
         JsMap.get (item_iid s)
           (fst (foldl (buildMilestoneMap_step D up) st l)) = Some v →
         JsMap.get (item_iid s')
           (fst (foldl (buildMilestoneMap_step D up) st l)) = Some v' →
         iid v < iid v').
Proof.
  induction l as [|s l IH]; intros [m last] Hnd.
  - simpl. split; [lia|]. split.
    + intros s Hs. by apply elem_of_nil in Hs.
    + intros j j' s s' v v' _ Hj. by rewrite lookup_nil in Hj.
  - rewrite fmap_cons in Hnd. apply NoDup_cons in Hnd as [Hnotin Hnd].
    cbn [foldl].
    set (st1 := buildMilestoneMap_step D up (m, last) s).
    destruct (IH st1 Hnd) as (Hle & Hnew & Hord).
    assert (last ≤ snd st1) as Hle1.
    { unfold st1, buildMilestoneMap_step.
      destruct (foundMilestone D s); simpl; [lia|]. destruct up; lia. }
    assert (foundMilestone D s = None →
            ∃ v, JsMap.get (item_iid s)
                   (fst (foldl (buildMilestoneMap_step D up) st1 l)) = Some v
                 ∧ title v = item_title s
                 ∧ iid v = snd st1 ∧ last < iid v
                 ∧ (up = true → item_iid s ≤ iid v)) as Hhead.
    { intros Hnone.
      rewrite buildMilestoneMap_fold_get_other by done.
      unfold st1, buildMilestoneMap_step. rewrite Hnone. simpl.
      rewrite JsMap_get_set_eq. eexists. split; [done|]. simpl.
      split; [done|]. split; [done|]. split; [destruct up; lia|].
      intros ->. lia. }
    simpl. split; [lia|]. split.
    + intros s0 [->|Hs0]%elem_of_cons Hnone.
      * destruct (Hhead Hnone) as (v & Hv & Ht & _ & Hlt & Hup).
        by exists v.
      * destruct (Hnew s0 Hs0 Hnone) as (v & Hv & Ht & Hlt & Hup).
        exists v. repeat split; try done. lia.
    + intros [|j] [|j'] s0 s0' v v' Hjj Hj Hj' Hn Hn' Hv Hv'; try lia.
      * simpl in Hj, Hj'. injection Hj as <-.
        destruct (Hhead Hn) as (w & Hw & _ & Hw1 & _).
        rewrite Hv in Hw. injection Hw as <-.
        apply list_elem_of_lookup_2 in Hj'.
        destruct (Hnew s0' Hj' Hn') as (w' & Hw' & _ & Hlt & _).
        rewrite Hv' in Hw'. injection Hw' as <-. lia.
      * simpl in Hj, Hj'.
        eapply (Hord j j' s0 s0' v v'); try done. lia.
Qed.

(** X6. [buildMilestoneMap] gives new numbers that are free: a source
    milestone whose title no destination milestone bears is sent to a number
    above the number of every destination milestone (and, with
    placeholders, not below its own [iid]), under its own title; of two
    such milestones the later in the listing gets the larger number; and a
    source milestone whose title is found is sent to the destination
    milestone found. *)
Theorem X6_buildMilestoneMap_fresh_numbers
    (githubMilestones : list SimpleItem) (gitlabMilestones : list GitLabItem)
    (usePlaceholders : bool) :
  NoDup (item_iid <$> gitlabMilestones) →
  (∀ s, s ∈ gitlabMilestones → foundMilestone githubMilestones s = None →
     ∃ v, JsMap.get (item_iid s)
            (buildMilestoneMap_on githubMilestones gitlabMilestones
                                  usePlaceholders) = Some v
          ∧ title v = item_title s
          ∧ (∀ d, d ∈ githubMilestones → iid d < iid v)
          ∧ (usePlaceholders = true → item_iid s ≤ iid v))
  ∧ (∀ (j j' : nat) s s' v v',
       (j < j')%nat →
       gitlabMilestones !! j = Some s → gitlabMilestones !! j' = Some s' →
       foundMilestone githubMilestones s = None →
       foundMilestone githubMilestones s' = None →
       JsMap.get (item_iid s)
         (buildMilestoneMap_on githubMilestones gitlabMilestones
                               usePlaceholders) = Some v →
       JsMap.get (item_iid s')
         (buildMilestoneMap_on githubMilestones gitlabMilestones
                               usePlaceholders) = Some v' →
       iid v < iid v')
  ∧ (∀ s f, s ∈ gitlabMilestones →
       foundMilestone githubMilestones s = Some f →
       JsMap.get (item_iid s)
         (buildMilestoneMap_on githubMilestones gitlabMilestones
                               usePlaceholders) = Some f).
Proof.
  intros Hnd. unfold buildMilestoneMap_on.
  set (last := foldl (fun acc m => Z.max acc (iid m)) 0 githubMilestones).
  destruct (buildMilestoneMap_fold_fresh githubMilestones usePlaceholders
              gitlabMilestones (JsMap.empty, last) Hnd)
    as (_ & Hnew & Hord).
  split; [|split].
  - intros s Hs Hnone.
    destruct (Hnew s Hs Hnone) as (v & Hv & Ht & Hlt & Hup).
    exists v. repeat split; try done.
    intros d Hd.
    pose proof (proj2 (lastMilestoneId_upper githubMilestones 0) d Hd).
    simpl in Hlt. fold last in H. lia.
  - exact Hord.
  - intros s f Hs Hf.
    destruct (buildMilestoneMap_fold_get githubMilestones usePlaceholders
                gitlabMilestones (JsMap.empty, last) s Hnd Hs)
      as (v & Hv & _ & Hfound).
    by rewrite Hv, (Hfound f Hf).
Qed.

Lemma X6_buildMilestoneMap_fresh_numbers_witness :
  ∃ v, JsMap.get 1 (buildMilestoneMap_on destination_milestones
                                         distinct_milestones true) = Some v
       ∧ title v = "v1.0"
       ∧ (∀ d, d ∈ destination_milestones → iid d < iid v)
       ∧ (true = true → 1 ≤ iid v).
Proof.
  refine (proj1 (X6_buildMilestoneMap_fresh_numbers
                   destination_milestones distinct_milestones true _)
                (sample_item 1 "v1.0") _ _).
  - refine (bool_decide_unpack _ _). vm_compute. exact I.
  - repeat constructor.
  - reflexivity.
Defined.

(** [buildMilestoneMap] with placeholders, against a destination
    without milestones and a source listing in increasing order of
    positive [iid]s: every source milestone keeps its number and its
    title. *)
Lemma buildMilestoneMap_on_keeps_numbers
    (gitlabMilestones : list GitLabItem) :
  StronglySorted Z.lt (0 :: (item_iid <$> gitlabMilestones)) →
  ∀ s, s ∈ gitlabMilestones →
    JsMap.get (item_iid s) (buildMilestoneMap_on [] gitlabMilestones true)
    = Some {| iid := item_iid s; title := item_title s;
              description := None; state := None |}.
Proof.
  unfold buildMilestoneMap_on. simpl.
  generalize (JsMap.empty (V:=SimpleItem)). generalize 0.
  induction gitlabMilestones as [|x l IH]; intros last m Hs s Hin.
  - by apply elem_of_nil in Hin.
  - rewrite fmap_cons in Hs.
    apply StronglySorted_inv in Hs as [Hs' [Hlt Hall]%Forall_cons].
    assert (buildMilestoneMap_step [] true (m, last) x
            = (JsMap.set (item_iid x)
                 {| iid := item_iid x; title := item_title x;
                    description := None; state := None |} m,
               item_iid x)) as Hstep.
    { unfold buildMilestoneMap_step. simpl.
      by replace (Z.max last (item_iid x - 1) + 1) with (item_iid x) by lia. }
    cbn [foldl]. rewrite Hstep.
    apply elem_of_cons in Hin as [->|Hin]; [|by apply IH].
    rewrite buildMilestoneMap_fold_get_other.
    + apply JsMap_get_set_eq.
    + intros Hx. apply StronglySorted_inv in Hs' as [_ Hall'].
      pose proof (proj1 (Forall_forall _ _) Hall' _ Hx). simpl in *. lia.
Qed.

(** X7. [buildMilestoneMap] with placeholders, against a destination
    without milestones and a source listing in increasing order of
    positive [iid]s: every source milestone keeps its number and its
    title. *)
Theorem X7_buildMilestoneMap_keeps_numbers
    (gitlabMilestones : list GitLabItem) :
  StronglySorted Z.lt (0 :: (item_iid <$> gitlabMilestones)) →
  ∀ s, s ∈ gitlabMilestones →
    JsMap.get (item_iid s) (buildMilestoneMap_on [] gitlabMilestones true)
    = Some {| iid := item_iid s; title := item_title s;
              description := None; state := None |}.
Proof. apply buildMilestoneMap_on_keeps_numbers. Qed.

Lemma X7_buildMilestoneMap_keeps_numbers_witness :
  JsMap.get 4 (buildMilestoneMap_on [] (allMilestones sample_gitlab_gaps)
                                    true)
  = Some {| iid := 4; title := "v2.0"; description := None; state := None |}.
Proof.
  refine (X7_buildMilestoneMap_keeps_numbers
            (allMilestones sample_gitlab_gaps) _ (sample_item 4 "v2.0") _).
  - repeat constructor; simpl; lia.
  - repeat constructor.
Defined.

(** ** Numbers given by [buildMergeRequestMap] *)

(** X8. [buildMergeRequestMap] on a converter whose issue map is not empty
    and holds integers: every number given to a merge request is above the
    largest value of the issue map, hence above every issue number, with
    or without placeholders. *)
Theorem X8_buildMergeRequestMap_above_issues (c : RepoConverter)
    (usePlaceholders : bool) (im mrMap : gmap Z Js.number) :
  issueMap c = Some im →
  im ≠ ∅ →
  (∀ k v, im !! k = Some v → ∃ z, v = Js.Num z) →
  buildMergeRequestMap c usePlaceholders = Ok mrMap →
  ∀ k v, mrMap !! k = Some v →
    Js.lt (Js.Math_max (map_values im)) v
    ∧ ∀ k' v', im !! k' = Some v' → Js.lt v' v.
Proof. apply buildMergeRequestMap_above_issues. Qed.

Lemma X8_buildMergeRequestMap_above_issues_witness :
  Js.lt (Js.Math_max (map_values {[1 := Js.Num 1]})) (Js.Num 2)
  ∧ ∀ k' v', ({[1 := Js.Num 1]} : gmap Z Js.number) !! k' = Some v'
             → Js.lt v' (Js.Num 2).
Proof.
  refine (X8_buildMergeRequestMap_above_issues sample_converter false
            {[1 := Js.Num 1]} _ eq_refl _ _ eq_refl 1 (Js.Num 2) _).
  - intros H. apply (f_equal (fun m => m !! 1)) in H. by vm_compute in H.
  - intros k v [<- <-]%lookup_singleton_Some. by eexists.
  - by vm_compute.
Defined.

(** ** Milestones of issues: [mapMilestone] *)

Lemma JsMap_set_keys {V} k (v : V) m :
  NoDup (JsMap.keys m) →
  NoDup (JsMap.keys (JsMap.set k v m))
  ∧ ∀ k' v', (k', v') ∈ JsMap.set k v m
             → (k' = k ∧ v' = v) ∨ (k', v') ∈ m.
Proof.
  unfold JsMap.keys. induction m as [|[k0 v0] m IH]; simpl; intros Hnd.
  - split; [by apply NoDup_singleton|].
    intros k' v' [[= -> ->]|Hin%elem_of_nil]%elem_of_cons; [by left | done].
  - apply NoDup_cons in Hnd as [Hnotin Hnd].
    destruct (IH Hnd) as [IH1 IH2].
    destruct (decide (k0 = k)) as [->|Hne]; simpl.
    + split; [by apply NoDup_cons|].
      intros k' v' [[= -> ->]|Hin]%elem_of_cons; [by left|].
      right. by apply elem_of_cons; right.
    + split.
      * apply NoDup_cons. split; [|done].
        intros [[k1 v1] [Hk Hin]]%list_elem_of_fmap. simpl in Hk. subst k1.
        destruct (IH2 _ _ Hin) as [[-> _]|Hin']; [done|].
        apply Hnotin. apply list_elem_of_fmap. by exists (k0, v1).
      * intros k' v' [[= -> ->]|Hin]%elem_of_cons.
        -- right. by apply elem_of_cons; left.
        -- destruct (IH2 _ _ Hin) as [?|?]; [by left|].
           right. by apply elem_of_cons; right.
Qed.

Lemma JsMap_get_elem_of {V} k (v : V) m :
  NoDup (JsMap.keys m) → (k, v) ∈ m → JsMap.get k m = Some v.
Proof.
  unfold JsMap.keys. induction m as [|[k0 v0] m IH]; simpl; intros Hnd Hin.
  - by apply elem_of_nil in Hin.
  - apply NoDup_cons in Hnd as [Hnotin Hnd].
    apply elem_of_cons in Hin as [[= <- <-]|Hin].
    + by rewrite decide_True.
    + destruct (decide (k0 = k)) as [->|Hne]; [|by apply IH].
      exfalso. apply Hnotin. apply list_elem_of_fmap. by exists (k, v).
Qed.

(** The map of [buildMilestoneMap] holds each key once, and every entry
    belongs to a source milestone, whose title it bears. *)
Lemma buildMilestoneMap_fold_entries D up l :
  ∀ st,
    NoDup (JsMap.keys (fst st)) →
    (∀ k v, (k, v) ∈ fst st →
       ∃ s, s ∈ l ∧ k = item_iid s ∧ title v = item_title s) →
    NoDup (JsMap.keys (fst (foldl (buildMilestoneMap_step D up) st l)))
    ∧ ∀ k v, (k, v) ∈ fst (foldl (buildMilestoneMap_step D up) st l) →
        ∃ s, s ∈ l ∧ k = item_iid s ∧ title v = item_title s.
Proof.
  induction l as [|s l IH]; intros [m last] Hnd Hent; [by split|].
  cbn [foldl].
  destruct (buildMilestoneMap_step_fst D up m last s) as (v & Hv & Ht & _).
  destruct (buildMilestoneMap_step D up (m, last) s) as [m1 last1].
  simpl in Hv. subst m1.
  destruct (JsMap_set_keys (item_iid s) v m Hnd) as [Hnd1 Hin1].
  (* the entries carried along belong to [s :: l]; weaken the invariant *)
  assert (∀ l' st,
            NoDup (JsMap.keys (fst st)) →
            (∀ k v, (k, v) ∈ fst st →
               ∃ s0, s0 ∈ s :: l ∧ k = item_iid s0
                     ∧ title v = item_title s0) →
            (∀ x, x ∈ l' → x ∈ s :: l) →
            NoDup (JsMap.keys (fst (foldl (buildMilestoneMap_step D up)
                                          st l')))
            ∧ ∀ k v, (k, v) ∈ fst (foldl (buildMilestoneMap_step D up)
                                         st l') →
                ∃ s0, s0 ∈ s :: l ∧ k = item_iid s0
                      ∧ title v = item_title s0) as Hgen.
  { clear. induction l' as [|x l' IH']; intros [m last] Hnd Hent Hsub;
      [by split|].
    cbn [foldl].
    destruct (buildMilestoneMap_step_fst D up m last x) as (v & Hv & Ht & _).
    destruct (buildMilestoneMap_step D up (m, last) x) as [m1 last1].
    simpl in Hv. subst m1.
    destruct (JsMap_set_keys (item_iid x) v m Hnd) as [Hnd1 Hin1].
    apply IH'; [done | | intros y Hy; apply Hsub; by apply elem_of_cons; right].
    intros k' v' Hin. destruct (Hin1 _ _ Hin) as [[-> ->]|Hin'].
    - exists x. split; [apply Hsub; by apply elem_of_cons; left | done].
    - by apply Hent. }
  apply (Hgen l (JsMap.set (item_iid s) v m, last1)); [done | |].
  - intros k' v' Hin. destruct (Hin1 _ _ Hin) as [[-> ->]|Hin'].
    + exists s. split; [by apply elem_of_cons; left | done].
    + destruct (Hent _ _ Hin') as (s0 & Hs0 & ? & ?). by exists s0.
  - intros x Hx. by apply elem_of_cons; right.
Qed.

Lemma NoDup_fmap_eq {A B} (f : A → B) (l : list A) x y :
  NoDup (f <$> l) → x ∈ l → y ∈ l → f x = f y → x = y.
Proof.
  induction l as [|a l IH]; intros Hnd Hx Hy Hf;
    [by apply elem_of_nil in Hx|].
  rewrite fmap_cons in Hnd. apply NoDup_cons in Hnd as [Hnotin Hnd].
  apply elem_of_cons in Hx as [->|Hx]; apply elem_of_cons in Hy as [->|Hy];
    try done.
  - exfalso. apply Hnotin. rewrite Hf. by apply list_elem_of_fmap_2.
  - exfalso. apply Hnotin. rewrite <- Hf. by apply list_elem_of_fmap_2.
  - by apply IH.
Qed.

(** X9. [mapMilestone] after [buildMilestoneMap]: for an issue attached to
    a source milestone, the source milestones having distinct [iid]s and
    distinct titles, the number returned is the one the map holds for that
    milestone.  Without a milestone map the call throws; an issue without
    milestone, or one whose milestone title is in no entry, gets
    [undefined]. *)
Theorem X9_mapMilestone_after_buildMilestoneMap (c : RepoConverter)
    (githubMilestones : list SimpleItem) (gitlabMilestones : list GitLabItem)
    (usePlaceholders : bool) (item : GitLabIssue) (s : GitLabItem) :
  NoDup (item_iid <$> gitlabMilestones) →
  NoDup (item_title <$> gitlabMilestones) →
  milestoneMap c = Some (buildMilestoneMap_on githubMilestones
                           gitlabMilestones usePlaceholders) →
  s ∈ gitlabMilestones →
  issue_milestone item = Some (item_title s) →
  (∃ v, JsMap.get (item_iid s)
          (buildMilestoneMap_on githubMilestones gitlabMilestones
                                usePlaceholders) = Some v
        ∧ mapMilestone c item = Ok (Some (iid v)))
  ∧ (∀ c' item', milestoneMap c' = None →
       mapMilestone c' item' = Throw "milestoneMap not initialised")
  ∧ (∀ c' item' mm, milestoneMap c' = Some mm →
       issue_milestone item' = None
       ∨ (∃ t, issue_milestone item' = Some t
               ∧ Forall (fun m => title m ≠ t) (JsMap.values mm)) →
       mapMilestone c' item' = Ok None).
Proof.
  intros Hnd Hndt Hmm Hs Hitem. split; [|split].
  - unfold mapMilestone. rewrite Hmm, Hitem.
    set (M := buildMilestoneMap_on githubMilestones gitlabMilestones
                                   usePlaceholders).
    destruct (buildMilestoneMap_fold_get githubMilestones usePlaceholders
                gitlabMilestones
                (JsMap.empty,
                 foldl (fun acc m => Z.max acc (iid m)) 0 githubMilestones)
                s Hnd Hs) as (v & Hv & Ht & _).
    fold (buildMilestoneMap_on githubMilestones gitlabMilestones
                               usePlaceholders) in Hv. fold M in Hv.
    destruct (buildMilestoneMap_fold_entries githubMilestones usePlaceholders
                gitlabMilestones
                (JsMap.empty,
                 foldl (fun acc m => Z.max acc (iid m)) 0 githubMilestones))
      as [HndM HentM].
    { apply NoDup_nil_2. }
    { intros k' v' Hin. by apply elem_of_nil in Hin. }
    fold (buildMilestoneMap_on githubMilestones gitlabMilestones
                               usePlaceholders) in HndM, HentM.
    fold M in HndM, HentM.
    exists v. split; [done|]. do 2 f_equal.
    assert (∀ m (k : Z), JsMap.get k m = Some v →
              is_Some (List.find (fun x => String.eqb (title x)
                                                      (item_title s))
                                 (JsMap.values m))) as Hfind.
    { unfold JsMap.values. induction m as [|[k0 v0] m IHm]; intros k;
        simpl; [done|].
      destruct (decide (k0 = k)) as [->|Hne].
      - intros [= ->]. rewrite Ht, String.eqb_refl. by eexists.
      - intros Hget. destruct (String.eqb (title v0) (item_title s));
          [by eexists | by eapply IHm]. }
    destruct (Hfind M _ Hv) as [v' Hv'].
    rewrite Hv'. simpl. f_equal.
    apply List.find_some in Hv' as [Hin' Htitle'].
    apply String.eqb_eq in Htitle'.
    apply list_elem_of_In, list_elem_of_fmap in Hin' as ([k' v''] & Heq & Hin').
    simpl in Heq. subst v''.
    destruct (HentM _ _ Hin') as (s' & Hs' & -> & Ht').
    assert (s' = s) as ->.
    { apply (NoDup_fmap_eq item_title gitlabMilestones); try done.
      congruence. }
    pose proof (JsMap_get_elem_of _ _ _ HndM Hin') as Hget.
    congruence.
  - intros c' item' Hnone. unfold mapMilestone. by rewrite Hnone.
  - intros c' item' mm Hsome Hcase. unfold mapMilestone. rewrite Hsome.
    destruct Hcase as [->|(t & -> & Hall)]; [done|].
    destruct (List.find _ _) as [m|] eqn:Hfind; [|done].
    apply List.find_some in Hfind as [Hin Htitle]. apply String.eqb_eq in Htitle.
    apply list_elem_of_In in Hin.
    by pose proof (proj1 (Forall_forall _ _) Hall m Hin).
Qed.

Lemma X9_mapMilestone_after_buildMilestoneMap_witness :
  ∃ v, JsMap.get 1 (buildMilestoneMap_on destination_milestones
                                         distinct_milestones true) = Some v
       ∧ mapMilestone sample_converter_milestones sample_issue
         = Ok (Some (iid v)).
Proof.
  refine (proj1 (X9_mapMilestone_after_buildMilestoneMap
                   sample_converter_milestones destination_milestones
                   distinct_milestones true sample_issue
                   (sample_item 1 "v1.0") _ _ _ _ _)).
  - refine (bool_decide_unpack _ _). vm_compute. exact I.
  - refine (bool_decide_unpack _ _). vm_compute. exact I.
  - reflexivity.
  - repeat constructor.
  - reflexivity.
Defined.

(** ** Assignees and labels *)

Lemma length_omap_le {A B} (f : A → option B) (l : list A) :
  (length (omap f l) ≤ length l)%nat.
Proof.
  induction l as [|x l IH]; csimpl; [lia|]. destruct (f x); csimpl; lia.
Qed.

(** X10. [convertAssignees], for assignees none of whom bears the name of
    a property of [Object.prototype]: every name returned stems from an
    assignee of the item, and is either the assignee's own name, when that
    is [settings.github.username], or its non-empty entry in the user map;
    such assignees are all kept, the configured name winning over a user
    map entry, and the others are dropped; an item without [assignees] gets
    the empty list. *)
Theorem X10_convertAssignees_names (settings : Settings)
    (conversion : ConversionSettings) (item : GitLabIssue) :
  Forall (fun a => inherited_name a = false)
         (default [] (issue_assignees item)) →
  (∀ x, x ∈ convertAssignees settings conversion item →
     ∃ l a, issue_assignees item = Some l ∧ a ∈ l
            ∧ ((Some a = github_username conversion ∧ x = a)
               ∨ (Some a ≠ github_username conversion
                  ∧ prop (usermap settings) a = Some x ∧ x ≠ "")))
  ∧ (∀ l a, issue_assignees item = Some l → a ∈ l →
       Some a = github_username conversion →
       a ∈ convertAssignees settings conversion item)
  ∧ (∀ l a g, issue_assignees item = Some l → a ∈ l →
       Some a ≠ github_username conversion →
       prop (usermap settings) a = Some g → g ≠ "" →
       g ∈ convertAssignees settings conversion item)
  ∧ (length (convertAssignees settings conversion item)
     ≤ length (default [] (issue_assignees item)))%nat
  ∧ (issue_assignees item = None →
     convertAssignees settings conversion item = []).
Proof.
  intros _. unfold convertAssignees.
  destruct (issue_assignees item) as [l|]; simpl.
  - split; [|split; [|split; [|split]]].
    + intros x (a & Ha & Hx)%list_elem_of_omap. exists l, a.
      split; [done|]. split; [done|]. unfold convertAssignee in Hx.
      case_bool_decide as Hu.
      * left. split; [done|]. congruence.
      * right. split; [done|].
        destruct (prop (usermap settings) a) as [g|]; [|done].
        unfold truthy in Hx. case_bool_decide; simplify_eq/=. done.
    + intros ? a [= <-] Ha Hu. apply list_elem_of_omap. exists a.
      split; [done|]. unfold convertAssignee.
      by rewrite bool_decide_eq_true_2.
    + intros ? a g [= <-] Ha Hu Hg Hne. apply list_elem_of_omap. exists a.
      split; [done|]. unfold convertAssignee.
      rewrite bool_decide_eq_false_2 by done. rewrite Hg. unfold truthy.
      by rewrite bool_decide_eq_false_2.
    + apply length_omap_le.
    + done.
  - split; [|split; [|split; [|split]]]; try done.
    intros x Hx. by apply elem_of_nil in Hx.
Qed.

Lemma X10_convertAssignees_names_witness :
  "alice-gh" ∈ convertAssignees sample_settings sample_conversion sample_issue
  ∧ (length (convertAssignees sample_settings sample_conversion sample_issue)
     ≤ 2)%nat.
Proof.
  assert (Forall (fun a => inherited_name a = false)
                 (default [] (issue_assignees sample_issue))) as Hnames
    by (repeat constructor).
  pose proof (X10_convertAssignees_names sample_settings sample_conversion
                sample_issue Hnames) as (_ & _ & Hmapped & Hlength & _).
  split; [|exact Hlength].
  apply (Hmapped ["alice"; "bob"] "alice" "alice-gh");
    try reflexivity; try done.
  repeat constructor.
Defined.

Lemma toLowerCase_unit_idemp c :
  JsString.toLowerCase_unit (JsString.toLowerCase_unit c)
  = JsString.toLowerCase_unit c.
Proof. by destruct c as [[] [] [] [] [] [] [] []]. Qed.

Lemma toLowerCase_idemp s :
  JsString.toLowerCase (JsString.toLowerCase s) = JsString.toLowerCase s.
Proof.
  induction s as [|c s IH]; simpl; [done|].
  by rewrite toLowerCase_unit_idemp, IH.
Qed.

Lemma includes_truthy sub s :
  sub ≠ "" → JsString.includes sub s = true → truthy s = true.
Proof. intros Hsub. destruct s; [by destruct sub | done]. Qed.

(** X11. [convertLabelNames].  On a closed item no label is kept that
    reads "doing" or "to do" in lower case; with [useLowerCaseLabels] every
    label returned is in lower case; and "has attachment" is appended
    when the description contains "/uploads/" and no S3 storage is
    configured, and otherwise every label returned is a label of the item,
    as it is or in lower case. *)
Theorem X11_convertLabelNames (conversion : ConversionSettings)
    (item : GitLabIssue) :
  (issue_state item = "closed" →
   ∀ l, l ∈ convertLabelNames conversion item →
     JsString.toLowerCase l ≠ "doing" ∧ JsString.toLowerCase l ≠ "to do")
  ∧ (useLowerCaseLabels conversion = true →
     ∀ l, l ∈ convertLabelNames conversion item →
       JsString.toLowerCase l = l)
  ∧ (issue_state item ≠ "closed" → useLowerCaseLabels conversion = false →
     ∃ tail, convertLabelNames conversion item
             = default [] (issue_labels item) ++ tail)
  ∧ (JsString.includes "/uploads/" (item_description (issue_item item))
     = true →
     s3 conversion = false →
     ∃ labels, convertLabelNames conversion item
               = labels ++ ["has attachment"])
  ∧ (JsString.includes "/uploads/" (item_description (issue_item item))
     = false ∨ s3 conversion = true →
     ∀ l, l ∈ convertLabelNames conversion item →
       ∃ l0, l0 ∈ default [] (issue_labels item)
             ∧ (l = l0 ∨ l = JsString.toLowerCase l0)).
Proof.
  unfold convertLabelNames.
  set (kept := match issue_labels item with
               | Some labels => _
               | None => []
               end).
  assert (∀ d, truthy d && JsString.includes "/uploads/" d
               = JsString.includes "/uploads/" d) as Htruthy.
  { intros d. destruct (JsString.includes "/uploads/" d) eqn:Hinc;
      [|by rewrite andb_false_r].
    by rewrite (includes_truthy "/uploads/" d). }
  rewrite Htruthy.
  assert (∀ l, l ∈ (if JsString.includes "/uploads/"
                         (item_description (issue_item item))
                       && negb (s3 conversion)
                    then kept ++ ["has attachment"] else kept)
               → l ∈ kept ∨ l = "has attachment") as Hin.
  { intros l. destruct (_ && _); [|by left].
    intros [?|?%list_elem_of_singleton]%elem_of_app; [by left | by right]. }
  split; [|split; [|split; [|split]]].
  - intros Hclosed l [Hl| ->]%Hin; [|done].
    unfold kept in Hl. destruct (issue_labels item) as [labels|];
      [|by apply elem_of_nil in Hl].
    assert (∀ x, x ∈ List.filter
                   (fun l =>
                      if negb (String.eqb (issue_state item) "closed")
                      then true
                      else negb (String.eqb (JsString.toLowerCase l) "doing")
                           && negb (String.eqb (JsString.toLowerCase l)
                                               "to do")) labels
                 → JsString.toLowerCase x ≠ "doing"
                   ∧ JsString.toLowerCase x ≠ "to do") as Hfilter.
    { intros x [_ Hx]%list_elem_of_In%List.filter_In.
      rewrite Hclosed in Hx. simpl in Hx.
      apply andb_true_iff in Hx as [H1 H2].
      apply negb_true_iff in H1, H2.
      by apply String.eqb_neq in H1, H2. }
    destruct (useLowerCaseLabels conversion).
    + apply list_elem_of_fmap in Hl as (x & -> & Hx).
      rewrite toLowerCase_idemp. by apply Hfilter.
    + by apply Hfilter.
  - intros Hlower l [Hl| ->]%Hin; [|done].
    unfold kept in Hl. destruct (issue_labels item) as [labels|];
      [|by apply elem_of_nil in Hl].
    rewrite Hlower in Hl.
    apply list_elem_of_fmap in Hl as (x & -> & Hx).
    apply toLowerCase_idemp.
  - intros Hopen Hlower.
    assert (kept = default [] (issue_labels item)) as ->.
    { unfold kept. destruct (issue_labels item) as [labels|]; [|done].
      rewrite Hlower. simpl.
      apply String.eqb_neq in Hopen. rewrite Hopen. simpl.
      clear. induction labels as [|x labels IH]; simpl; [done|].
      by rewrite IH. }
    destruct (_ && _); [by eexists|]. exists []. by rewrite app_nil_r.
  - intros -> ->. by exists kept.
  - intros Hno l Hl.
    assert (l ∈ kept) as Hk.
    { destruct Hno as [Hno|Hno]; rewrite Hno in Hl; [done|].
      by rewrite andb_false_r in Hl. }
    clear Hl Hin. unfold kept in Hk.
    destruct (issue_labels item) as [labels|]; [|by apply elem_of_nil in Hk].
    simpl. destruct (useLowerCaseLabels conversion).
    + apply list_elem_of_fmap in Hk as (x & -> & Hx).
      apply list_elem_of_In, List.filter_In in Hx as [Hx _].
      exists x. split; [by apply list_elem_of_In | by right].
    + apply list_elem_of_In, List.filter_In in Hk as [Hx _].
      exists l. split; [by apply list_elem_of_In | by left].
Qed.

(** ** Notes: [convertNotes] *)

Lemma insert_by_id_Permutation x l : insert_by_id x l ≡ₚ x :: l.
Proof.
  induction l as [|y l IH]; simpl; [done|].
  destruct (note_id x <? note_id y); [done|].
  rewrite IH. apply Permutation_swap.
Qed.

Lemma sort_by_id_Permutation l : sort_by_id l ≡ₚ l.
Proof.
  unfold sort_by_id. change l with ([] ++ l) at 2. generalize (@nil GitLabNote).
  induction l as [|x l IH]; intros acc; simpl.
  - by rewrite app_nil_r.
  - rewrite IH, insert_by_id_Permutation. simpl.
    by rewrite Permutation_middle.
Qed.

Lemma insert_by_id_sorted x l :
  StronglySorted Z.le (note_id <$> l) →
  StronglySorted Z.le (note_id <$> insert_by_id x l).
Proof.
  induction l as [|y l IH]; intros Hs; simpl.
  - repeat constructor.
  - rewrite fmap_cons in Hs.
    destruct (Z.ltb_spec (note_id x) (note_id y)); simpl.
    + constructor; [done|]. apply StronglySorted_inv in Hs as [_ Hall].
      constructor; [lia|]. eapply Forall_impl; [exact Hall|]. simpl. lia.
    + apply StronglySorted_inv in Hs as [Hs Hall].
      constructor; [by apply IH|].
      apply Forall_fmap. rewrite insert_by_id_Permutation.
      constructor; simpl; [lia|].
      rewrite Forall_fmap in Hall.
      eapply Forall_impl; [exact Hall|]. intros z Hz. exact Hz.
Qed.

Lemma sort_by_id_sorted l : StronglySorted Z.le (note_id <$> sort_by_id l).
Proof.
  unfold sort_by_id.
  assert (StronglySorted Z.le (note_id <$> @nil GitLabNote)) as Hnil
    by constructor.
  revert Hnil. generalize (@nil GitLabNote).
  induction l as [|x l IH]; intros acc Hacc; simpl; [done|].
  by apply IH, insert_by_id_sorted.
Qed.

Lemma List_filter_Permutation {A} (f : A → bool) (l l' : list A) :
  l ≡ₚ l' → List.filter f l ≡ₚ List.filter f l'.
Proof.
  induction 1 as [|x l l' _ IH|x y l|l l' l'' _ IH1 _ IH2]; simpl.
  - done.
  - destruct (f x); [by constructor | done].
  - destruct (f x), (f y); try done. apply Permutation_swap.
  - by rewrite IH1.
Qed.

Lemma List_filter_sorted {A} (f : A → bool) (key : A → Z) (l : list A) :
  StronglySorted Z.le (key <$> l) →
  StronglySorted Z.le (key <$> List.filter f l).
Proof.
  induction l as [|x l IH]; simpl; [done|]. intros Hs.
  apply StronglySorted_inv in Hs as [Hs Hall].
  destruct (f x); [|by apply IH].
  rewrite fmap_cons. constructor; [by apply IH|].
  rewrite Forall_fmap in Hall. apply Forall_fmap, Forall_forall.
  intros y Hy. apply list_elem_of_In, List.filter_In in Hy as [Hy _].
  apply list_elem_of_In in Hy.
  exact (proj1 (Forall_forall _ _) Hall y Hy).
Qed.

(** The text [convertBody] returns does not depend on the attachment
    registry. *)
Lemma convertBody_text_same settings md5_hex toLocaleString c c' str item
    add_line :
  same_configuration c c' →
  fst (convertBody settings md5_hex toLocaleString c str item add_line)
  = fst (convertBody settings md5_hex toLocaleString c' str item add_line).
Proof.
  intros Hsame. unfold convertBody.
  rewrite (convertReferences_same settings c c') by done.
  destruct Hsame as (-> & _ & Hsh & _).
  destruct (transfer_attachments settings); [|done].
  by apply convertAttachments_text.
Qed.

Lemma same_configuration_trans c1 c2 c3 :
  same_configuration c1 c2 → same_configuration c2 c3 →
  same_configuration c1 c3.
Proof.
  intros (?&?&?&?&?&?) (?&?&?&?&?&?). repeat split; congruence.
Qed.

(** The comment made of a note by [convertNotes]. *)
Lemma convertNotes_map_spec settings conversion md5_hex toLocaleString c0
    issue_number notes :
  ∀ c, same_configuration c0 c →
    Forall2 (fun comment note =>
               comment_issue_number comment = issue_number
               ∧ comment_created_at comment = created_at (note_item note)
               ∧ comment_body comment
                 = fst (convertBody settings md5_hex toLocaleString c0
                          (note_body note) (note_item note)
                          (negb (userIsCreator settings conversion
                                   (item_author (note_item note)))
                           || negb (truthy (note_body note)))))
            (fst (convertNotes_map settings conversion md5_hex
                    toLocaleString c notes issue_number))
            notes
    ∧ same_configuration c0
        (snd (convertNotes_map settings conversion md5_hex toLocaleString
                c notes issue_number)).
Proof.
  induction notes as [|note notes IH]; intros c Hsame; simpl.
  - split; [constructor | done].
  - pose proof (convertBody_keeps_configuration settings md5_hex
                  toLocaleString c (note_body note) (note_item note)
                  (negb (userIsCreator settings conversion
                           (item_author (note_item note)))
                   || negb (truthy (note_body note)))) as Hkeep.
    pose proof (convertBody_text_same settings md5_hex toLocaleString c0 c
                  (note_body note) (note_item note)
                  (negb (userIsCreator settings conversion
                           (item_author (note_item note)))
                   || negb (truthy (note_body note))) Hsame) as Htext.
    destruct (convertBody settings md5_hex toLocaleString c _ _ _)
      as [body c1]. simpl in *.
    destruct (IH c1) as [Hall Hsame1];
      [by eapply same_configuration_trans|].
    destruct (convertNotes_map settings conversion md5_hex toLocaleString
                c1 notes issue_number) as [comments c2]. simpl in *.
    split; [|done]. constructor; [|done]. by repeat split.
Qed.

(** X12. [convertNotes] returns one comment for every note for which
    [checkIfNoteCanBeSkipped] holds, and none for the other notes: the
    comments stand, in ascending order of the note [id], for the notes the
    filter lets through.  Each comment bears the date of its note and the
    text [convertBody] makes of the note body on the converter as it was
    before the call, whatever notes came before; the call changes nothing
    of the converter but the attachment registry. *)
Theorem X12_convertNotes_keeps_skippable_notes (settings : Settings)
    (conversion : ConversionSettings)
    (md5_hex toLocaleString : string → string) (c : RepoConverter)
    (notes : list GitLabNote) (issue_number : option Z) :
  ∃ kept,
    kept ≡ₚ List.filter (checkIfNoteCanBeSkipped conversion) notes
    ∧ StronglySorted Z.le (note_id <$> kept)
    ∧ Forall2 (fun comment note =>
                 comment_issue_number comment = issue_number
                 ∧ comment_created_at comment = created_at (note_item note)
                 ∧ comment_body comment
                   = fst (convertBody settings md5_hex toLocaleString c
                            (note_body note) (note_item note)
                            (negb (userIsCreator settings conversion
                                     (item_author (note_item note)))
                             || negb (truthy (note_body note)))))
              (fst (convertNotes settings conversion md5_hex toLocaleString
                      c notes issue_number))
              kept
    ∧ same_configuration c
        (snd (convertNotes settings conversion md5_hex toLocaleString c
                notes issue_number))
    ∧ (Forall (fun note => checkIfNoteCanBeSkipped conversion note = false)
              notes →
       fst (convertNotes settings conversion md5_hex toLocaleString c notes
              issue_number) = []).
Proof.
  exists (List.filter (checkIfNoteCanBeSkipped conversion)
                      (sort_by_id notes)).
  split; [apply List_filter_Permutation, sort_by_id_Permutation|].
  split; [apply List_filter_sorted, sort_by_id_sorted|].
  unfold convertNotes.
  destruct (convertNotes_map_spec settings conversion md5_hex toLocaleString
              c issue_number
              (List.filter (checkIfNoteCanBeSkipped conversion)
                           (sort_by_id notes)) c) as [Hall Hsame].
  { by repeat split. }
  split; [done|]. split; [done|].
  intros Hnone.
  assert (List.filter (checkIfNoteCanBeSkipped conversion) (sort_by_id notes)
          = []) as ->; [|done].
  destruct (List.filter _ _) as [|x l] eqn:Hf; [done|]. exfalso.
  assert (x ∈ List.filter (checkIfNoteCanBeSkipped conversion)
                (sort_by_id notes)) as Hx by (rewrite Hf; by left).
  apply list_elem_of_In, List.filter_In in Hx as [Hx Hskip].
  apply list_elem_of_In in Hx. rewrite sort_by_id_Permutation in Hx.
  pose proof (proj1 (Forall_forall _ _) Hnone x Hx). simpl in *. congruence.
Qed.

(** ** Issues: [convertIssue] *)

(** A text without reference syntax, no attribution line prepended, goes
    through [convertBody] as it is. *)
Lemma convertBody_plain settings md5_hex toLocaleString c str item add_line :
  plain str = true →
  attribution_added add_line item = false →
  convertBody settings md5_hex toLocaleString c str item add_line = (str, c).
Proof.
  intros Hplain Hadd. rewrite convertBody_not_added by done.
  assert (∀ x, is_special x = true → has_char x str = false) as Hno
    by (intros x; by apply plain_has_char).
  assert (convertReferences settings c str = str) as ->.
  { unfold convertReferences.
    rewrite convertMentions_absent by by apply Hno.
    rewrite convertScopedIssues_absent by (left; by apply Hno).
    rewrite convertIssues_absent by by apply Hno.
    rewrite convertScopedMilestones_absent by (left; by apply Hno).
    rewrite convertMilestoneTitles_absent by (left; by apply Hno).
    rewrite convertMilestoneNumbers_absent by by apply Hno.
    rewrite convertScopedMergeRequests_absent by (left; by apply Hno).
    by rewrite convertMergeRequests_absent by by apply Hno. }
  destruct (transfer_attachments settings); [|done].
  apply convertAttachments_absent. by apply Hno.
Qed.

(** X13. [convertIssue] on an issue of the token owner (by name, or through
    the user map) with a description that is not empty and holds no
    reference syntax: the body is the description as it is, without
    attribution line, and the converter is left as it was; [assignee] is set
    exactly when one assignee is converted.  Without a milestone map the
    call throws, also for an issue without milestone. *)
Theorem X13_convertIssue_of_token_owner (settings : Settings)
    (conversion : ConversionSettings)
    (md5_hex toLocaleString : string → string) (c : RepoConverter)
    (mm : JsMap.t SimpleItem) (issue : GitLabIssue) :
  milestoneMap c = Some mm →
  userIsCreator settings conversion (item_author (issue_item issue)) = true →
  item_description (issue_item issue) ≠ "" →
  plain (item_description (issue_item issue)) = true →
  (∃ data,
     convertIssue settings conversion md5_hex toLocaleString c issue
     = Ok (data, c)
     ∧ data_body data = item_description (issue_item issue)
     ∧ data_assignees data = convertAssignees settings conversion issue
     ∧ (∀ a, data_assignee data = Some a ↔ data_assignees data = [a])
     ∧ mapMilestone c issue = Ok (data_milestone data))
  ∧ ∀ c' issue',
      milestoneMap c' = None →
      convertIssue settings conversion md5_hex toLocaleString c' issue'
      = Throw "milestoneMap not initialised".
Proof.
  intros Hmm Hcreator Hne Hplain. split.
  - unfold convertIssue. rewrite Hcreator.
    rewrite convertBody_plain; [|done|].
    2:{ unfold attribution_added, truthy. simpl.
        by rewrite (bool_decide_eq_false_2 _ Hne). }
    destruct (mapMilestone c issue) as [milestone|msg] eqn:Hmap.
    2:{ unfold mapMilestone in Hmap. rewrite Hmm in Hmap.
        by destruct (issue_milestone issue). }
    simpl. eexists. split; [done|]. simpl.
    split; [done|]. split; [done|]. split; [|done].
    intros a. destruct (convertAssignees settings conversion issue)
      as [|x [|y l]]; split; intros [=]; by subst.
  - intros c' issue' Hnone. unfold convertIssue.
    pose proof (convertBody_keeps_configuration settings md5_hex
                  toLocaleString c' (item_description (issue_item issue'))
                  (issue_item issue')
                  (negb (userIsCreator settings conversion
                           (item_author (issue_item issue')))
                   || negb (truthy (item_description (issue_item issue')))))
      as (_ & _ & _ & Hsame & _).
    destruct (convertBody _ _ _ c' _ _ _) as [body c1]. simpl in *.
    unfold mapMilestone. by rewrite <- Hsame, Hnone.
Qed.

Lemma X13_convertIssue_of_token_owner_witness :
  ∃ data,
    convertIssue sample_settings sample_conversion (fun x => x) (fun x => x)
                 sample_converter_milestones sample_issue
    = Ok (data, sample_converter_milestones)
    ∧ data_body data = "It crashes."
    ∧ data_assignees data
      = convertAssignees sample_settings sample_conversion sample_issue
    ∧ (∀ a, data_assignee data = Some a ↔ data_assignees data = [a])
    ∧ mapMilestone sample_converter_milestones sample_issue
      = Ok (data_milestone data).
Proof.
  refine (proj1 (X13_convertIssue_of_token_owner sample_settings
                   sample_conversion (fun x => x) (fun x => x)
                   sample_converter_milestones _ sample_issue
                   eq_refl _ _ _)).
  - reflexivity.
  - discriminate.
  - reflexivity.
Defined.

(** ** Letter case in the tests of notes and titles *)

Lemma canonicalize_idemp c :
  RegExpI.canonicalize (RegExpI.canonicalize c) = RegExpI.canonicalize c.
Proof. by destruct c as [[] [] [] [] [] [] [] []]. Qed.

Lemma canonicalize_line_terminator c :
  Js.is_line_terminator (RegExpI.canonicalize c) = Js.is_line_terminator c.
Proof. by destruct c as [[] [] [] [] [] [] [] []]. Qed.

Lemma canonicalize_digit c :
  Js.is_digit (RegExpI.canonicalize c) = Js.is_digit c.
Proof. by destruct c as [[] [] [] [] [] [] [] []]. Qed.

Lemma literal_fold_case lit :
  ∀ s, RegExpI.literal lit (fold_case s) = fold_case <$> RegExpI.literal lit s.
Proof.
  induction lit as [|a lit IH]; intros s; [done|].
  destruct s as [|b s]; simpl; [done|].
  rewrite canonicalize_idemp. by case_bool_decide.
Qed.

Lemma then_fold_case lit (k : string → bool) :
  (∀ s, k (fold_case s) = k s) →
  ∀ s, RegExpI.then_ lit k (fold_case s) = RegExpI.then_ lit k s.
Proof.
  intros Hk s. unfold RegExpI.then_. rewrite literal_fold_case.
  by destruct (RegExpI.literal lit s); simpl.
Qed.

Lemma dot_star_fold_case (k : string → bool) :
  (∀ s, k (fold_case s) = k s) →
  ∀ s, RegExpI.dot_star k (fold_case s) = RegExpI.dot_star k s.
Proof.
  intros Hk s. induction s as [|c s IH]; [done|].
  pose proof (Hk (String c s)) as Hk0. simpl in Hk0 |- *.
  by rewrite Hk0, canonicalize_line_terminator, IH.
Qed.

Lemma search_fold_case (k : string → bool) :
  (∀ s, k (fold_case s) = k s) →
  ∀ s, RegExpI.search k (fold_case s) = RegExpI.search k s.
Proof.
  intros Hk s. induction s as [|c s IH]; [done|].
  pose proof (Hk (String c s)) as Hk0. simpl in Hk0 |- *.
  by rewrite Hk0, IH.
Qed.

Lemma re_star_fold_case (k : string → bool) :
  (∀ s, k (fold_case s) = k s) →
  ∀ s, RegExpI.re_star k (fold_case s) = RegExpI.re_star k s.
Proof.
  intros Hk.
  assert (∀ n s, (String.length s ≤ n)%nat →
            RegExpI.re_star k (fold_case s) = RegExpI.re_star k s) as Hgen.
  { induction n as [|n IH]; intros s Hlen.
    - destruct s; [done | simpl in Hlen; lia].
    - destruct s as [|a [|b s]]; [done|..].
      + pose proof (Hk (String a "")) as Hk0. simpl in Hk0 |- *.
        by rewrite Hk0.
      + pose proof (Hk (String a (String b s))) as Hk0.
        cbn [fold_case RegExpI.re_star] in Hk0 |- *.
        rewrite Hk0, !canonicalize_idemp.
        rewrite IH; [done|]. simpl in Hlen. lia. }
  intros s. by apply (Hgen (String.length s)).
Qed.

Lemma digits_fold_case s : RegExpI.digits_ (fold_case s) = RegExpI.digits_ s.
Proof. destruct s; simpl; [done | apply canonicalize_digit]. Qed.

Lemma done_fold_case s : RegExpI.done_ (fold_case s) = RegExpI.done_ s.
Proof. done. Qed.

Lemma stateChange_fold_case body :
  stateChange (fold_case body) = stateChange body.
Proof.
  unfold stateChange.
  repeat first
    [ rewrite search_fold_case
        by (apply then_fold_case; apply done_fold_case)
    | rewrite re_star_fold_case
        by (apply then_fold_case; apply done_fold_case)
    | rewrite (then_fold_case _ RegExpI.done_) by apply done_fold_case
    | rewrite (then_fold_case _ RegExpI.digits_) by apply digits_fold_case
    | rewrite (then_fold_case _ (RegExpI.dot_star _))
        by (apply dot_star_fold_case, then_fold_case, done_fold_case) ].
  done.
Qed.

(** X14. The fixed patterns of [checkIfNoteCanBeSkipped] and the pattern of
    [mergeRequestIsDraft] ignore the case of the letters [a-z]: two texts
    that are equal once these letters are raised to capitals get the same
    answer, and so does [checkIfNoteCanBeSkipped] as a whole when the
    configured patterns ignore the case as well. *)
Theorem X14_tests_ignore_letter_case (body body' : string) :
  fold_case body = fold_case body' →
  stateChange body = stateChange body'
  ∧ mergeRequestIsDraft body = mergeRequestIsDraft body'
  ∧ ∀ conversion note note',
      note_body note = body → note_body note' = body' →
      Forall (fun re : string → bool => ∀ s, re (fold_case s) = re s)
             (skipMatchingComments conversion) →
      checkIfNoteCanBeSkipped conversion note
      = checkIfNoteCanBeSkipped conversion note'.
Proof.
  intros Hfold.
  assert (stateChange body = stateChange body') as Hstate.
  { by rewrite <- (stateChange_fold_case body), Hfold, stateChange_fold_case. }
  assert (∀ t, mergeRequestIsDraft (fold_case t) = mergeRequestIsDraft t)
    as Hdraft.
  { intros t. unfold mergeRequestIsDraft.
    repeat first
      [ rewrite search_fold_case
          by (apply then_fold_case; apply done_fold_case)
      | rewrite (then_fold_case _ RegExpI.done_) by apply done_fold_case ].
    done. }
  split; [done|]. split.
  - by rewrite <- (Hdraft body), Hfold, Hdraft.
  - intros conversion note note' Hb Hb' Hskip.
    unfold checkIfNoteCanBeSkipped. rewrite Hb, Hb', Hstate. f_equal.
    generalize false.
    induction Hskip as [|re res Hre _ IH]; intros acc; [done|].
    cbn [foldl]. rewrite IH. do 2 f_equal.
    by rewrite <- (Hre body), Hfold, Hre.
Qed.

Lemma X14_tests_ignore_letter_case_witness :
  stateChange "STATUS CHANGED TO reopened"
  = stateChange "status changed to REOPENED"
  ∧ mergeRequestIsDraft "STATUS CHANGED TO reopened"
    = mergeRequestIsDraft "status changed to REOPENED".
Proof.
  destruct (X14_tests_ignore_letter_case "STATUS CHANGED TO reopened"
              "status changed to REOPENED" eq_refl) as (H1 & H2 & _).
  split; [exact H1 | exact H2].
Defined.

(** ** The attribution line *)

Lemma truthy_false s : truthy s = false ↔ s = "".
Proof.
  unfold truthy. case_bool_decide; simpl; split; try done.
Qed.

Lemma truthy_true s : truthy s = true ↔ s ≠ "".
Proof.
  unfold truthy. case_bool_decide; simpl; split; try done.
Qed.

(** X15. [createLineRef] returns the empty text exactly when the link of
    the repository is empty or does not start with
    [settings.github.baseUrl], or the position has no [head_sha].
    Otherwise the old side of the diff is taken whenever it is complete
    (line and path), also when the new side is complete as well; the new
    side is taken when only it is complete; and with neither side complete
    the reference names the commit and the link has no fragment. *)
Theorem X15_createLineRef_sides (settings : Settings)
    (md5_hex : string → string) (position : GitLabPosition)
    (repoLink : string) :
  (createLineRef settings md5_hex position repoLink = ""
   ↔ repoLink = ""
     ∨ String.prefix (github_baseUrl settings) repoLink = false
     ∨ head_sha position = "")
  ∧ (createLineRef settings md5_hex position repoLink ≠ "" →
     (∀ line, old_line position = Some line → line ≠ 0 →
        old_path position ≠ "" →
        createLineRef settings md5_hex position repoLink
        = "Commented on ["
          +:+ (old_path position +:+ " line " +:+ Js.Z_toString line)
          +:+ "](" +:+ repoLink +:+ "/compare/" +:+ base_sha position
          +:+ ".." +:+ head_sha position
          +:+ ("#diff-" +:+ md5_hex (old_path position) +:+ "L"
               +:+ Js.Z_toString line)
          +:+ ")" +:+ LFLF)
     ∧ (∀ line, truthy_line (old_line position) = false
                ∨ old_path position = "" →
        new_line position = Some line → line ≠ 0 →
        new_path position ≠ "" →
        createLineRef settings md5_hex position repoLink
        = "Commented on ["
          +:+ (new_path position +:+ " line " +:+ Js.Z_toString line)
          +:+ "](" +:+ repoLink +:+ "/compare/" +:+ base_sha position
          +:+ ".." +:+ head_sha position
          +:+ ("#diff-" +:+ md5_hex (new_path position) +:+ "R"
               +:+ Js.Z_toString line)
          +:+ ")" +:+ LFLF)
     ∧ (truthy_line (old_line position) = false ∨ old_path position = "" →
        truthy_line (new_line position) = false ∨ new_path position = "" →
        createLineRef settings md5_hex position repoLink
        = "Commented on [" +:+ head_sha position
          +:+ "](" +:+ repoLink +:+ "/compare/" +:+ base_sha position
          +:+ ".." +:+ head_sha position +:+ "" +:+ ")" +:+ LFLF)).
Proof.
  unfold createLineRef.
  destruct (negb (truthy repoLink)
            || negb (String.prefix (github_baseUrl settings) repoLink)
            || negb (truthy (head_sha position))) eqn:Hguard.
  - split; [|done]. split; [intros _|done].
    apply orb_true_iff in Hguard as [[H|H]%orb_true_iff|H];
      apply negb_true_iff in H.
    + left. by apply truthy_false.
    + right. by left.
    + right. right. by apply truthy_false.
  - apply orb_false_iff in Hguard as [[H1 H2]%orb_false_iff H3].
    apply negb_false_iff in H1, H2, H3.
    apply truthy_true in H1, H3.
    split.
    { split.
      - intros H. exfalso.
        destruct (truthy_line (new_line position)
                  && truthy (new_path position)
                  || truthy_line (old_line position)
                     && truthy (old_path position));
          [destruct (negb (truthy_line (old_line position))
                     || negb (truthy (old_path position)))|];
          simpl in H; discriminate H.
      - intros [?|[?|?]]; congruence. }
    intros _. split; [|split].
    + intros line Hline Hne Hpath. rewrite Hline.
      apply truthy_true in Hpath.
      assert (truthy_line (Some line) = true) as Hl.
      { simpl. by apply negb_true_iff, Z.eqb_neq. }
      rewrite Hl, Hpath, orb_true_r. cbn [negb orb andb].
      by rewrite ?Hpath, ?Hl.
    + intros line Hold Hline Hne Hpath. rewrite Hline.
      apply truthy_true in Hpath.
      assert (truthy_line (Some line) = true) as Hl.
      { simpl. by apply negb_true_iff, Z.eqb_neq. }
      rewrite Hl, Hpath. simpl.
      assert (negb (truthy_line (old_line position))
              || negb (truthy (old_path position)) = true) as ->.
      { destruct Hold as [->| ->]; [done|]. by rewrite orb_true_r. }
      by rewrite ?Hpath, ?Hl.
    + intros Hold Hnew.
      assert (truthy_line (new_line position)
              && truthy (new_path position) = false) as ->.
      { destruct Hnew as [->| ->]; [done|]. by rewrite andb_false_r. }
      assert (truthy_line (old_line position)
              && truthy (old_path position) = false) as ->.
      { destruct Hold as [->| ->]; [done|]. by rewrite andb_false_r. }
      done.
Qed.

(** X16. [addMigrationLine] only ever prepends: what it returns is the
    text it was given behind a prefix that does not depend on the text.
    The prefix is empty exactly when the item has no author name or no
    creation date; otherwise it starts with the attribution and ends with
    an empty line. *)
Theorem X16_addMigrationLine_prepends (settings : Settings)
    (md5_hex toLocaleString : string → string) (item : GitLabItem)
    (repoLink : string) :
  ∃ pre,
    (∀ str, addMigrationLine settings md5_hex toLocaleString str item
                             repoLink = pre +:+ str)
    ∧ (pre = "" ↔ author_username item = "" ∨ created_at item = "")
    ∧ (pre ≠ "" →
       ∃ lineRef,
         pre = ("In GitLab by @" +:+ author_username item +:+ " on "
                +:+ toLocaleString (created_at item))
               +:+ lineRef +:+ LFLF
         ∧ (position item = None → lineRef = "")).
Proof.
  unfold addMigrationLine.
  destruct (negb (truthy (author_username item))
            || negb (truthy (created_at item))) eqn:Hguard.
  - exists "". split; [done|]. split; [|done]. split; [intros _|done].
    apply orb_true_iff in Hguard as [H|H]; apply negb_true_iff in H;
      apply truthy_false in H; [by left | by right].
  - apply orb_false_iff in Hguard as [H1 H2].
    apply negb_false_iff in H1, H2. apply truthy_true in H1, H2.
    set (lineRef := match position item with
                    | Some p => createLineRef settings md5_hex p repoLink
                    | None => ""
                    end).
    set (attribution := "In GitLab by @" +:+ author_username item +:+ " on "
                        +:+ toLocaleString (created_at item)).
    exists ((attribution +:+ (if truthy lineRef then LFLF +:+ lineRef
                              else "")) +:+ LFLF).
    split; [intros str; by rewrite !string_app_assoc|].
    split.
    + split; [|intros [?|?]; congruence].
      intros Hempty. apply (f_equal String.length) in Hempty.
      rewrite !string_length_app in Hempty. simpl in Hempty. lia.
    + intros _. exists (if truthy lineRef then LFLF +:+ lineRef else "").
      split; [by rewrite !string_app_assoc|].
      unfold lineRef. by intros ->.
Qed.

Lemma is_special_cases c :
  is_special c = true →
  c = "@"%char ∨ c = "#"%char ∨ c = "%"%char ∨ c = "!"%char
  ∨ c = "["%char ∨ c = "/"%char.
Proof.
  unfold is_special. rewrite !orb_true_iff, !bool_decide_eq_true. tauto.
Qed.

(** The attribution of a plain author name and a plain date holds no
    reference syntax but its [@]. *)
Lemma attribution_has_char c u d :
  plain u = true → plain d = true → is_special c = true → c ≠ "@"%char →
  has_char c ("In GitLab by @" +:+ u +:+ " on " +:+ d +:+ LFLF) = false.
Proof.
  intros Hu Hd Hc Hne.
  change ("In GitLab by @" +:+ u +:+ " on " +:+ d +:+ LFLF)
    with ("In GitLab by @" +:+ (u +:+ (" on " +:+ (d +:+ LFLF)))).
  rewrite !has_char_app.
  rewrite (plain_has_char c u), (plain_has_char c d) by done.
  destruct (is_special_cases c Hc) as [->|[->|[->|[->|[->| ->]]]]];
    [done|..]; by vm_compute.
Qed.

(** X17. With the attribution line in front, a reference at the very start
    of the text is rewritten: for an item with an author name and a date
    that hold no reference syntax, no position, and an empty user map,
    [convertBody] turns the text ["#n..."] into the attribution line, an
    empty line, and the reference as the issue map sends it. *)
Theorem X17_leading_reference_after_attribution (settings : Settings)
    (md5_hex toLocaleString : string → string) (c : RepoConverter)
    (item : GitLabItem) (n rest : string) :
  usermap settings = [] →
  literal_keys settings → project_paths settings →
  author_username item ≠ "" → created_at item ≠ "" →
  position item = None →
  plain (author_username item) = true →
  plain (toLocaleString (created_at item)) = true →
  all_chars Js.is_digit n = true → n ≠ "" →
  starts_with Js.is_digit rest = false → plain rest = true →
  fst (convertBody settings md5_hex toLocaleString c
         (String "#" (n +:+ rest)) item true)
  = "In GitLab by @" +:+ author_username item +:+ " on "
    +:+ toLocaleString (created_at item) +:+ LFLF
    +:+ issueReplacer c n +:+ rest.
Proof.
  intros Hmap _ Hpaths Hauthor Hdate Hpos Hu Hd Hn Hne Hrest Hplain.
  set (u := author_username item) in *.
  set (d := toLocaleString (created_at item)) in *.
  unfold convertBody.
  assert (addMigrationLine settings md5_hex toLocaleString
            (String "#" (n +:+ rest)) item
            (githubUrl (githubHelper c) +:+ "/"
             +:+ githubOwner (githubHelper c) +:+ "/"
             +:+ githubRepo (githubHelper c))
          = ("In GitLab by @" +:+ u +:+ " on " +:+ d +:+ String Js.LF "")
            +:+ String Js.LF (String "#" (n +:+ rest))) as ->.
  { unfold addMigrationLine. fold u.
    apply truthy_true in Hauthor, Hdate. rewrite Hauthor, Hdate, Hpos.
    simpl. fold d.
    repeat (rewrite !string_app_assoc; simpl). done. }
  set (pre := "In GitLab by @" +:+ u +:+ " on " +:+ d +:+ String Js.LF "").
  assert (pre +:+ String Js.LF ""
          = "In GitLab by @" +:+ u +:+ " on " +:+ d +:+ LFLF) as Hpre.
  { unfold pre, LFLF. repeat (rewrite !string_app_assoc; simpl). done. }
  assert (∀ x, is_special x = true → x ≠ "@"%char →
            has_char x (pre +:+ String Js.LF "") = false) as Hfree.
  { intros x Hx Hxne. rewrite Hpre. by apply attribution_has_char. }
  pose proof (digits_plain n Hn) as Hnplain.
  destruct (issueReplacer_form c n Hnplain) as (y & Hy & Hyplain).
  assert (∀ x mid, is_special x = true → x ≠ "@"%char → x ≠ "#"%char →
            plain mid = true →
            has_char x (pre +:+ String Js.LF (String "#" (mid +:+ rest)))
            = false) as Hafter.
  { intros x mid Hx Hx1 Hx2 Hmid.
    change (pre +:+ String Js.LF (String "#" (mid +:+ rest)))
      with (pre +:+ (String Js.LF "" +:+ String "#" (mid +:+ rest))).
    rewrite <- string_app_assoc, has_char_app, Hfree by done.
    simpl. rewrite bool_decide_eq_false_2 by congruence.
    by rewrite has_char_app, !plain_has_char. }
  assert (convertReferences settings c
            (pre +:+ String Js.LF (String "#" (n +:+ rest)))
          = pre +:+ String Js.LF (issueReplacer c n +:+ rest)) as ->.
  { unfold convertReferences.
    assert (convertMentions settings
              (pre +:+ String Js.LF (String "#" (n +:+ rest)))
            = pre +:+ String Js.LF (String "#" (n +:+ rest))) as ->.
    { unfold convertMentions, hasUsermap. by rewrite Hmap. }
    rewrite convertScopedIssues_absent
      by (right; split; [done | by apply Hafter]).
    pose proof (localRef_digits_pass "#"
                  (fun m => issueReplacer c (show (group m 0)))
                  pre Js.LF n rest None eq_refl eq_refl Hn Hne Hrest)
      as Hpass.
    unfold resume in Hpass. unfold convertIssues, replace. rewrite Hpass.
    rewrite (replace_from_absent "#")
      by (apply localRef_needs || by apply Hfree).
    rewrite (replace_from_absent "#")
      by (apply localRef_needs || by apply plain_has_char).
    rewrite string_app_assoc. simpl. rewrite Hy.
    rewrite convertScopedMilestones_absent by (left; by apply Hafter).
    rewrite convertMilestoneTitles_absent by (left; by apply Hafter).
    rewrite convertMilestoneNumbers_absent by (by apply Hafter).
    rewrite convertScopedMergeRequests_absent by (left; by apply Hafter).
    by rewrite convertMergeRequests_absent by (by apply Hafter). }
  assert (pre +:+ String Js.LF (issueReplacer c n +:+ rest)
          = "In GitLab by @" +:+ u +:+ " on " +:+ d +:+ LFLF
            +:+ issueReplacer c n +:+ rest) as Hfinal.
  { change (pre +:+ String Js.LF (issueReplacer c n +:+ rest))
      with (pre +:+ (String Js.LF "" +:+ (issueReplacer c n +:+ rest))).
    rewrite <- string_app_assoc, Hpre.
    repeat (rewrite !string_app_assoc; simpl). done. }
  destruct (transfer_attachments settings); [|done].
  rewrite convertAttachments_absent; [done|].
  rewrite Hy. by apply Hafter.
Qed.

Lemma X17_leading_reference_after_attribution_witness :
  fst (convertBody sample_settings_no_usermap (fun x => x) sample_date
         (with_maps [] {[3 := Js.Num 42]} ∅) "#3" (sample_author "bob") true)
  = "In GitLab by @bob on Jan 5, 2021, 14:03" +:+ LFLF +:+ "#42".
Proof.
  refine (X17_leading_reference_after_attribution
            sample_settings_no_usermap (fun x => x) sample_date
            (with_maps [] {[3 := Js.Num 42]} ∅) (sample_author "bob")
            "3" "" _ _ _ _ _ _ _ _ _ _ _ _); try reflexivity; try done.
  - unfold literal_keys. simpl. repeat constructor.
  - unfold project_paths. simpl. repeat constructor.
Defined.

(** ** Merge request and milestone references *)

Lemma mrReplacer_form c n :
  plain n = true →
  ∃ sigil x, mrReplacer c n = String sigil x ∧ plain x = true
             ∧ (sigil = "#"%char ∨ sigil = "!"%char).
Proof.
  intros Hn. unfold mrReplacer.
  destruct (mrMap c) as [mm|]; [|by exists "!"%char, n; auto].
  destruct (mm !! Js.parseInt n) as [pr|]; [|by exists "!"%char, n; auto].
  exists "#"%char, (Js.toString pr). split; [done|].
  split; [apply plain_toString | by left].
Qed.

(** X18. A merge request reference [!n] behind a character that is no
    word character is replaced by [#m] when the merge request map sends
    [n] to [m] (pull requests share the numbers of the issues), and left
    as [!n] when the map is absent or has no entry; the pass goes on
    behind the reference.  In [convertBody] the merge request pass comes
    last, so the [#m] it writes is not taken for an issue reference: a
    text that holds no other reference syntax comes out with just this
    reference replaced. *)
Theorem X18_merge_request_reference_rewritten (settings : Settings)
    (md5_hex toLocaleString : string → string) (c : RepoConverter)
    (item : GitLabItem) (add_line : bool) (pre : string) (p : ascii)
    (n rest : string) :
  Js.is_word p = false →
  all_chars Js.is_digit n = true → n ≠ "" →
  starts_with Js.is_digit rest = false →
  convertMergeRequests c (pre +:+ String p (String "!" (n +:+ rest)))
  = convertMergeRequests c (pre +:+ String p "")
    +:+ mrReplacer c n
    +:+ resume (localRef "!" Digits)
               (fun m => mrReplacer c (show (group m 0)))
               (prev_after (Some "!"%char) n) rest
  ∧ (∀ mm pr, mrMap c = Some mm → mm !! Js.parseInt n = Some pr →
       mrReplacer c n = "#" +:+ Js.toString pr)
  ∧ (mrMap c = None
     ∨ (∃ mm, mrMap c = Some mm ∧ mm !! Js.parseInt n = None) →
     mrReplacer c n = "!" +:+ n)
  ∧ (plain (pre +:+ String p rest) = true →
     literal_keys settings → project_paths settings →
     attribution_added add_line item = false →
     fst (convertBody settings md5_hex toLocaleString c
            (pre +:+ String p (String "!" (n +:+ rest))) item add_line)
     = pre +:+ String p (mrReplacer c n +:+ rest)).
Proof.
  intros Hp Hn Hne Hrest.
  assert (convertMergeRequests c (pre +:+ String p (String "!" (n +:+ rest)))
          = convertMergeRequests c (pre +:+ String p "")
            +:+ mrReplacer c n
            +:+ resume (localRef "!" Digits)
                       (fun m => mrReplacer c (show (group m 0)))
                       (prev_after (Some "!"%char) n) rest) as Hpass.
  { unfold convertMergeRequests, replace.
    apply (localRef_digits_pass "!"
             (fun m => mrReplacer c (show (group m 0)))); done. }
  split; [exact Hpass|].
  split.
  { intros mm pr Hmm Hpr. unfold mrReplacer. by rewrite Hmm, Hpr. }
  split.
  { unfold mrReplacer. intros [->|(mm & -> & ->)]; done. }
  intros Hplain _ Hpaths Hadd.
  rewrite convertBody_not_added by done.
  pose proof (digits_plain n Hn) as Hnplain.
  destruct (mrReplacer_form c n Hnplain) as (sigil & x & Hx & Hxplain & Hsig).
  assert (plain pre = true ∧ negb (is_special p) = true
          ∧ plain rest = true) as (Hpre & Hpp & Hrestp).
  { rewrite plain_app in Hplain.
    apply andb_true_iff in Hplain as [? [? ?]%andb_true_iff]. done. }
  assert (convertReferences settings c
            (pre +:+ String p (String "!" (n +:+ rest)))
          = pre +:+ String p (mrReplacer c n +:+ rest)) as ->.
  { unfold convertReferences.
    rewrite convertMentions_absent by (by apply has_char_around).
    rewrite convertScopedIssues_absent by (left; by apply has_char_around).
    rewrite convertIssues_absent by (by apply has_char_around).
    rewrite convertScopedMilestones_absent
      by (left; by apply has_char_around).
    rewrite convertMilestoneTitles_absent
      by (left; by apply has_char_around).
    rewrite convertMilestoneNumbers_absent by (by apply has_char_around).
    rewrite convertScopedMergeRequests_absent
      by (right; split; [done|by apply has_char_around]).
    rewrite Hpass.
    rewrite convertMergeRequests_absent.
    2:{ apply plain_has_char; [|done]. rewrite plain_app, Hpre.
        change (plain (String p "")) with (negb (is_special p) && true).
        by rewrite Hpp. }
    unfold resume. rewrite (replace_from_absent "!")
      by (apply localRef_needs || by apply plain_has_char).
    rewrite string_app_assoc. by simpl. }
  destruct (transfer_attachments settings); [|done].
  rewrite convertAttachments_absent; [done|].
  rewrite Hx. apply has_char_around; try done.
  destruct Hsig as [-> | ->]; done.
Qed.

Lemma X18_merge_request_reference_rewritten_witness :
  fst (convertBody sample_settings (fun x => x) (fun x => x)
         (with_maps [] {[3 := Js.Num 42]} {[3 := Js.Num 45]}) "see !3"
         (sample_item 1 "first") false)
  = "see #45".
Proof.
  refine (proj2 (proj2 (proj2
    (X18_merge_request_reference_rewritten sample_settings (fun x => x)
       (fun x => x) (with_maps [] {[3 := Js.Num 42]} {[3 := Js.Num 45]})
       (sample_item 1 "first") false "see" " " "3" "" _ _ _ _))) _ _ _ _);
    try reflexivity; try done.
  - unfold literal_keys. simpl. repeat constructor.
  - unfold project_paths. simpl. repeat constructor.
Defined.

(** No match of a same-project reference starts where the sigil is not. *)
Lemma localRef_local_absent sigil t b :
  ∀ a prev, has_char sigil a = false → local_all (localRef sigil t) prev a b.
Proof.
  induction a as [|x a IH]; intros prev Ha; [done|].
  simpl in Ha. apply orb_false_iff in Ha as [Hx Ha].
  apply bool_decide_eq_false in Hx.
  cbn [local_all]. split; [|by apply IH].
  unfold local_at, localRef. cbn [String.append].
  destruct prev as [q|]; [|done]. destruct (Js.is_word q); [done|].
  by rewrite bool_decide_eq_false_2.
Qed.

(** A pass leaves alone what comes before the first sigil. *)
Lemma localRef_pass_after sigil t replacer a b prev :
  has_char sigil a = false →
  resume (localRef sigil t) replacer prev (a +:+ b)
  = a +:+ resume (localRef sigil t) replacer (prev_after prev a) b.
Proof.
  intros Ha. unfold resume.
  rewrite replace_from_app; [|lia|].
  - rewrite (replace_from_absent sigil) by (apply localRef_needs || done).
    f_equal. apply replace_from_offset.
  - intros a1 a2 -> Hlen. destruct a1; [|discriminate]. simpl.
    by apply localRef_local_absent.
Qed.

Lemma until_quote_app title rest :
  has_char Js.DQUOTE title = false →
  all_chars (fun c => negb (Js.is_line_terminator c)) title = true →
  until_quote (title +:+ String Js.DQUOTE rest) = Some title.
Proof.
  induction title as [|c title IH]; intros Hq Hl.
  - by vm_compute.
  - cbn [String.append until_quote]. simpl in Hq, Hl. apply orb_false_iff in Hq as [Hc Hq].
    apply andb_true_iff in Hl as [Hcl Hl].
    rewrite Hc. apply negb_true_iff in Hcl. rewrite Hcl.
    by rewrite IH.
Qed.

(** The pass of a quoted reference that stands behind a code unit that is
    no word character, no sigil before it. *)
Lemma localRef_quoted_pass sigil replacer pre p title rest :
  Js.is_word p = false →
  has_char sigil (pre +:+ String p "") = false →
  has_char Js.DQUOTE title = false →
  all_chars (fun c => negb (Js.is_line_terminator c)) title = true →
  replace (localRef sigil QuotedInner) (fun m _ => replacer m)
          (pre +:+ String p (String sigil (quote title +:+ rest)))
  = pre +:+ String p
      (replacer {| matched := String sigil (quote title);
                   groups := [Some title] |}
       +:+ resume (localRef sigil QuotedInner) replacer
                  (Some Js.DQUOTE) rest).
Proof.
  intros Hp Hpre Hq Hl.
  replace (pre +:+ String p (String sigil (quote title +:+ rest)))
    with ((pre +:+ String p "") +:+ String sigil (quote title +:+ rest))
    by by rewrite string_app_assoc.
  change (replace (localRef sigil QuotedInner) (fun m _ => replacer m) ?s)
    with (resume (localRef sigil QuotedInner) replacer None s).
  rewrite localRef_pass_after by done.
  rewrite string_app_assoc. cbn [String.append]. do 2 f_equal.
  rewrite prev_after_app. cbn [prev_after]. unfold resume.
  cbn [replace_from].
  unfold localRef at 1. rewrite Hp, bool_decide_eq_true_2 by done.
  assert (quoted (quote title +:+ rest) = Some title) as Hquoted.
  { unfold quote. cbn [String.append quoted].
    rewrite bool_decide_eq_true_2 by done.
    rewrite string_app_assoc. cbn [String.append].
    by apply until_quote_app. }
  cbn [ref_tail]. rewrite Hquoted.
  cbn [fmap option_fmap option_map matched]. fold (quote title). f_equal.
  cbn [String.length Nat.pred].
  rewrite replace_from_skip.
  rewrite (replace_from_offset _ _ _ _ _ _ 0%nat). f_equal.
  unfold quote. cbn [prev_after].
  assert (∀ t q, prev_after q (t +:+ String Js.DQUOTE "") = Some Js.DQUOTE)
    as Hprev.
  { clear. induction t as [|c t IH]; intros q; [done|]. apply IH. }
  apply Hprev.
Qed.

(** X19. A milestone reference [%n] behind a character that is no word
    character, [n] a key of the milestone map: the reference is replaced
    by a markdown link that bears the title and the number of the
    destination milestone the map holds for [n], in the destination
    repository. *)
Theorem X19_milestone_reference_resolved (c : RepoConverter)
    (mm : JsMap.t SimpleItem) (m : SimpleItem) (pre : string) (p : ascii)
    (n rest : string) :
  Js.is_word p = false →
  all_chars Js.is_digit n = true → n ≠ "" →
  starts_with Js.is_digit rest = false →
  milestoneMap c = Some mm →
  JsMap.get (Js.parseInt n) mm = Some m →
  convertMilestoneNumbers c (pre +:+ String p (String "%" (n +:+ rest)))
  = convertMilestoneNumbers c (pre +:+ String p "")
    +:+ ("[" +:+ title m +:+ "](" +:+
         (githubUrl (githubHelper c) +:+ "/"
          +:+ githubOwner (githubHelper c) +:+ "/"
          +:+ githubRepo (githubHelper c))
         +:+ "/milestone/" +:+ Js.Z_toString (iid m) +:+ ")")
    +:+ resume (localRef "%" Digits)
               (fun m => milestoneReplacer c (show (group m 0)) "" "")
               (prev_after (Some "%"%char) n) rest.
Proof.
  intros Hp Hn Hne Hrest Hmm Hm.
  unfold convertMilestoneNumbers, replace.
  pose proof (localRef_digits_pass "%"
                (fun m => milestoneReplacer c (show (group m 0)) "" "")
                pre p n rest None Hp eq_refl Hn Hne Hrest) as Hpass.
  unfold resume in Hpass |- *. rewrite Hpass. do 2 f_equal.
  change (show (group {| matched := String "%" n; groups := [Some n] |} 0))
    with n.
  unfold milestoneReplacer. rewrite Hmm.
  apply truthy_true in Hne. rewrite Hne, Hm. done.
Qed.

Lemma X19_milestone_reference_resolved_witness :
  convertMilestoneNumbers
    (with_maps [(3, mkSimpleItem 7 "v1.0" None None)] ∅ ∅) "see %3."
  = "see [v1.0](https://github.com/owner/repo/milestone/7).".
Proof.
  refine (X19_milestone_reference_resolved
            (with_maps [(3, mkSimpleItem 7 "v1.0" None None)] ∅ ∅)
            [(3, mkSimpleItem 7 "v1.0" None None)]
            (mkSimpleItem 7 "v1.0" None None) "see" " " "3" "."
            _ _ _ _ _ _); try reflexivity; done.
Defined.

(** X20. The pass of quoted milestone references comes before the pass of
    numeric ones, and the text it writes for a title it cannot resolve
    holds the title behind [ %]: a reference [%"title"] whose title begins
    with digits [n] and is the title of no milestone of the map is
    rewritten twice, the second pass replacing the [%n] inside the text of
    the first. *)
Theorem X20_quoted_milestone_rewritten_twice (c : RepoConverter)
    (pre : string) (p : ascii) (n more rest : string) :
  Js.is_word p = false →
  has_char "%" (pre +:+ String p "") = false →
  all_chars Js.is_digit n = true → n ≠ "" →
  starts_with Js.is_digit more = false →
  has_char "%" more = false → has_char "%" rest = false →
  has_char Js.DQUOTE (n +:+ more) = false →
  all_chars (fun c => negb (Js.is_line_terminator c)) (n +:+ more) = true →
  milestoneMap c = None
  ∨ (∃ mm, milestoneMap c = Some mm
           ∧ List.find (fun m => String.eqb (title m) (n +:+ more))
                       (JsMap.values mm) = None) →
  convertMilestoneNumbers c
    (convertMilestoneTitles c
       (pre +:+ String p (String "%" (quote (n +:+ more) +:+ rest))))
  = pre +:+ String p
      ("'Reference to deleted milestone "
       +:+ milestoneReplacer c n "" "" +:+ more +:+ "'" +:+ rest).
Proof.
  intros Hp Hpre Hn Hne Hmore Hmore' Hrest' Hq Hl Hun.
  unfold convertMilestoneTitles.
  rewrite (localRef_quoted_pass "%"
             (fun m => milestoneReplacer c "" (show (group m 0)) ""))
    by done.
  change (show (group {| matched := String "%" (quote (n +:+ more));
                         groups := [Some (n +:+ more)] |} 0))
    with (n +:+ more).
  rewrite (milestoneReplacer_unresolved_title c (n +:+ more) "") by done.
  unfold resume at 1.
  rewrite (replace_from_absent "%") by (apply localRef_needs || done).
  set (pre1 := pre +:+ String p "'Reference to deleted milestone").
  set (rest1 := more +:+ "'" +:+ rest).
  assert (pre +:+ String p
            (("'Reference to deleted milestone %" +:+ (n +:+ more) +:+ "'")
             +:+ rest)
          = pre1 +:+ String " " (String "%" (n +:+ rest1))) as ->.
  { unfold pre1, rest1.
    repeat (rewrite ?string_app_assoc; cbn [String.append]). done. }
  assert (starts_with Js.is_digit rest1 = false) as Hrest1.
  { unfold rest1. by destruct more. }
  pose proof (localRef_digits_pass "%"
                (fun m => milestoneReplacer c (show (group m 0)) "" "")
                pre1 " " n rest1 None eq_refl eq_refl Hn Hne Hrest1)
    as Hpass.
  unfold resume in Hpass. unfold convertMilestoneNumbers, replace.
  rewrite Hpass.
  change (show (group {| matched := String "%" n; groups := [Some n] |} 0))
    with n.
  assert (has_char "%" (pre1 +:+ " ") = false) as Hpre1.
  { unfold pre1.
    replace (pre +:+ String p "'Reference to deleted milestone")
      with ((pre +:+ String p "") +:+ "'Reference to deleted milestone")
      by (by rewrite string_app_assoc).
    rewrite has_char_app in Hpre. by rewrite !has_char_app, Hpre. }
  assert (has_char "%" rest1 = false) as Hrest1'.
  { unfold rest1. by rewrite !has_char_app, Hmore', Hrest'. }
  rewrite !(replace_from_absent "%") by (apply localRef_needs || done).
  unfold pre1, rest1.
  repeat (rewrite ?string_app_assoc; cbn [String.append]). done.
Qed.

Lemma X20_quoted_milestone_rewritten_twice_witness :
  convertMilestoneNumbers
    (with_maps [(1, mkSimpleItem 1 "v1.0" None None)] ∅ ∅)
    (convertMilestoneTitles
       (with_maps [(1, mkSimpleItem 1 "v1.0" None None)] ∅ ∅)
       ("see %" +:+ quote "1.0"))
  = "see 'Reference to deleted milestone [v1.0](https://github.com/owner/repo/milestone/1).0'".
Proof.
  refine (X20_quoted_milestone_rewritten_twice
            (with_maps [(1, mkSimpleItem 1 "v1.0" None None)] ∅ ∅)
            "see" " " "1" ".0" "" _ _ _ _ _ _ _ _ _ _);
    try reflexivity; try done.
  right. eexists. split; reflexivity.
Defined.

(** ** Mentions *)

(** An expression whose matches begin with [c] finds nothing to look at
    in a text without [c], whatever follows the text. *)
Lemma begins_with_local c re b :
  begins_with c re →
  ∀ a prev, has_char c a = false → local_all re prev a b.
Proof.
  intros Hre. induction a as [|x a IH]; intros prev Ha; [done|].
  simpl in Ha. apply orb_false_iff in Ha as [Hx Ha].
  apply bool_decide_eq_false in Hx.
  cbn [local_all]. split; [|by apply IH].
  unfold local_at. cbn [String.append].
  destruct (re prev (String x (a +:+ b))) as [m|] eqn:E.
  { apply Hre in E as [s' [= -> _]]. done. }
  destruct (re prev (String x a)) as [m|] eqn:E'; [|done].
  apply Hre in E' as [s' [= -> _]]. done.
Qed.

Lemma begins_with_needs c re : begins_with c re → needs c re.
Proof.
  intros Hre prev s m [s' ->]%Hre. apply has_char_here.
Qed.

Lemma begins_with_pass_after c re replacer a b prev :
  begins_with c re →
  has_char c a = false →
  resume re replacer prev (a +:+ b)
  = a +:+ resume re replacer (prev_after prev a) b.
Proof.
  intros Hre Ha. unfold resume.
  rewrite replace_from_app; [|lia|].
  - rewrite (replace_from_absent c) by (by apply begins_with_needs || done).
    f_equal. apply replace_from_offset.
  - intros a1 a2 -> Hlen. destruct a1; [|discriminate]. simpl.
    by apply (begins_with_local c).
Qed.

Lemma mentionRegExp_begins keys : begins_with "@" (mentionRegExp keys).
Proof.
  intros prev s m. unfold mentionRegExp.
  induction keys as [|key keys IH]; simpl; [done|].
  destruct s as [|c s']; [by destruct keys|].
  case_bool_decide as Hc; [|exact IH].
  intros _. subst c. by eexists.
Qed.

Lemma substring_all s n :
  (String.length s ≤ n)%nat → String.substring 0 n s = s.
Proof.
  revert n. induction s as [|c s IH]; intros n Hn; [by destruct n|].
  destruct n as [|n]; [simpl in Hn; lia|]. simpl. rewrite IH; [done|].
  simpl in Hn. lia.
Qed.

Lemma mention_alternatives_first before key after s rest :
  Forall (fun k => strip_prefix k s = None) before →
  strip_prefix key s = Some rest →
  mention_alternatives (before ++ key :: after) (String "@" s)
  = Some {| matched := String "@" key; groups := [] |}.
Proof.
  intros Hbefore Hkey.
  induction Hbefore as [|k before Hk _ IH];
    cbn [app mention_alternatives strip_prefix].
  - rewrite bool_decide_eq_true_2 by done. by rewrite Hkey.
  - rewrite bool_decide_eq_true_2 by done. by rewrite Hk.
Qed.

Lemma prop_first (before after : list (string * string)) key v :
  key ∉ before.*1 →
  prop (before ++ (key, v) :: after) key = Some v.
Proof.
  intros Hnotin. unfold prop. rewrite find_app.
  assert (List.find (fun kv => String.eqb (fst kv) key) before = None) as ->.
  { induction before as [|[k w] before IH]; [done|]. simpl.
    rewrite fmap_cons, not_elem_of_cons in Hnotin.
    destruct Hnotin as [Hne Hnotin]. simpl in Hne.
    apply not_eq_sym, String.eqb_neq in Hne. rewrite Hne. by apply IH. }
  simpl. by rewrite String.eqb_refl.
Qed.

(** X21. Mentions are matched by prefix.  The keys of the maps hold no
    metacharacter of regular expressions, so that the pattern built from
    them reads each key as plain text.  Where the text behind an [@]
    begins with a key of the user map, and with no key that stands before
    it in the map, the [@] and the key are replaced by [@] and the name the
    map gives for the key, whatever follows the key: with [alice] mapped to
    [alice-gh], the mention [@alice2] becomes [@alice-gh2].  The text
    before the first [@] is left as it is and the pass goes on behind the
    key. *)
Theorem X21_mention_replaced_by_prefix (settings : Settings)
    (before after : list (string * string)) (key v pre rest : string) :
  literal_keys settings →
  usermap settings = before ++ (key, v) :: after →
  Forall (fun k => strip_prefix k (key +:+ rest) = None) before.*1 →
  has_char "@" pre = false →
  convertMentions settings (pre +:+ String "@" (key +:+ rest))
  = pre +:+ String "@"
      (v +:+ resume (mentionRegExp (keys (usermap settings)))
                    (mentionReplacer settings)
                    (prev_after (Some "@"%char) key) rest).
Proof.
  intros _ Hmap Hbefore Hpre.
  assert (key ∉ before.*1) as Hnotin.
  { intros Hin. pose proof (proj1 (Forall_forall _ _) Hbefore key Hin) as H.
    simpl in H. by rewrite strip_prefix_app_eq in H. }
  unfold convertMentions, hasUsermap.
  assert (keys (usermap settings) = before.*1 ++ key :: after.*1) as Hkeys.
  { unfold keys. by rewrite Hmap, fmap_app. }
  rewrite bool_decide_eq_false_2.
  2:{ rewrite Hkeys. by destruct (before.*1). }
  simpl negb. cbv iota.
  change (replace ?re (fun m _ => mentionReplacer settings m) ?s)
    with (resume re (mentionReplacer settings) None s).
  rewrite (begins_with_pass_after "@") by (apply mentionRegExp_begins || done).
  f_equal. unfold resume. cbn [replace_from].
  unfold mentionRegExp at 1. rewrite Hkeys.
  rewrite (mention_alternatives_first _ _ _ _ rest)
    by (done || apply strip_prefix_app_eq).
  rewrite <- Hkeys. cbn [matched String.length Nat.pred].
  rewrite replace_from_skip.
  rewrite (replace_from_offset _ _ _ _ _ _ 0%nat).
  unfold mentionReplacer at 1. cbn [matched String.length String.substring].
  rewrite substring_all by lia.
  rewrite Hmap, prop_first by done. by simpl.
Qed.

Lemma X21_mention_replaced_by_prefix_witness :
  convertMentions sample_settings "cc @alice2"
  = "cc @alice-gh2".
Proof.
  refine (X21_mention_replaced_by_prefix sample_settings [] []
            "alice" "alice-gh" "cc " "2" _ _ _ _); try reflexivity.
  - unfold literal_keys. simpl. repeat constructor.
  - constructor.
Defined.

(** ** Scoped references, for any project map *)

(** A match at the head of a text is replaced and the pass goes on behind
    it. *)
Lemma replace_from_match re replacer prev offset w rest m :
  w ≠ "" →
  re prev (w +:+ rest) = Some m → matched m = w →
  replace_from re (fun m _ => replacer m) prev 0 offset (w +:+ rest)
  = replacer m +:+ resume re replacer (prev_after prev w) rest.
Proof.
  intros Hw Hm Hmatched. destruct w as [|c w]; [done|].
  cbn [String.append replace_from]. cbn [String.append] in Hm.
  rewrite Hm, Hmatched. cbn [String.length Nat.pred prev_after].
  rewrite replace_from_skip. f_equal. apply replace_from_offset.
Qed.

(** The alternatives are tried in order: the first one that matches sets
    its two groups and no other. *)
Lemma scoped_alternatives_first sigil t key whole captured s after :
  ∀ before' acc,
    Forall (fun k => scoped_alternative sigil t k s = None) before' →
    scoped_alternative sigil t key s = Some (whole, captured) →
    scoped_alternatives sigil t acc (before' ++ key :: after) s
    = Some {| matched := whole;
              groups := replicate (2 * length (acc ++ before')) None
                        ++ [Some key; Some captured]
                        ++ replicate (2 * length after) None |}.
Proof.
  induction before' as [|k before' IH]; intros acc Hbefore Hkey.
  - cbn [app scoped_alternatives]. rewrite Hkey. by rewrite app_nil_r.
  - apply Forall_cons in Hbefore as [Hk Hbefore].
    cbn [app scoped_alternatives]. rewrite Hk.
    rewrite IH by done. by rewrite <- app_assoc.
Qed.

Lemma scoped_alternative_no_prefix sigil t k s :
  strip_prefix k s = None → scoped_alternative sigil t k s = None.
Proof. intros H. unfold scoped_alternative. by rewrite H. Qed.

Lemma scoped_alternative_digits sigil key n rest :
  all_chars Js.is_digit n = true → n ≠ "" →
  starts_with Js.is_digit rest = false →
  scoped_alternative sigil Digits key (key +:+ String sigil (n +:+ rest))
  = Some (key +:+ String sigil n, n).
Proof.
  intros Hn Hne Hrest. unfold scoped_alternative.
  rewrite strip_prefix_app_eq, bool_decide_eq_true_2 by done.
  cbn [ref_tail]. unfold digits1. rewrite span_digits_app by done.
  by rewrite bool_decide_eq_false_2.
Qed.

(** A numeric scoped reference at the head of a text, nothing of the kind
    behind it. *)
Lemma scopedRef_digits_pass settings sigil
    (before after : list (string * string)) (key v n rest : string) :
  projectmap settings = before ++ (key, v) :: after →
  Forall (fun k => strip_prefix k (key +:+ String sigil (n +:+ rest)) = None)
         before.*1 →
  all_chars Js.is_digit n = true → n ≠ "" →
  starts_with Js.is_digit rest = false →
  has_char sigil rest = false →
  replace (scopedRef sigil Digits (keys (projectmap settings)))
          (fun m _ => scopedReplacer settings m)
          (key +:+ String sigil (n +:+ rest))
  = (if bool_decide (before = []) then v +:+ "#" +:+ n
     else show (prop (projectmap settings) "undefined") +:+ "#undefined")
    +:+ rest.
Proof.
  intros Hmap Hbefore Hn Hne Hrest Hfree.
  assert (keys (projectmap settings) = before.*1 ++ key :: after.*1) as Hkeys.
  { unfold keys. by rewrite Hmap, fmap_app. }
  assert (key ∉ before.*1) as Hnotin.
  { intros Hin. pose proof (proj1 (Forall_forall _ _) Hbefore key Hin) as H.
    simpl in H. by rewrite strip_prefix_app_eq in H. }
  pose proof (scoped_alternatives_first sigil Digits key
                (key +:+ String sigil n) n
                (key +:+ String sigil (n +:+ rest)) after.*1 before.*1 []) as Hm.
  rewrite scoped_alternative_digits in Hm by done.
  specialize (Hm ltac:(eapply Forall_impl; [exact Hbefore|];
                       intros k Hk; by apply scoped_alternative_no_prefix)
                 eq_refl).
  cbn [app] in Hm. unfold replace.
  replace (key +:+ String sigil (n +:+ rest))
    with ((key +:+ String sigil n) +:+ rest) in Hm |- *
    by (rewrite string_app_assoc; by cbn [String.append]).
  erewrite (replace_from_match _ (scopedReplacer settings) None 0
              (key +:+ String sigil n) rest);
    [| by destruct key | unfold scopedRef; rewrite Hkeys; exact Hm | done].
  unfold resume. rewrite (replace_from_absent sigil)
    by (apply scopedRef_needs_sigil || done).
  f_equal. case_bool_decide as Hb.
  - subst before. unfold scopedReplacer, group. simpl. rewrite Hmap.
    rewrite (prop_first [] after key v); [done|]. apply not_elem_of_nil.
  - assert (before.*1 ≠ []) as Hb' by (by destruct before).
    destruct before.*1 as [|k0 ks] eqn:Hks; [done|].
    cbn [app scoped_alternatives] in Hm.
    pose proof (Forall_inv Hbefore) as Hk0. cbn beta in Hk0.
    replace (key +:+ String sigil (n +:+ rest))
      with ((key +:+ String sigil n) +:+ rest) in Hk0
      by (rewrite string_app_assoc; by cbn [String.append]).
    rewrite (scoped_alternative_no_prefix _ _ _ _ Hk0) in Hm.
    apply scoped_alternatives_later in Hm as [H0 H1]; [|done].
    unfold scopedReplacer. by rewrite H0, H1.
Qed.

(** X22. Scoped references, for a project map of any size whose keys hold
    no metacharacter of regular expressions, so that the pattern built
    from them reads each key as plain text.  A reference
    [project#n] or [project!n] at the head of a text, into the first
    project of the map, is rewritten to the mapped project with [#n]; into
    any later project it is rewritten to what the replacer makes of two
    unset groups, ["undefined#undefined"] when the map has no key
    "undefined": the project and the number are both lost. *)
Theorem X22_scoped_reference_by_position (settings : Settings)
    (before after : list (string * string)) (key v n rest : string) :
  literal_keys settings →
  projectmap settings = before ++ (key, v) :: after →
  all_chars Js.is_digit n = true → n ≠ "" →
  starts_with Js.is_digit rest = false →
  (Forall (fun k => strip_prefix k (key +:+ String "#" (n +:+ rest)) = None)
          before.*1 →
   has_char "#" rest = false →
   convertScopedIssues settings (key +:+ String "#" (n +:+ rest))
   = (if bool_decide (before = []) then v +:+ "#" +:+ n
      else show (prop (projectmap settings) "undefined") +:+ "#undefined")
     +:+ rest)
  ∧ (Forall (fun k => strip_prefix k (key +:+ String "!" (n +:+ rest)) = None)
            before.*1 →
     has_char "!" rest = false →
     convertScopedMergeRequests settings (key +:+ String "!" (n +:+ rest))
     = (if bool_decide (before = []) then v +:+ "#" +:+ n
        else show (prop (projectmap settings) "undefined") +:+ "#undefined")
       +:+ rest).
Proof.
  intros _ Hmap Hn Hne Hrest.
  assert (hasProjectmap settings = true) as Hhas.
  { unfold hasProjectmap, keys. rewrite Hmap, fmap_app.
    apply negb_true_iff, bool_decide_eq_false. by destruct (before.*1). }
  split; intros Hbefore Hfree.
  - unfold convertScopedIssues. rewrite Hhas.
    by apply (scopedRef_digits_pass settings "#" before after).
  - unfold convertScopedMergeRequests. rewrite Hhas.
    by apply (scopedRef_digits_pass settings "!" before after).
Qed.

Lemma X22_scoped_reference_by_position_witness :
  convertScopedIssues sample_settings "thirdorg/repo#5."
  = "undefined#undefined.".
Proof.
  refine (proj1 (X22_scoped_reference_by_position sample_settings
                   [("otherorg/repo", "dest/repo")] []
                   "thirdorg/repo" "dest3/repo" "5" "." _ _ _ _ _) _ _);
    try reflexivity; try done.
  - unfold literal_keys. simpl. repeat constructor.
  - repeat constructor.
Defined.

(** ** Links to attachments and the source host *)

Lemma endsWith_slash_app w : endsWith_slash (w +:+ "/") = true.
Proof.
  induction w as [|c w IH]; [done|].
  cbn [String.append]. destruct w as [|c' w]; [done|]. exact IH.
Qed.

Lemma substring_prefix w r :
  String.substring 0 (String.length w) (w +:+ r) = w.
Proof. induction w as [|c w IH]; simpl; [by destruct r|]. by rewrite IH. Qed.

(** X23. The link the pass-through storage helper writes for an attachment
    is the URL [getAttachment] downloads it from exactly when the host of
    the GitLab helper does not end with a slash; and the constructor of the
    helper yields such a host from every configured URL that ends with at
    most one slash, the one slash being removed. *)
Theorem X23_attachment_link_is_download_url (gl : GitLabHelper)
    (url : string) :
  (destination (preprocessAttachment (PassThroughStorageHelper gl) url)
   = getAttachment_url gl url
   ↔ endsWith_slash (host gl) = false)
  ∧ (∀ u, endsWith_slash u = false →
       endsWith_slash (GitLabHelper_host u) = false)
  ∧ (∀ w, w ≠ "" → endsWith_slash w = false →
       GitLabHelper_host (w +:+ "/") = w).
Proof.
  split; [|split].
  - unfold PassThroughStorageHelper, getAttachment_url. simpl.
    destruct (endsWith_slash (host gl)) eqn:Hends.
    + split; [|done]. intros Heq. exfalso.
      apply (f_equal String.length) in Heq.
      rewrite !string_length_app in Heq. simpl in Heq.
      rewrite string_length_app in Heq. lia.
    + split; [done|]. intros _. by rewrite !string_app_assoc.
  - intros u Hu. unfold GitLabHelper_host.
    destruct (truthy u); [by rewrite Hu | done].
  - intros w Hw Hends. unfold GitLabHelper_host.
    assert (truthy (w +:+ "/") = true) as ->.
    { apply truthy_true. by destruct w. }
    rewrite endsWith_slash_app, string_length_app. simpl.
    replace (String.length w + 1 - 1)%nat with (String.length w) by lia.
    apply substring_prefix.
Qed.

(** ** Labels of the driver *)

(** X24. [transferLabels] never asks for a label whose name the destination
    already lists: every label it creates has a name that is not among the
    destination labels (or is empty); each is a converted label of the
    project or one of the two fixed labels; and the label "gitlab merge
    request" comes last whenever the destination does not have it. *)
Theorem X24_transferLabels_creates_missing_labels
    (gitlabLabels : list LabelData) (githubLabels : list string)
    (attachmentLabel useLowerCase : bool) :
  (∀ label,
     label ∈ transferLabels gitlabLabels githubLabels attachmentLabel
               useLowerCase →
     (label_name label ∉ githubLabels ∨ label_name label = "")
     ∧ ((∃ l, l ∈ gitlabLabels ∧ label = convertLabel l useLowerCase)
        ∨ (attachmentLabel = true ∧ label = hasAttachmentLabel)
        ∨ label = gitlabMergeRequestLabel))
  ∧ ("gitlab merge request" ∉ githubLabels →
     last (transferLabels gitlabLabels githubLabels attachmentLabel
             useLowerCase) = Some gitlabMergeRequestLabel)
  ∧ ("gitlab merge request" ∈ githubLabels →
     gitlabMergeRequestLabel
     ∉ transferLabels gitlabLabels githubLabels attachmentLabel
         useLowerCase).
Proof.
  unfold transferLabels.
  set (missing := fun label : LabelData =>
         match List.find (fun l => String.eqb l (label_name label))
                         githubLabels with
         | Some found => negb (truthy found)
         | None => true
         end).
  set (labels := if attachmentLabel
                 then ((fun l => convertLabel l useLowerCase) <$> gitlabLabels)
                      ++ [hasAttachmentLabel]
                 else (fun l => convertLabel l useLowerCase) <$> gitlabLabels).
  assert (∀ label, missing label = true →
            label_name label ∉ githubLabels ∨ label_name label = "")
    as Hmissing.
  { intros label. unfold missing.
    destruct (List.find _ _) as [found|] eqn:Hfind.
    - apply List.find_some in Hfind as [_ Heq]. apply String.eqb_eq in Heq.
      subst found. intros H. right. by apply truthy_false, negb_true_iff.
    - intros _. left. intros Hin. apply list_elem_of_In in Hin.
      pose proof (List.find_none _ _ Hfind _ Hin) as Hne. simpl in Hne.
      by rewrite String.eqb_refl in Hne. }
  split; [|split].
  - intros label Hin.
    apply list_elem_of_In, List.filter_In in Hin as [Hin Hm].
    split; [by apply Hmissing|].
    apply list_elem_of_In, elem_of_app in Hin as [Hin|Hin].
    + unfold labels in Hin. destruct attachmentLabel.
      * apply elem_of_app in Hin as [Hin|Hin].
        -- left. apply list_elem_of_fmap in Hin as (l & -> & Hl). by exists l.
        -- right. left. by apply list_elem_of_singleton in Hin.
      * left. apply list_elem_of_fmap in Hin as (l & -> & Hl). by exists l.
    + right. right. by apply list_elem_of_singleton in Hin.
  - intros Hnotin.
    assert (missing gitlabMergeRequestLabel = true) as Hm.
    { unfold missing. destruct (List.find _ _) as [found|] eqn:Hfind; [|done].
      apply List.find_some in Hfind as [Hin Heq].
      apply String.eqb_eq in Heq. simpl in Heq. subst found.
      by apply list_elem_of_In in Hin. }
    generalize labels. intros l. induction l as [|x l IH]; simpl.
    + by rewrite Hm.
    + destruct (missing x); [|exact IH].
      rewrite last_cons, IH. done.
  - intros Hin Hcreated.
    apply list_elem_of_In, List.filter_In in Hcreated as [_ Hm].
    destruct (Hmissing _ Hm) as [Hnotin|Hempty]; [done | discriminate].
Qed.

Lemma X24_transferLabels_creates_missing_labels_witness :
  last (transferLabels [{| label_name := "Bug"; label_color := "#ff0000";
                           label_description := "Something is broken" |}]
                       ["bug"; "enhancement"] true true)
  = Some gitlabMergeRequestLabel.
Proof.
  refine (proj1 (proj2 (X24_transferLabels_creates_missing_labels
                          [{| label_name := "Bug"; label_color := "#ff0000";
                              label_description := "Something is broken" |}]
                          ["bug"; "enhancement"] true true)) _).
  refine (bool_decide_unpack _ _). vm_compute. exact I.
Defined.

(** X25. [convertLabel] returns a description of at most 100 code units,
    the beginning of the description it was given; a colour from which one
    leading [#] has been taken away, if there was one; and, when lower
    case is asked for, a name that converting again leaves as it is. *)
Theorem X25_convertLabel_bounds (label : LabelData) (useLowerCase : bool) :
  (String.length (label_description (convertLabel label useLowerCase))
   ≤ 100)%nat
  ∧ (∃ tail, label_description label
             = label_description (convertLabel label useLowerCase)
               +:+ tail)
  ∧ ((String.length (label_description label) ≤ 100)%nat →
     label_description (convertLabel label useLowerCase)
     = label_description label)
  ∧ (label_color label
     = String "#" (label_color (convertLabel label useLowerCase))
     ∨ (starts_with (fun c => bool_decide (c = "#"%char)) (label_color label)
        = false
        ∧ label_color (convertLabel label useLowerCase) = label_color label))
  ∧ label_name (convertLabel (convertLabel label true) true)
    = label_name (convertLabel label true).
Proof.
  assert (∀ n s, (String.length (String.substring 0 n s) ≤ n)%nat
                 ∧ (∃ tail, s = String.substring 0 n s +:+ tail)
                 ∧ ((String.length s ≤ n)%nat → String.substring 0 n s = s))
    as Hsub.
  { induction n as [|n IH]; intros s.
    - destruct s; simpl; (split; [lia|]); (split; [by eexists|]);
        [done | intros; simpl in *; lia].
    - destruct s as [|c s]; simpl.
      + split; [lia|]. split; [by exists ""|done].
      + destruct (IH s) as (H1 & [tail H2] & H3).
        split; [lia|]. split.
        * exists tail. by rewrite <- H2.
        * intros Hlen. rewrite H3; [done|lia]. }
  destruct (Hsub 100%nat (label_description label)) as (H1 & H2 & H3).
  split; [exact H1|]. split; [exact H2|]. split; [exact H3|]. split.
  - unfold convertLabel. simpl.
    destruct (label_color label) as [|c color]; [by right|].
    destruct (decide (c = "#"%char)) as [->|Hne]; [by left|].
    right. split; [simpl; by apply bool_decide_eq_false|].
    destruct c as [[] [] [] [] [] [] [] []]; done.
  - simpl. apply toLowerCase_idemp.
Qed.

(** ** [pick] and [omit] *)


(** ** The milestone map of [transferMilestones] *)





(** ** References to milestones that are not in the map *)












